(** * Docking and layout engines of the Audacious plugins

    A shallow embedding of [src/skins/ui_dock.c] (the free-floating
    dock/snap engine of the skinned interface) and of [src/gtkui/layout.c]
    (the panel layout engine of the GTK interface), together with the
    properties their specification states about them.

    C integers ([gint]) are 32-bit two's-complement values, carried as [Z]
    with the wrap-around of every arithmetic operation written out.  The
    GTK toolkit is an external collaborator: its objects are identified by
    natural numbers (standing for pointers) and its state is an explicit
    record threaded through the code. *)

From stdpp Require Import base numbers list functions gmap strings.
From Stdlib Require Import ZArith QArith Lia Ascii.

Local Open Scope Z_scope.

(* ===================================================================== *)
(** ** [gint]: 32-bit signed integers                                     *)
(* ===================================================================== *)

Module Gint.

Definition min_int : Z := -2147483648.
Definition max_int : Z := 2147483647.

(** Reduction of a mathematical integer to the [gint] with the same low
    32 bits. *)
Definition wrap (z : Z) : Z := (z + 2147483648) `mod` 4294967296 - 2147483648.

Definition add (a b : Z) : Z := wrap (a + b).
Definition sub (a b : Z) : Z := wrap (a - b).
(** [abs] of <stdlib.h>. *)
Definition abs (a : Z) : Z := wrap (Z.abs a).

Definition in_range (z : Z) : Prop := min_int <= z <= max_int.

End Gint.

Declare Scope gint_scope.
Delimit Scope gint_scope with gint.
Infix "+i" := Gint.add (at level 50, left associativity) : gint_scope.
Infix "-i" := Gint.sub (at level 50, left associativity) : gint_scope.
Local Open Scope gint_scope.

(** Unfolds the machine arithmetic and leaves linear goals over [mod]. *)
Ltac gint_unfold :=
  unfold Gint.add, Gint.sub, Gint.abs, Gint.wrap, Gint.in_range,
    Gint.min_int, Gint.max_int in *.

(* ===================================================================== *)
(** ** ui_dock.c                                                          *)
(* ===================================================================== *)

Module UiDock.

(** A [GtkWindow *]: windows are compared by identity only. *)
Abbreviation GtkWindow := nat.

(** [struct _DockedWindow]. *)
Record DockedWindow := mkDocked {
  dw_w : GtkWindow;
  offset_x : Z;
  offset_y : Z
}.

(** [g_new0 (DockedWindow, 1)] followed by [dwin->w = w]. *)
Definition docked_new (w : GtkWindow) : DockedWindow := mkDocked w 0 0.

(** The fields of the skins configuration that the dock engine reads or
    writes (declared in skins_cfg.h). *)
Record Config := mkConfig {
  snap_distance : Z;
  snap_windows : bool;
  show_wm_decorations : bool;
  player_x : Z; player_y : Z;
  equalizer_x : Z; equalizer_y : Z;
  playlist_x : Z; playlist_y : Z
}.

(** [window->type] of a [SkinnedWindow] (declared in ui_skinned_window.h). *)
Inductive WindowType := WINDOW_MAIN | WINDOW_EQ | WINDOW_PLAYLIST | WINDOW_OTHER.

(** What the display tells about the windows: [gtk_window_get_position],
    [gtk_window_get_size], [gdk_screen_width] and [gdk_screen_height]. *)
Record Desktop := mkDesktop {
  win_pos : GtkWindow -> Z * Z;
  win_size : GtkWindow -> Z * Z;
  screen_width : Z;
  screen_height : Z
}.

(** [g_list_find_custom]: the first element on which the comparison
    function returns 0. *)
Definition g_list_find_custom {A B} (l : list A) (data : B)
    (func : A -> B -> Z) : option A :=
  List.find (fun a => func a data =? 0) l.

Definition docked_list_compare (a b : DockedWindow) : Z :=
  if Nat.eqb (dw_w a) (dw_w b) then 0 else 1.

(** *** Snapping *)

Definition snap_edge (sd : Z) (x y w h bx by_ bw bh : Z) : Z * Z :=
  let '(x, y) :=
    if (bx -i sd <? x +i w) && (x +i w <? bx +i sd) &&
       (by_ -i h -i sd <? y) && (y <? by_ +i bh +i sd)
    then
      let x := bx -i w in
      let y := if (by_ -i sd <? y) && (y <? by_ +i sd) then by_ else y in
      let y := if (by_ +i bh -i sd <? y +i h) && (y +i h <? by_ +i bh +i sd)
               then by_ +i bh -i h else y in
      (x, y)
    else (x, y) in
  if (bx +i bw -i sd <? x) && (x <? bx +i bw +i sd) &&
     (by_ -i h -i sd <? y) && (y <? by_ +i bh +i sd)
  then
    let x := bx +i bw in
    let y := if (by_ -i sd <? y) && (y <? by_ +i sd) then by_ else y in
    let y := if (by_ +i bh -i sd <? y +i h) && (y +i h <? by_ +i bh +i sd)
             then by_ +i bh -i h else y in
    (x, y)
  else (x, y).

Definition snap (sd : Z) (x y w h bx by_ bw bh : Z) : Z * Z :=
  let '(x, y) := snap_edge sd x y w h bx by_ bw bh in
  let '(y, x) := snap_edge sd y x h w by_ bx bh bw in
  (x, y).

(** The body of the inner loop of [calc_snap_offset]: one candidate
    window [wnode] against the docked window [dw] of size [nw] x [nh]. *)
Definition snap_to_window (cfg : Config) (d : Desktop)
    (dlist : list DockedWindow) (dw : DockedWindow) (nw nh x y : Z)
    (off : Z * Z) (wnode : GtkWindow) : Z * Z :=
  let '(off_x, off_y) := off in
  match g_list_find_custom dlist (docked_new wnode) docked_list_compare with
  | Some _ => (off_x, off_y)   (* these windows are already docked *)
  | None =>
      let '(sx, sy) := win_pos d wnode in
      let '(sw, sh) := win_size d wnode in
      let nx := offset_x dw +i off_x +i x in
      let ny := offset_y dw +i off_y +i y in
      let '(nx, ny) := snap (snap_distance cfg) nx ny nw nh sx sy sw sh in
      let off_x' := off_x +i (nx -i (offset_x dw +i off_x +i x)) in
      let off_y' := off_y +i (ny -i (offset_y dw +i off_y +i y)) in
      (off_x', off_y')
  end.

(** The body of the outer loop of [calc_snap_offset]. *)
Definition snap_docked (cfg : Config) (d : Desktop)
    (dlist : list DockedWindow) (wlist : list GtkWindow) (x y : Z)
    (off : Z * Z) (dw : DockedWindow) : Z * Z :=
  let '(off_x, off_y) := off in
  let '(nw, nh) := win_size d (dw_w dw) in
  let nx := offset_x dw +i off_x +i x in
  let ny := offset_y dw +i off_y +i y in
  let sd := snap_distance cfg in
  (* snap to screen edges *)
  let off_x := if Gint.abs nx <? sd then off_x -i nx else off_x in
  let off_y := if Gint.abs ny <? sd then off_y -i ny else off_y in
  let off_x := if Gint.abs (nx +i nw -i screen_width d) <? sd
               then off_x -i (nx +i nw -i screen_width d) else off_x in
  let off_y := if Gint.abs (ny +i nh -i screen_height d) <? sd
               then off_y -i (ny +i nh -i screen_height d) else off_y in
  (* snap to other windows *)
  fold_left (snap_to_window cfg d dlist dw nw nh x y) wlist (off_x, off_y).

Definition calc_snap_offset (cfg : Config) (d : Desktop)
    (dlist : list DockedWindow) (wlist : list GtkWindow) (x y : Z) : Z * Z :=
  if negb (snap_windows cfg) then (0, 0)
  else fold_left (snap_docked cfg d dlist wlist x y) dlist (0, 0).

(** *** Adjacency *)

Definition is_docked (a_x a_y a_w a_h b_x b_y b_w b_h : Z) : bool :=
  if ((a_x =? b_x +i b_w) || (a_x +i a_w =? b_x)) &&
     (a_y <=? b_y +i b_h) && (b_y <=? a_y +i a_h)
  then true
  else if ((a_y =? b_y +i b_h) || (a_y +i a_h =? b_y)) &&
          (a_x -i b_w <=? b_x) && (b_x <=? a_x +i a_w)
  then true
  else false.

(** [is_docked] on the geometry the display reports for two windows. *)
Definition windows_docked (d : Desktop) (a b : GtkWindow) : bool :=
  let '(a_x, a_y) := win_pos d a in
  let '(a_w, a_h) := win_size d a in
  let '(b_x, b_y) := win_pos d b in
  let '(b_w, b_h) := win_size d b in
  is_docked a_x a_y a_w a_h b_x b_y b_w b_h.


(** *** The flood fill over docked windows

    [get_docked_list] calls itself from inside its loop over [wlist] and
    goes on with the list the call returns.  [docked_loop] is that loop,
    with the recursive call as the parameter [rec]; [fuel] bounds the
    depth of the recursion. *)

Fixpoint docked_loop
    (rec : list DockedWindow -> GtkWindow -> Z -> Z -> option (list DockedWindow))
    (d : Desktop) (w : GtkWindow) (init_off_x init_off_y : Z)
    (node : list GtkWindow) (dlist : list DockedWindow)
    : option (list DockedWindow) :=
  match node with
  | [] => Some dlist
  | t :: node' =>
      match g_list_find_custom dlist (docked_new t) docked_list_compare with
      | Some _ => docked_loop rec d w init_off_x init_off_y node' dlist
      | None =>
          let '(w_x, w_y) := win_pos d w in
          let '(w_width, w_height) := win_size d w in
          let '(t_x, t_y) := win_pos d t in
          let '(t_width, t_height) := win_size d t in
          if is_docked w_x w_y w_width w_height t_x t_y t_width t_height
          then
            let dwin := mkDocked t (t_x -i w_x +i init_off_x)
                                   (t_y -i w_y +i init_off_y) in
            match rec (dlist ++ [dwin]) t (offset_x dwin) (offset_y dwin) with
            | None => None
            | Some dlist' => docked_loop rec d w init_off_x init_off_y node' dlist'
            end
          else docked_loop rec d w init_off_x init_off_y node' dlist
      end
  end.

Fixpoint get_docked_list (fuel : nat) (d : Desktop)
    (dlist : list DockedWindow) (wlist : list GtkWindow) (w : GtkWindow)
    (init_off_x init_off_y : Z) : option (list DockedWindow) :=
  match fuel with
  | O => None
  | S fuel' =>
      let dlist := match dlist with
                   | [] => [docked_new w]
                   | _ => dlist
                   end in
      docked_loop (fun dl t ox oy => get_docked_list fuel' d dl wlist t ox oy)
        d w init_off_x init_off_y wlist dlist
  end.

(** The recursion is at most one level deeper than the candidate list is
    long, see [get_docked_list_terminates]. *)
Definition docked_fuel (wlist : list GtkWindow) : nat := S (length wlist).

(** *** Drag state

    The state of a drag hangs on the dragged window as GObject data under
    string keys.  A key set to [NULL] is removed; an absent key reads as
    [NULL]. *)

Inductive GPointer :=
| PInt (z : Z)                          (* GINT_TO_POINTER *)
| PDocked (l : list DockedWindow)       (* GList of DockedWindow *)
| PWindows (l : list GtkWindow).        (* GList of GtkWindow *)

Inductive GtkCall :=
| Window_present (w : GtkWindow)
| Window_move (w : GtkWindow) (x y : Z).

Record World := mkWorld {
  desktop : Desktop;
  config : Config;
  skinned_type : GtkWindow -> WindowType;     (* SkinnedWindow.type *)
  skinned_xy : GtkWindow -> Z * Z;            (* SkinnedWindow.x, .y *)
  object_data : gmap (GtkWindow * string) GPointer;
  calls : list GtkCall                        (* toolkit calls, oldest first *)
}.

Definition with_desktop (s : World) (d : Desktop) : World :=
  mkWorld d (config s) (skinned_type s) (skinned_xy s) (object_data s) (calls s).
Definition with_config (s : World) (c : Config) : World :=
  mkWorld (desktop s) c (skinned_type s) (skinned_xy s) (object_data s) (calls s).
Definition with_skinned_xy (s : World) (f : GtkWindow -> Z * Z) : World :=
  mkWorld (desktop s) (config s) (skinned_type s) f (object_data s) (calls s).
Definition with_object_data (s : World)
    (m : gmap (GtkWindow * string) GPointer) : World :=
  mkWorld (desktop s) (config s) (skinned_type s) (skinned_xy s) m (calls s).
Definition with_call (s : World) (c : GtkCall) : World :=
  mkWorld (desktop s) (config s) (skinned_type s) (skinned_xy s)
    (object_data s) (calls s ++ [c]).

Definition GINT_TO_POINTER (z : Z) : option GPointer :=
  if z =? 0 then None else Some (PInt z).

Definition GPOINTER_TO_INT (p : option GPointer) : Z :=
  match p with
  | Some (PInt z) => z
  | _ => 0
  end.

Definition docked_list_pointer (l : list DockedWindow) : option GPointer :=
  match l with [] => None | _ => Some (PDocked l) end.

Definition window_list_pointer (l : list GtkWindow) : option GPointer :=
  match l with [] => None | _ => Some (PWindows l) end.

Definition pointer_docked_list (p : option GPointer) : list DockedWindow :=
  match p with Some (PDocked l) => l | _ => [] end.

Definition pointer_window_list (p : option GPointer) : list GtkWindow :=
  match p with Some (PWindows l) => l | _ => [] end.

Definition g_object_set_data (s : World) (w : GtkWindow) (key : string)
    (data : option GPointer) : World :=
  with_object_data s
    match data with
    | Some p => <[(w, key) := p]> (object_data s)
    | None => delete (w, key) (object_data s)
    end.

Definition g_object_get_data (s : World) (w : GtkWindow) (key : string)
    : option GPointer :=
  object_data s !! (w, key).

(** [gtk_window_move]: the call is recorded and the window is where it
    was moved to. *)
Definition gtk_window_move (s : World) (w : GtkWindow) (x y : Z) : World :=
  let d := desktop s in
  with_call
    (with_desktop s
       (mkDesktop (<[w := (x, y)]> (win_pos d)) (win_size d)
          (screen_width d) (screen_height d)))
    (Window_move w x y).

Definition gtk_window_present (s : World) (w : GtkWindow) : World :=
  with_call s (Window_present w).

(** The body of the loop of [docked_list_move]. *)
Definition docked_move_one (x y : Z) (s : World) (dw : DockedWindow) : World :=
  let tx := x +i offset_x dw in
  let ty := y +i offset_y dw in
  let s := gtk_window_move s (dw_w dw) tx ty in
  let c := config s in
  let s :=
    match skinned_type s (dw_w dw) with
    | WINDOW_MAIN =>
        with_config s
          (mkConfig (snap_distance c) (snap_windows c) (show_wm_decorations c)
             tx ty (equalizer_x c) (equalizer_y c) (playlist_x c) (playlist_y c))
    | WINDOW_EQ =>
        with_config s
          (mkConfig (snap_distance c) (snap_windows c) (show_wm_decorations c)
             (player_x c) (player_y c) tx ty (playlist_x c) (playlist_y c))
    | WINDOW_PLAYLIST =>
        with_config s
          (mkConfig (snap_distance c) (snap_windows c) (show_wm_decorations c)
             (player_x c) (player_y c) (equalizer_x c) (equalizer_y c) tx ty)
    | WINDOW_OTHER => s
    end in
  with_skinned_xy s (<[dw_w dw := (tx, ty)]> (skinned_xy s)).

Definition docked_list_move (s : World) (list : list DockedWindow) (x y : Z)
    : World :=
  fold_left (docked_move_one x y) list s.

(** The coordinates of a pointer event are [gdouble]s.
    [dock_move_press] converts those of the press to [gint] as it reads
    them ([mx = event->x]), so that the model takes them as the [gint]s
    they convert to.  [dock_move_motion] subtracts the grab offset from
    the [gdouble] and converts the difference; the model takes the root
    coordinates as the rational numbers they are.  A pointer coordinate is
    a multiple of 2^-16 below 2^31 in absolute value, so that its
    difference with a [gint] is exact in binary64. *)
Record GdkEventButton := mkButton { ev_x : Z; ev_y : Z }.
Record GdkEventMotion := mkMotion { ev_x_root : Q; ev_y_root : Q }.

(** The conversion of a [gdouble] to [gint] discards the fraction: the
    value is truncated toward zero. *)
Definition truncate (d : Q) : Z := Z.quot (Qnum d) (Z.pos (Qden d)).

Definition gint_of_double (d : Q) : Z := Gint.wrap (truncate d).

Definition dock_move_press (s : World) (window_list : list GtkWindow)
    (w : GtkWindow) (event : GdkEventButton) (move_list : bool) : World :=
  if show_wm_decorations (config s) then s
  else
    let s := gtk_window_present s w in
    let mx := ev_x event in
    let my := ev_y event in
    let s := g_object_set_data s w "move_offset_x" (GINT_TO_POINTER mx) in
    let s := g_object_set_data s w "move_offset_y" (GINT_TO_POINTER my) in
    let s :=
      if move_list then
        g_object_set_data s w "docked_list"
          (docked_list_pointer
             (default [] (get_docked_list (docked_fuel window_list)
                            (desktop s) [] window_list w 0 0)))
      else
        g_object_set_data s w "docked_list"
          (docked_list_pointer ([] ++ [docked_new w])) in
    let s := g_object_set_data s w "window_list"
               (window_list_pointer window_list) in
    g_object_set_data s w "is_moving" (GINT_TO_POINTER 1).

Definition dock_move_motion (s : World) (w : GtkWindow)
    (event : GdkEventMotion) : World :=
  match g_object_get_data s w "is_moving" with
  | None => s
  | Some _ =>
      let offset_x := GPOINTER_TO_INT (g_object_get_data s w "move_offset_x") in
      let offset_y := GPOINTER_TO_INT (g_object_get_data s w "move_offset_y") in
      let dlist := pointer_docked_list (g_object_get_data s w "docked_list") in
      let window_list :=
        pointer_window_list (g_object_get_data s w "window_list") in
      let x := gint_of_double (ev_x_root event - inject_Z offset_x)%Q in
      let y := gint_of_double (ev_y_root event - inject_Z offset_y)%Q in
      let '(offset_x, offset_y) :=
        calc_snap_offset (config s) (desktop s) dlist window_list x y in
      let x := x +i offset_x in
      let y := y +i offset_y in
      docked_list_move s dlist x y
  end.

Definition dock_move_release (s : World) (w : GtkWindow) : World :=
  let s := g_object_set_data s w "is_moving" None in
  let s := g_object_set_data s w "move_offset_x" None in
  let s := g_object_set_data s w "move_offset_y" None in
  (* free_docked_list leaves nothing to observe *)
  let s := g_object_set_data s w "docked_list" None in
  g_object_set_data s w "window_list" None.

Definition dock_is_moving (s : World) (w : GtkWindow) : bool :=
  match g_object_get_data s w "is_moving" with
  | Some _ => true
  | None => false
  end.


(** *** Geometry for which the arithmetic is exact

    Signed overflow is undefined in C.  Positions and sizes of windows are
    far below 2^29 in absolute value (the X protocol carries them in 16
    bits), and sums and differences of up to three such values do not
    overflow. *)

Definition coord_range (z : Z) : Prop := -536870912 <= z <= 536870911.

Definition geometry_in_range (x y w h : Z) : Prop :=
  coord_range x /\ coord_range y /\ coord_range w /\ coord_range h.

Definition window_in_range (d : Desktop) (w : GtkWindow) : Prop :=
  geometry_in_range (win_pos d w).1 (win_pos d w).2
                    (win_size d w).1 (win_size d w).2.

End UiDock.

(* ===================================================================== *)
(** ** layout.c                                                           *)
(* ===================================================================== *)

Module Layout.

(** *** C strings and <stdio.h>

    A C string is the list of its characters, without the terminating NUL.
    The layout file is the list of its bytes. *)

Definition lit (s : string) : list ascii := String.list_ascii_of_string s.

Definition NUL : ascii := Ascii.zero.
Definition newline : ascii := ascii_of_nat 10.
Definition space : ascii := ascii_of_nat 32.

(** The string a character buffer holds: up to the first NUL. *)
Fixpoint c_str (buf : list ascii) : list ascii :=
  match buf with
  | [] => []
  | a :: rest => if Ascii.eqb a NUL then [] else a :: c_str rest
  end.

(** [strchr]: the string before the first occurrence of [c] and the string
    after it. *)
Fixpoint strchr (s : list ascii) (c : ascii) : option (list ascii * list ascii) :=
  match s with
  | [] => None
  | a :: rest =>
      if Ascii.eqb a c then Some ([], rest)
      else match strchr rest c with
           | Some (before, after) => Some (a :: before, after)
           | None => None
           end
  end.

Fixpoint strcmp (a b : list ascii) : Z :=
  match a, b with
  | [], [] => 0
  | [], _ :: _ => -1
  | _ :: _, [] => 1
  | c :: a', c' :: b' =>
      if Ascii.eqb c c' then strcmp a' b'
      else if (nat_of_ascii c <? nat_of_ascii c')%nat then -1 else 1
  end.

Definition strlen (s : list ascii) : Z := Z.of_nat (length s).

(** [fgets] reads at most [n] characters and stops after a newline. *)
Fixpoint read_line (n : nat) (file : list ascii) : list ascii * list ascii :=
  match n with
  | O => ([], file)
  | S n' =>
      match file with
      | [] => ([], [])
      | c :: rest =>
          if Ascii.eqb c newline then ([c], rest)
          else let '(line, rest') := read_line n' rest in (c :: line, rest')
      end
  end.

(** [fgets (buf, size, handle)]: [None] at the end of the file, else the
    characters read and the rest of the file. *)
Definition fgets (size : nat) (handle : list ascii)
    : option (list ascii * list ascii) :=
  match handle with
  | [] => None
  | _ :: _ => Some (read_line (size - 1) handle)
  end.

Definition is_digit (c : ascii) : bool :=
  (48 <=? nat_of_ascii c)%nat && (nat_of_ascii c <=? 57)%nat.

Definition digit_value (c : ascii) : Z := Z.of_nat (nat_of_ascii c) - 48.

Definition digit_char (d : Z) : ascii := ascii_of_nat (Z.to_nat d + 48).

(** [isspace] in the C locale. *)
Definition is_space (c : ascii) : bool :=
  let n := nat_of_ascii c in
  (n =? 32)%nat || ((9 <=? n)%nat && (n <=? 13)%nat).

Fixpoint skip_spaces (s : list ascii) : list ascii :=
  match s with
  | c :: rest => if is_space c then skip_spaces rest else s
  | [] => []
  end.

Fixpoint scan_digits (acc : Z) (s : list ascii) : Z :=
  match s with
  | c :: rest => if is_digit c then scan_digits (acc * 10 + digit_value c) rest
                 else acc
  | [] => acc
  end.

(** [sscanf (s, "%d", & value) == 1] and the value stored: white space, an
    optional sign, and at least one digit.  The value is reduced to a
    [gint]. *)
Definition sscanf_d (s : list ascii) : option Z :=
  let s := skip_spaces s in
  let '(negative, s) :=
    match s with
    | c :: rest =>
        if Ascii.eqb c (ascii_of_nat 45) then (true, rest)
        else if Ascii.eqb c (ascii_of_nat 43) then (false, rest)
        else (false, s)
    | [] => (false, s)
    end in
  match s with
  | c :: _ =>
      if is_digit c
      then Some (Gint.wrap (if negative then - scan_digits 0 s
                            else scan_digits 0 s))
      else None
  | [] => None
  end.

(** The decimal digits of a natural number, least significant first. *)
Fixpoint digits_rev (fuel : nat) (n : Z) : list ascii :=
  match fuel with
  | O => []
  | S fuel' =>
      digit_char (n `mod` 10) ::
      (if n / 10 =? 0 then [] else digits_rev fuel' (n / 10))
  end.

(** What [printf] writes for "%d". *)
Definition format_d (z : Z) : list ascii :=
  let z := Gint.wrap z in
  if z <? 0 then ascii_of_nat 45 :: rev (digits_rev 10 (- z))
  else rev (digits_rev 10 z).

(** *** Items *)

(** A [GtkWidget *]. *)
Abbreviation Widget := nat.

(** [Item]. *)
Record Item := mkItem {
  item_name : list ascii;
  item_widget : option Widget;
  item_vbox : option Widget;
  item_paned : option Widget;
  item_window : option Widget;
  item_dock : Z;
  item_x : Z;
  item_y : Z;
  item_w : Z;
  item_h : Z
}.

Definition with_widget (v : option Widget) (i : Item) : Item :=
  mkItem (item_name i) v (item_vbox i) (item_paned i) (item_window i)
    (item_dock i) (item_x i) (item_y i) (item_w i) (item_h i).
Definition with_vbox (v : option Widget) (i : Item) : Item :=
  mkItem (item_name i) (item_widget i) v (item_paned i) (item_window i)
    (item_dock i) (item_x i) (item_y i) (item_w i) (item_h i).
Definition with_paned (v : option Widget) (i : Item) : Item :=
  mkItem (item_name i) (item_widget i) (item_vbox i) v (item_window i)
    (item_dock i) (item_x i) (item_y i) (item_w i) (item_h i).
Definition with_window (v : option Widget) (i : Item) : Item :=
  mkItem (item_name i) (item_widget i) (item_vbox i) (item_paned i) v
    (item_dock i) (item_x i) (item_y i) (item_w i) (item_h i).
Definition with_dock (v : Z) (i : Item) : Item :=
  mkItem (item_name i) (item_widget i) (item_vbox i) (item_paned i)
    (item_window i) v (item_x i) (item_y i) (item_w i) (item_h i).
Definition with_x (v : Z) (i : Item) : Item :=
  mkItem (item_name i) (item_widget i) (item_vbox i) (item_paned i)
    (item_window i) (item_dock i) v (item_y i) (item_w i) (item_h i).
Definition with_y (v : Z) (i : Item) : Item :=
  mkItem (item_name i) (item_widget i) (item_vbox i) (item_paned i)
    (item_window i) (item_dock i) (item_x i) v (item_w i) (item_h i).
Definition with_w (v : Z) (i : Item) : Item :=
  mkItem (item_name i) (item_widget i) (item_vbox i) (item_paned i)
    (item_window i) (item_dock i) (item_x i) (item_y i) v (item_h i).
Definition with_h (v : Z) (i : Item) : Item :=
  mkItem (item_name i) (item_widget i) (item_vbox i) (item_paned i)
    (item_window i) (item_dock i) (item_x i) (item_y i) (item_w i) v.

(** What the layout file records of an item. *)
Definition saved_fields (i : Item) : list ascii * Z * Z * Z * Z * Z :=
  (item_name i, item_dock i, item_x i, item_y i, item_w i, item_h i).

Definition DOCK_LEFT : Z := 0.
Definition DOCK_RIGHT : Z := 1.
Definition DOCK_TOP : Z := 2.
Definition DOCK_BOTTOM : Z := 3.
Definition DOCKS : Z := 4.

Definition IS_VERTICAL (d : Z) : bool := negb (Z.land d 2 =? 0).
Definition IS_AFTER (d : Z) : bool := negb (Z.land d 1 =? 0).

(** *** The toolkit

    Widgets are numbered in the order of their creation.  The toolkit
    keeps, for each widget, the container it is in and the widgets it
    contains, the data attached to it under string keys, and the references
    the program holds on it; it reports the size allocated to a widget and
    the position of a window.  A widget that loses its container without
    the program holding a reference on it is destroyed, and a container
    destroys what it contains. *)

Inductive GtkCall :=
| Gtk_window_new (win : Widget)
| Gtk_window_set_title (win : Widget) (title : list ascii)
| Gtk_window_move (win : Widget) (x y : Z)
| Gtk_window_set_default_size (win : Widget) (width height : Z)
| Gtk_paned_new (paned : Widget) (vertical : bool)
| Gtk_paned_set_position (paned : Widget) (position : Z)
| G_idle_add_restore_size (paned mine : Widget) (vertical : bool) (w h : Z)
| Gtk_widget_show_all (widget : Widget)
| Gtk_destroyed (widget : Widget)
| G_critical (function : string).       (* a g_return_if_fail that failed *)

Record Gtk := mkGtk {
  next_widget : Widget;
  children : Widget -> list Widget;
  parent : Widget -> option Widget;
  object_data : gmap (Widget * string) Widget;
  held : list Widget;                       (* g_object_ref *)
  allocation : Widget -> Z * Z;             (* gtk_widget_get_allocation *)
  window_position : Widget -> Z * Z;        (* gtk_window_get_position *)
  calls : list GtkCall                      (* oldest first *)
}.

(** The variables of layout.c, the layout file and the toolkit. *)
Record State := mkState {
  items : list Item;
  layout : option Widget;
  center : option Widget;
  docks : list (option Widget);             (* docks[DOCKS] *)
  menu : option Widget;
  layout_file : option (list ascii);        (* LAYOUT_FILE in the user directory *)
  user_dir_writable : bool;                 (* fopen (..., "w") succeeds *)
  gtk : Gtk
}.

Definition with_items (v : list Item) (s : State) : State :=
  mkState v (layout s) (center s) (docks s) (menu s) (layout_file s)
    (user_dir_writable s) (gtk s).
Definition with_docks (v : list (option Widget)) (s : State) : State :=
  mkState (items s) (layout s) (center s) v (menu s) (layout_file s)
    (user_dir_writable s) (gtk s).
Definition with_layout_file (v : option (list ascii)) (s : State) : State :=
  mkState (items s) (layout s) (center s) (docks s) (menu s) v
    (user_dir_writable s) (gtk s).
Definition with_gtk (v : Gtk) (s : State) : State :=
  mkState (items s) (layout s) (center s) (docks s) (menu s) (layout_file s)
    (user_dir_writable s) v.

Definition with_next_widget (v : Widget) (g : Gtk) : Gtk :=
  mkGtk v (children g) (parent g) (object_data g) (held g) (allocation g)
    (window_position g) (calls g).
Definition with_tree (c : Widget -> list Widget) (p : Widget -> option Widget)
    (g : Gtk) : Gtk :=
  mkGtk (next_widget g) c p (object_data g) (held g) (allocation g)
    (window_position g) (calls g).
Definition with_object_data (v : gmap (Widget * string) Widget) (g : Gtk) : Gtk :=
  mkGtk (next_widget g) (children g) (parent g) v (held g) (allocation g)
    (window_position g) (calls g).
Definition with_held (v : list Widget) (g : Gtk) : Gtk :=
  mkGtk (next_widget g) (children g) (parent g) (object_data g) v (allocation g)
    (window_position g) (calls g).
Definition with_call (c : GtkCall) (g : Gtk) : Gtk :=
  mkGtk (next_widget g) (children g) (parent g) (object_data g) (held g)
    (allocation g) (window_position g) (calls g ++ [c]).

(** *** Running the code

    A function either runs to its end, or leaves at a [g_return_if_fail]
    whose condition does not hold, or does what C leaves undefined (it
    follows a pointer to no item or indexes [docks] outside its bounds), or
    exceeds the bound put on a loop. *)

Inductive Outcome (A : Type) :=
| Done (a : A)
| Failed
| Undefined
| OutOfFuel.

Arguments Done {A} a.
Arguments Failed {A}.
Arguments Undefined {A}.
Arguments OutOfFuel {A}.

Definition M (A : Type) : Type := State -> Outcome A * State.

Definition ret {A} (a : A) : M A := fun s => (Done a, s).

Definition bind {A B} (m : M A) (k : A -> M B) : M B :=
  fun s =>
    match m s with
    | (Done a, s') => k a s'
    | (Failed, s') => (Failed, s')
    | (Undefined, s') => (Undefined, s')
    | (OutOfFuel, s') => (OutOfFuel, s')
    end.

Declare Scope layout_scope.
Delimit Scope layout_scope with layout.
Local Notation "x <- m ;; k" := (bind m (fun x => k))
  (at level 20, m at level 99, k at level 200, only parsing) : layout_scope.
Local Notation "m ;; k" := (bind m (fun _ => k))
  (at level 100, k at level 200, right associativity, only parsing) : layout_scope.
Local Open Scope layout_scope.

Definition gets {A} (f : State -> A) : M A := fun s => (Done (f s), s).
Definition modify (f : State -> State) : M unit := fun s => (Done tt, f s).
Definition modify_gtk (f : Gtk -> Gtk) : M unit :=
  modify (fun s => with_gtk (f (gtk s)) s).
Definition undefined {A} : M A := fun s => (Undefined, s).

Definition when (b : bool) (m : M unit) : M unit := if b then m else ret tt.

(** [g_return_if_fail (cond)] in the function [fn]. *)
Definition g_return_if_fail (fn : string) (cond : bool) : M unit :=
  fun s =>
    if cond then (Done tt, s)
    else (Failed, with_gtk (with_call (G_critical fn) (gtk s)) s).

(** The body of a function: a failed [g_return_if_fail] makes it return
    [result] to its caller, which goes on. *)
Definition returning {A} (result : A) (body : M A) : M A :=
  fun s =>
    match body s with
    | (Failed, s') => (Done result, s')
    | r => r
    end.

Definition is_some {A} (p : option A) : bool :=
  match p with Some _ => true | None => false end.

(** *** Toolkit calls *)

(** A new widget. *)
Definition gtk_new : M Widget :=
  fun s =>
    let g := gtk s in
    (Done (next_widget g), with_gtk (with_next_widget (S (next_widget g)) g) s).

Definition gtk_call (c : GtkCall) : M unit := modify_gtk (with_call c).

Definition gtk_container_add (container widget : Widget) : M unit :=
  modify_gtk (fun g =>
    with_tree (<[container := children g container ++ [widget]]> (children g))
              (<[widget := Some container]> (parent g)) g).

Definition gtk_bin_get_child (bin : Widget) : M (option Widget) :=
  gets (fun s => head (children (gtk s) bin)).

Definition g_object_set_data (object : Widget) (key : string) (data : Widget)
    : M unit :=
  modify_gtk (fun g => with_object_data (<[(object, key) := data]> (object_data g)) g).

(** [g_object_get_data]; on [NULL] it returns [NULL]. *)
Definition g_object_get_data (object : option Widget) (key : string)
    : M (option Widget) :=
  match object with
  | Some o => gets (fun s => object_data (gtk s) !! (o, key))
  | None => ret None
  end.

(** [NULL_ON_DESTROY]: every pointer to a widget that the code keeps was
    connected to the "destroy" signal of the widget and becomes [NULL] when
    the widget is destroyed. *)
Definition forget (w : Widget) (p : option Widget) : option Widget :=
  match p with
  | Some v => if Nat.eqb v w then None else Some v
  | None => None
  end.

Definition forget_in_item (w : Widget) (i : Item) : Item :=
  mkItem (item_name i) (forget w (item_widget i)) (forget w (item_vbox i))
    (forget w (item_paned i)) (forget w (item_window i))
    (item_dock i) (item_x i) (item_y i) (item_w i) (item_h i).

Definition null_on_destroy (w : Widget) (s : State) : State :=
  mkState (map (forget_in_item w) (items s)) (forget w (layout s))
    (forget w (center s)) (map (forget w) (docks s)) (forget w (menu s))
    (layout_file s) (user_dir_writable s) (gtk s).

(** Takes [w] out of the container it is in, if any. *)
Definition unparent (w : Widget) (g : Gtk) : Gtk :=
  match parent g w with
  | Some c =>
      with_tree (<[c := filter (fun v => v <> w) (children g c)]> (children g))
                (<[w := None]> (parent g)) g
  | None => g
  end.

(** The destruction of a widget: of what it contains first, to the depth
    [fuel]; no tree of widgets is deeper than the number of widgets. *)
Fixpoint destroy (fuel : nat) (w : Widget) (s : State) : State :=
  match fuel with
  | O => s
  | S fuel' =>
      let s := fold_left (fun s c => destroy fuel' c s) (children (gtk s) w) s in
      let g := unparent w (gtk s) in
      let g := with_tree (<[w := []]> (children g)) (parent g) g in
      null_on_destroy w (with_gtk (with_call (Gtk_destroyed w) g) s)
  end.

Definition gtk_widget_destroy (w : Widget) : M unit :=
  modify (fun s => destroy (S (next_widget (gtk s))) w s).

(** [gtk_container_remove]: the container lets go of the widget, which is
    destroyed unless the program holds a reference on it. *)
Definition gtk_container_remove (container widget : Widget) : M unit :=
  modify_gtk (fun g =>
    with_tree (<[container := filter (fun v => v <> widget) (children g container)]>
                 (children g))
              (<[widget := None]> (parent g)) g) ;;
  h <- gets (fun s => held (gtk s)) ;;
  if bool_decide (widget ∈ h) then ret tt else gtk_widget_destroy widget.

Definition g_object_ref (w : Widget) : M unit :=
  modify_gtk (fun g => with_held (w :: held g) g).

Fixpoint remove_first (w : Widget) (l : list Widget) : list Widget :=
  match l with
  | [] => []
  | v :: l' => if Nat.eqb v w then l' else v :: remove_first w l'
  end.

(** [g_object_unref]: a widget that nobody holds any more and that is in
    no container is destroyed. *)
Definition g_object_unref (w : Widget) : M unit :=
  modify_gtk (fun g => with_held (remove_first w (held g)) g) ;;
  g <- gets gtk ;;
  if bool_decide (w ∈ held g) || is_some (parent g w) then ret tt
  else gtk_widget_destroy w.


(** *** Items in the list

    An [Item *] is the position of the item in [items]. *)

Definition get_item (item : nat) : M Item :=
  fun s =>
    match items s !! item with
    | Some it => (Done it, s)
    | None => (Undefined, s)
    end.

Definition set_item (item : nat) (f : Item -> Item) : M unit :=
  modify (fun s => with_items (alter f item (items s)) s).

(** [docks[dock]]. *)
Definition get_dock (dock : Z) : M (option Widget) :=
  fun s =>
    if (0 <=? dock) && (dock <? DOCKS) then
      match docks s !! Z.to_nat dock with
      | Some p => (Done p, s)
      | None => (Undefined, s)
      end
    else (Undefined, s).

Definition set_dock (dock : Z) (v : option Widget) : M unit :=
  fun s =>
    if (0 <=? dock) && (dock <? DOCKS)
    then (Done tt, with_docks (<[Z.to_nat dock := v]> (docks s)) s)
    else (Undefined, s).

Definition item_new (name : list ascii) : M nat :=
  fun s =>
    (Done (length (items s)),
     with_items (items s ++ [mkItem name None None None None (-1) (-1) (-1) 0 0]) s).

Definition item_by_widget (item : Item) (widget : option Widget) : Z :=
  if bool_decide (item_widget item = widget) then 0 else 1.

Definition item_by_name (item : Item) (name : list ascii) : Z :=
  strcmp (item_name item) name.

(** [g_list_find_custom (items, data, func)]: the first item on which
    [func] returns 0. *)
Fixpoint find_item {B} (l : list Item) (data : B) (func : Item -> B -> Z)
    (from : nat) : option nat :=
  match l with
  | [] => None
  | it :: l' => if func it data =? 0 then Some from
                else find_item l' data func (S from)
  end.

Definition g_list_find_custom {B} (data : B) (func : Item -> B -> Z)
    : M (option nat) :=
  gets (fun s => find_item (items s) data func 0).

Definition same_dock (it test : Item) : bool :=
  is_some (item_widget test) && (item_dock test =? item_dock it).

(** The loop of [item_get_prev]: from the node before [n] back to the
    first. *)
Fixpoint scan_prev (l : list Item) (it : Item) (n : nat) : option nat :=
  match n with
  | O => None
  | S n' =>
      match l !! n' with
      | Some test => if same_dock it test then Some n' else scan_prev l it n'
      | None => scan_prev l it n'
      end
  end.

Definition item_get_prev (item : nat) : M (option nat) :=
  it <- get_item item ;;
  l <- gets items ;;
  ret (scan_prev l it item).

(** The loop of [item_get_next]: [l] are the nodes from position [n] on. *)
Fixpoint scan_next (l : list Item) (it : Item) (n : nat) : option nat :=
  match l with
  | [] => None
  | test :: l' => if same_dock it test then Some n else scan_next l' it (S n)
  end.

Definition item_get_next (item : nat) : M (option nat) :=
  it <- get_item item ;;
  l <- gets items ;;
  ret (scan_next (drop (S item) l) it (S item)).

Definition item_get_parent (item : nat) : M (option Widget) :=
  prev <- item_get_prev item ;;
  match prev with
  | Some p =>
      pi <- get_item p ;;
      g_object_get_data (item_paned pi) "next"
  | None =>
      it <- get_item item ;;
      dk <- get_dock (item_dock it) ;;
      g_object_get_data dk "mine"
  end.

(** The loop of [dock_get_parent]: [scan] runs from [dock - 1] down to 0;
    [n] is the number of values left. *)
Fixpoint dock_scan (n : nat) : M (option Widget) :=
  match n with
  | O => gets layout
  | S n' =>
      dk <- get_dock (Z.of_nat n') ;;
      match dk with
      | Some p => g_object_get_data (Some p) "next"
      | None => dock_scan n'
      end
  end.

Definition dock_get_parent (dock : Z) : M (option Widget) :=
  returning None
    (g_return_if_fail "dock_get_parent" ((0 <=? dock) && (dock <? DOCKS)) ;;
     dock_scan (Z.to_nat dock)).

Definition vbox_new (widget : option Widget) (name : list ascii)
    : M (option Widget) :=
  returning None
    (g_return_if_fail "vbox_new" (is_some widget) ;;
     match widget with
     | None => ret None
     | Some wd =>
         vbox <- gtk_new ;;
         ebox <- gtk_new ;;
         gtk_container_add vbox ebox ;;
         label <- gtk_new ;;
         gtk_container_add ebox label ;;
         gtk_container_add vbox wd ;;
         gtk_call (Gtk_widget_show_all vbox) ;;
         ret (Some vbox)
     end).

Definition paned_new (vertical after : bool) (w h : Z) : M Widget :=
  paned <- gtk_new ;;
  gtk_call (Gtk_paned_new paned vertical) ;;
  mine <- gtk_new ;;
  next <- gtk_new ;;
  gtk_container_add paned (if after then next else mine) ;;
  gtk_container_add paned (if after then mine else next) ;;
  g_object_set_data paned "mine" mine ;;
  g_object_set_data paned "next" next ;;
  gtk_call (Gtk_widget_show_all paned) ;;
  when (negb ((if vertical then h else w) =? 0))
    (if after
     then gtk_call (G_idle_add_restore_size paned mine vertical w h)
     else gtk_call (Gtk_paned_set_position paned (if vertical then h else w))) ;;
  ret paned.

Definition item_save_size (item : nat) : M unit :=
  returning tt
    (it <- get_item item ;;
     g_return_if_fail "item_save_size"
       (is_some (item_widget it) && is_some (item_vbox it)) ;;
     match item_vbox it with
     | None => ret tt
     | Some vbox =>
         rect <- gets (fun s => allocation (gtk s) vbox) ;;
         set_item item (with_w rect.1) ;;
         set_item item (with_h rect.2) ;;
         when (item_dock it <? 0)
           (g_return_if_fail "item_save_size" (is_some (item_window it)) ;;
            match item_window it with
            | None => ret tt
            | Some win =>
                pos <- gets (fun s => window_position (gtk s) win) ;;
                set_item item (with_x pos.1) ;;
                set_item item (with_y pos.2)
            end)
     end).

(** The end of [item_add] and of [item_remove] works on widgets that the
    guard before it has found not to be [NULL]. *)
Definition the {A} (p : option A) : M A :=
  match p with
  | Some a => ret a
  | None => undefined
  end.

Definition item_add (item : nat) : M unit :=
  returning tt
    (it <- get_item item ;;
     g_return_if_fail "item_add"
       (is_some (item_widget it) && is_some (item_vbox it) &&
        negb (is_some (item_paned it)) && negb (is_some (item_window it)) &&
        (item_dock it <? DOCKS)) ;;
     vbox <- the (item_vbox it) ;;
     if item_dock it <? 0 then
       win <- gtk_new ;;
       gtk_call (Gtk_window_new win) ;;
       set_item item (with_window (Some win)) ;;
       gtk_call (Gtk_window_set_title win (item_name it)) ;;
       when ((0 <=? item_x it) && (0 <=? item_y it))
         (gtk_call (Gtk_window_move win (item_x it) (item_y it))) ;;
       when ((0 <? item_w it) && (0 <? item_h it))
         (gtk_call (Gtk_window_set_default_size win (item_w it) (item_h it))) ;;
       gtk_container_add win vbox ;;
       gtk_call (Gtk_widget_show_all win)
     else
       (* Screwy logic to figure out where we need to add a GtkPaned and
          which widget goes in which pane of it. *)
       dk <- get_dock (item_dock it) ;;
       placed <-
         (if is_some dk then
            next <- item_get_next item ;;
            sw <-
              (if is_some next then ret (false, item)
               else
                 prev <- item_get_prev item ;;
                 g_return_if_fail "item_add" (is_some prev) ;;
                 where_ <- the prev ;;
                 wi <- get_item where_ ;;
                 g_return_if_fail "item_add" (negb (is_some (item_paned wi))) ;;
                 item_save_size where_ ;;
                 ret (true, where_)) ;;
            parent <- item_get_parent sw.2 ;;
            g_return_if_fail "item_add" (is_some parent) ;;
            wi <- get_item sw.2 ;;
            paned <- paned_new (negb (IS_VERTICAL (item_dock wi))) false
                       (item_w wi) (item_h wi) ;;
            set_item sw.2 (with_paned (Some paned)) ;;
            ret (sw.1, parent, paned)
          else
            parent <- dock_get_parent (item_dock it) ;;
            g_return_if_fail "item_add" (is_some parent) ;;
            paned <- paned_new (IS_VERTICAL (item_dock it))
                       (IS_AFTER (item_dock it)) (item_w it) (item_h it) ;;
            set_dock (item_dock it) (Some paned) ;;
            ret (false, parent, paned)) ;;
       let swap := placed.1.1 in
       let paned := placed.2 in
       mine <- g_object_get_data (Some paned) "mine" ;;
       next <- g_object_get_data (Some paned) "next" ;;
       parent <- the placed.1.2 ;;
       child <- gtk_bin_get_child parent ;;
       g_return_if_fail "item_add" (is_some mine && is_some next && is_some child) ;;
       mine <- the mine ;;
       next <- the next ;;
       child <- the child ;;
       g_object_ref child ;;
       gtk_container_remove parent child ;;
       gtk_container_add parent paned ;;
       gtk_container_add (if swap then next else mine) vbox ;;
       gtk_container_add (if swap then mine else next) child ;;
       g_object_unref child).

Definition item_remove (item : nat) : M unit :=
  returning tt
    (it <- get_item item ;;
     g_return_if_fail "item_remove"
       (is_some (item_widget it) && is_some (item_vbox it)) ;;
     item_save_size item ;;
     it <- get_item item ;;
     if item_dock it <? 0 then
       g_return_if_fail "item_remove" (is_some (item_window it)) ;;
       win <- the (item_window it) ;;
       vbox <- the (item_vbox it) ;;
       gtk_container_remove win vbox ;;
       gtk_widget_destroy win
     else
       (* Screwy logic to figure out which GtkPaned we need to remove and
          which pane of it has the widget we need to keep. *)
       prev <- item_get_prev item ;;
       found <-
         (if is_some (item_paned it) || is_some prev then
            sw <-
              (if is_some (item_paned it) then ret (false, item)
               else
                 prev' <- item_get_prev item ;;
                 g_return_if_fail "item_remove" (is_some prev') ;;
                 where_ <- the prev' ;;
                 wi <- get_item where_ ;;
                 g_return_if_fail "item_remove" (is_some (item_paned wi)) ;;
                 ret (true, where_)) ;;
            parent <- item_get_parent sw.2 ;;
            g_return_if_fail "item_remove" (is_some parent) ;;
            wi <- get_item sw.2 ;;
            ret (sw.1, parent, item_paned wi)
          else
            parent <- dock_get_parent (item_dock it) ;;
            g_return_if_fail "item_remove" (is_some parent) ;;
            dk <- get_dock (item_dock it) ;;
            ret (false, parent, dk)) ;;
       let swap := found.1.1 in
       mine <- g_object_get_data found.2 "mine" ;;
       next <- g_object_get_data found.2 "next" ;;
       child <-
         match (if swap then mine else next) with
         | Some bin => gtk_bin_get_child bin
         | None => ret None
         end ;;
       g_return_if_fail "item_remove" (is_some mine && is_some next && is_some child) ;;
       mine <- the mine ;;
       next <- the next ;;
       child <- the child ;;
       parent <- the found.1.2 ;;
       paned <- the found.2 ;;
       it <- get_item item ;;
       vbox <- the (item_vbox it) ;;
       g_object_ref child ;;
       gtk_container_remove (if swap then next else mine) vbox ;;
       gtk_container_remove (if swap then mine else next) child ;;
       gtk_container_remove parent paned ;;
       gtk_container_add parent child ;;
       g_object_unref child).

Definition contains (c : ascii) (s : list ascii) : bool :=
  is_some (strchr s c).

Definition layout_add (widget : option Widget) (name : list ascii) : M unit :=
  returning tt
    (l <- gets layout ;;
     c <- gets center ;;
     g_return_if_fail "layout_add"
       (is_some l && is_some c && is_some widget &&
        (strlen name <=? 256) && negb (contains newline name)) ;;
     node <- g_list_find_custom name item_by_name ;;
     item <-
       match node with
       | Some i =>
           it <- get_item i ;;
           g_return_if_fail "layout_add"
             (negb (is_some (item_widget it)) && negb (is_some (item_vbox it)) &&
              negb (is_some (item_window it))) ;;
           when (DOCKS <=? item_dock it) (set_item i (with_dock (-1))) ;;
           ret i
       | None => item_new name
       end ;;
     set_item item (with_widget widget) ;;
     vbox <- vbox_new widget name ;;
     set_item item (with_vbox vbox) ;;
     item_add item).

Definition layout_remove (widget : option Widget) : M unit :=
  returning tt
    (l <- gets layout ;;
     c <- gets center ;;
     g_return_if_fail "layout_remove" (is_some l && is_some c && is_some widget) ;;
     (* menu may hold pointers to this widget *)
     m <- gets menu ;;
     match m with
     | Some mw => gtk_widget_destroy mw
     | None => ret tt
     end ;;
     node <- g_list_find_custom widget item_by_widget ;;
     g_return_if_fail "layout_remove" (is_some node) ;;
     item <- the node ;;
     item_remove item ;;
     it <- get_item item ;;
     g_return_if_fail "layout_remove"
       (negb (is_some (item_widget it)) && negb (is_some (item_vbox it)) &&
        negb (is_some (item_window it)))).

(** *** The layout file *)

(** What [layout_save] prints for one item. *)
Definition item_record (it : Item) : list ascii :=
  lit "item " ++ item_name it ++ [newline] ++
  lit "pane " ++ format_d (item_dock it) ++ [newline] ++
  lit "x " ++ format_d (item_x it) ++ [newline] ++
  lit "y " ++ format_d (item_y it) ++ [newline] ++
  lit "w " ++ format_d (item_w it) ++ [newline] ++
  lit "h " ++ format_d (item_h it) ++ [newline].

(** The loop of [layout_save] over the nodes from position [node] on;
    [count] nodes are left and [out] is what has been printed. *)
Fixpoint save_loop (count node : nat) (out : list ascii) : M (list ascii) :=
  match count with
  | O => ret out
  | S count' =>
      it <- get_item node ;;
      when (is_some (item_widget it)) (item_save_size node) ;;
      it <- get_item node ;;
      save_loop count' (S node) (out ++ item_record it)
  end.

Definition layout_save : M unit :=
  returning tt
    (writable <- gets user_dir_writable ;;
     g_return_if_fail "layout_save" writable ;;
     modify (with_layout_file (Some [])) ;;
     n <- gets (fun s => length (items s)) ;;
     out <- save_loop n 0 [] ;;
     modify (with_layout_file (Some out))).

(** [parse_key], [parse_value] and the position in the file. *)
Record Parser := mkParser {
  parse_key : list ascii;
  parse_value : option (list ascii);
  handle : list ascii
}.

Definition parse_next (p : Parser) : Parser :=
  match fgets 512 (handle p) with
  | None => mkParser (parse_key p) None (handle p)
  | Some (line, rest) =>
      let key := c_str line in
      match strchr key space with
      | None => mkParser key None rest
      | Some (before, after) =>
          match strchr after newline with
          | Some (value, _) => mkParser before (Some value) rest
          | None => mkParser before (Some after) rest
          end
      end
  end.

Definition parse_integer (p : Parser) (key : list ascii) : option Z :=
  match parse_value p with
  | Some value => if strcmp (parse_key p) key =? 0 then sscanf_d value else None
  | None => None
  end.

Definition parse_string (p : Parser) (key : list ascii) : option (list ascii) :=
  match parse_value p with
  | Some value => if strcmp (parse_key p) key =? 0 then Some value else None
  | None => None
  end.

(** The loop of [layout_load].  Each turn that does not leave the loop has
    read from the file, so that [fuel] above the length of the file is
    never used up. *)
Fixpoint load_loop (fuel : nat) (p : Parser) : M unit :=
  match fuel with
  | O => fun s => (OutOfFuel, s)
  | S fuel' =>
      let p := parse_next p in
      match parse_string p (lit "item") with
      | None => ret tt
      | Some name =>
          item <- item_new name ;;
          let p := parse_next p in
          match parse_integer p (lit "pane") with
          | None => ret tt
          | Some v =>
          set_item item (with_dock v) ;;
          let p := parse_next p in
          match parse_integer p (lit "x") with
          | None => ret tt
          | Some v =>
          set_item item (with_x v) ;;
          let p := parse_next p in
          match parse_integer p (lit "y") with
          | None => ret tt
          | Some v =>
          set_item item (with_y v) ;;
          let p := parse_next p in
          match parse_integer p (lit "w") with
          | None => ret tt
          | Some v =>
          set_item item (with_w v) ;;
          let p := parse_next p in
          match parse_integer p (lit "h") with
          | None => ret tt
          | Some v =>
          set_item item (with_h v) ;;
          load_loop fuel' p
          end end end end end
      end
  end.

Definition layout_load : M unit :=
  returning tt
    (l <- gets items ;;
     g_return_if_fail "layout_load" (bool_decide (l = [])) ;;
     file <- gets layout_file ;;
     match file with
     | None => ret tt
     | Some content => load_loop (S (length content)) (mkParser [] None content)
     end).


End Layout.

(* ===================================================================== *)
(** ** Facts about [gint] arithmetic                                      *)
(* ===================================================================== *)

Lemma wrap_in_range z : Gint.in_range (Gint.wrap z).
Proof.
  unfold Gint.in_range, Gint.wrap, Gint.min_int, Gint.max_int.
  pose proof (Z.mod_pos_bound (z + 2147483648) 4294967296). lia.
Qed.

Lemma wrap_id z : Gint.in_range z -> Gint.wrap z = z.
Proof.
  unfold Gint.in_range, Gint.wrap, Gint.min_int, Gint.max_int. intros H.
  rewrite Z.mod_small; lia.
Qed.

Lemma wrap_wrap z : Gint.wrap (Gint.wrap z) = Gint.wrap z.
Proof. apply wrap_id, wrap_in_range. Qed.

(** Wrapping is a congruence for subtraction. *)
Lemma wrap_sub_wrap a b : Gint.wrap (Gint.wrap a - Gint.wrap b) = Gint.wrap (a - b).
Proof.
  unfold Gint.wrap. f_equal.
  replace ((a + 2147483648) `mod` 4294967296 - 2147483648 -
           ((b + 2147483648) `mod` 4294967296 - 2147483648) + 2147483648)
    with ((a + 2147483648) `mod` 4294967296 -
          (b + 2147483648) `mod` 4294967296 + 2147483648) by lia.
  rewrite Zplus_mod, <- Zminus_mod, <- Zplus_mod. f_equal. lia.
Qed.

(** Machine addition and subtraction are the mathematical ones when the
    exact result is representable. *)
Lemma add_exact a b : Gint.in_range (a + b) -> a +i b = a + b.
Proof. apply wrap_id. Qed.

Lemma sub_exact a b : Gint.in_range (a - b) -> a -i b = a - b.
Proof. apply wrap_id. Qed.

Lemma abs_exact a : Gint.in_range (Z.abs a) -> Gint.abs a = Z.abs a.
Proof. apply wrap_id. Qed.

(** Rewrites machine operations whose exact result is representable into
    the mathematical ones; the side conditions are linear. *)
Ltac gint_range_solve :=
  unfold UiDock.geometry_in_range, UiDock.coord_range, Gint.in_range,
    Gint.min_int, Gint.max_int in *; lia.

Ltac gint_exact :=
  repeat match goal with
         | |- context [Gint.add ?a ?b] => rewrite (add_exact a b) by gint_range_solve
         | |- context [Gint.sub ?a ?b] => rewrite (sub_exact a b) by gint_range_solve
         | |- context [Gint.abs ?a] => rewrite (abs_exact a) by gint_range_solve
         end.

(* ===================================================================== *)
(** ** ui_dock.c: the adjacency predicate                                 *)
(* ===================================================================== *)

Import UiDock.

(** [is_docked] without the machine arithmetic. *)
Lemma is_docked_exact a_x a_y a_w a_h b_x b_y b_w b_h :
  geometry_in_range a_x a_y a_w a_h ->
  geometry_in_range b_x b_y b_w b_h ->
  is_docked a_x a_y a_w a_h b_x b_y b_w b_h = true <->
  ((a_x = b_x + b_w \/ a_x + a_w = b_x) /\ a_y <= b_y + b_h /\ b_y <= a_y + a_h) \/
  ((a_y = b_y + b_h \/ a_y + a_h = b_y) /\ a_x - b_w <= b_x /\ b_x <= a_x + a_w).
Proof.
  intros Ha Hb. unfold is_docked. gint_exact.
  repeat match goal with
         | |- context [?x =? ?y] => destruct (Z.eqb_spec x y)
         | |- context [?x <=? ?y] => destruct (Z.leb_spec x y)
         end; simpl; split; intros; try discriminate; try reflexivity; lia.
Qed.

(** C3.  The edge-adjacency predicate is symmetric: for rectangles A and B
    (of a geometry on which C arithmetic is defined), [is_docked] gives the
    same answer in both call orders. *)
Theorem is_docked_symmetric a_x a_y a_w a_h b_x b_y b_w b_h :
  geometry_in_range a_x a_y a_w a_h ->
  geometry_in_range b_x b_y b_w b_h ->
  is_docked a_x a_y a_w a_h b_x b_y b_w b_h = true <->
  is_docked b_x b_y b_w b_h a_x a_y a_w a_h = true.
Proof.
  intros Ha Hb.
  rewrite (is_docked_exact a_x a_y a_w a_h b_x b_y b_w b_h Ha Hb).
  rewrite (is_docked_exact b_x b_y b_w b_h a_x a_y a_w a_h Hb Ha).
  lia.
Qed.

Lemma is_docked_symmetric_witness :
  (is_docked 0 0 275 116 275 58 275 116 = true <->
   is_docked 275 58 275 116 0 0 275 116 = true) /\
  is_docked 0 0 275 116 275 58 275 116 = true.
Proof.
  split; [ | vm_compute; reflexivity ].
  apply is_docked_symmetric; unfold geometry_in_range, coord_range; lia.
Defined.

(* ===================================================================== *)
(** ** ui_dock.c: the flood fill                                          *)
(* ===================================================================== *)

(** The windows of a list of docked windows. *)
Definition windows_of (dl : list DockedWindow) : list nat := map dw_w dl.

Lemma windows_of_app dl1 dl2 :
  windows_of (dl1 ++ dl2) = windows_of dl1 ++ windows_of dl2.
Proof. apply map_app. Qed.

(** The membership test of the traversal looks at the window only. *)
Lemma find_docked_None dl t :
  g_list_find_custom dl (docked_new t) docked_list_compare = None <->
  t ∉ windows_of dl.
Proof.
  unfold g_list_find_custom, docked_list_compare, windows_of.
  induction dl as [|e dl IH]; simpl.
  - split; [ intros _; apply not_elem_of_nil | reflexivity ].
  - destruct (Nat.eqb_spec (dw_w e) t) as [->|Hne]; simpl.
    + split; [ discriminate | intros H; exfalso; apply H; left ].
    + rewrite IH, not_elem_of_cons. split; [ by intros ? | by intros [_ ?] ].
Qed.

Lemma find_docked_Some dl t e :
  g_list_find_custom dl (docked_new t) docked_list_compare = Some e ->
  t ∈ windows_of dl.
Proof.
  intros H. destruct (decide (t ∈ windows_of dl)) as [|Hn]; [ done | ].
  apply find_docked_None in Hn. congruence.
Qed.

Section FloodFill.

Variable d : Desktop.
Variable wlist : list nat.

(** Every candidate docked to [v] is in [r]. *)
Definition closed_at (r : list DockedWindow) (v : nat) : Prop :=
  forall t, t ∈ wlist -> windows_docked d v t = true -> t ∈ windows_of r.

Lemma closed_at_app r ext v : closed_at r v -> closed_at (r ++ ext) v.
Proof.
  intros H t Ht Hd. rewrite windows_of_app. apply elem_of_app. left. eauto.
Qed.

(** What one run of the loop of [get_docked_list] for the window [w] over
    the candidates [nodes] makes of the list [dl]: it appends windows of
    [wlist] that were not in the list, each once, each with all its docked
    candidates in the result, and every candidate of [nodes] docked to [w]
    is in the result. *)
Definition fill_spec (dl : list DockedWindow) (w : nat) (nodes : list nat)
    (r : list DockedWindow) : Prop :=
  exists ext,
    r = dl ++ ext /\
    NoDup (windows_of ext) /\
    (forall t, t ∈ windows_of ext -> t ∈ wlist /\ t ∉ windows_of dl) /\
    (forall v, v ∈ windows_of ext -> closed_at r v) /\
    (forall t, t ∈ nodes -> windows_docked d w t = true -> t ∈ windows_of r).

Lemma docked_loop_spec rec w ox oy :
  (forall dl t ox' oy' r,
      rec dl t ox' oy' = Some r -> dl <> [] -> fill_spec dl t wlist r) ->
  forall nodes dl r,
    (forall t, t ∈ nodes -> t ∈ wlist) ->
    dl <> [] ->
    docked_loop rec d w ox oy nodes dl = Some r ->
    fill_spec dl w nodes r.
Proof.
  intros Hrec. induction nodes as [|t nodes IH]; intros dl r Hsub Hne Hrun.
  - simpl in Hrun. injection Hrun as <-. exists [].
    rewrite app_nil_r. split; [ done | ]. split; [ constructor | ].
    split; [ | split ]; intros t Ht; inversion Ht.
  - assert (Hsub' : forall t', t' ∈ nodes -> t' ∈ wlist).
    { intros t' Ht'. apply Hsub. by right. }
    assert (Htw : t ∈ wlist) by (apply Hsub; left).
    simpl in Hrun.
    destruct (g_list_find_custom dl (docked_new t) docked_list_compare)
      as [e|] eqn:Hfind.
    + (* already in the list *)
      apply find_docked_Some in Hfind.
      destruct (IH dl r Hsub' Hne Hrun) as (ext & -> & Hnd & Hnew & Hcl & Hw).
      exists ext. repeat split; try done; try (by apply Hnew).
      intros t' Ht' Hd'. apply elem_of_cons in Ht' as [->|Ht'].
      * rewrite windows_of_app. apply elem_of_app. by left.
      * by apply Hw.
    + apply find_docked_None in Hfind.
      pose proof (eq_refl : windows_docked d w t =
                let '(w_x, w_y) := win_pos d w in
                let '(w_width, w_height) := win_size d w in
                let '(t_x, t_y) := win_pos d t in
                let '(t_width, t_height) := win_size d t in
                is_docked w_x w_y w_width w_height t_x t_y t_width t_height)
        as Hdock.
      destruct (win_pos d w) as [w_x w_y], (win_size d w) as [w_width w_height],
               (win_pos d t) as [t_x t_y], (win_size d t) as [t_width t_height].
      destruct (is_docked w_x w_y w_width w_height t_x t_y t_width t_height).
      * (* docked: append and recurse *)
        set (dwin := mkDocked t (t_x -i w_x +i ox) (t_y -i w_y +i oy)) in *.
        destruct (rec (dl ++ [dwin]) t (t_x -i w_x +i ox) (t_y -i w_y +i oy))
          as [r1|] eqn:Hr1; [ | discriminate ].
        assert (Hne1 : dl ++ [dwin] <> []) by (by destruct dl).
        destruct (Hrec _ _ _ _ _ Hr1 Hne1)
          as (ext1 & -> & Hnd1 & Hnew1 & Hcl1 & Hw1).
        assert (Hne2 : (dl ++ [dwin]) ++ ext1 <> []) by (by destruct dl).
        destruct (IH _ r Hsub' Hne2 Hrun) as (ext2 & -> & Hnd2 & Hnew2 & Hcl2 & Hw2).
        exists ([dwin] ++ ext1 ++ ext2). split; [ by rewrite <- !app_assoc | ].
        split; [ | split; [ | split ] ].
        -- rewrite !windows_of_app. simpl.
           apply NoDup_cons. split.
           ++ intros Hin. apply elem_of_app in Hin as [Hin|Hin].
              ** apply Hnew1 in Hin as [_ Hin]. apply Hin.
                 rewrite windows_of_app. apply elem_of_app. right. simpl. left.
              ** apply Hnew2 in Hin as [_ Hin]. apply Hin.
                 rewrite !windows_of_app. apply elem_of_app. left.
                 apply elem_of_app. right. simpl. left.
           ++ apply NoDup_app. split; [ done | split; [ | done ] ].
              intros x Hx1 Hx2. apply Hnew2 in Hx2 as [_ Hx2]. apply Hx2.
              rewrite windows_of_app. apply elem_of_app. by right.
        -- intros x Hx. rewrite !windows_of_app in Hx. simpl in Hx.
           apply elem_of_cons in Hx as [->|Hx]; [ done | ].
           apply elem_of_app in Hx as [Hx|Hx].
           ++ apply Hnew1 in Hx as [Hx1 Hx2]. split; [ done | ].
              intros Hc. apply Hx2. rewrite windows_of_app. apply elem_of_app. by left.
           ++ apply Hnew2 in Hx as [Hx1 Hx2]. split; [ done | ].
              intros Hc. apply Hx2. rewrite !windows_of_app.
              apply elem_of_app. left. apply elem_of_app. by left.
        -- intros v Hv. rewrite !windows_of_app in Hv. simpl in Hv.
           apply elem_of_cons in Hv as [->|Hv].
           ++ apply closed_at_app. intros t' Ht' Hd'. by apply Hw1.
           ++ apply elem_of_app in Hv as [Hv|Hv].
              ** apply closed_at_app. by apply Hcl1.
              ** by apply Hcl2.
        -- intros t' Ht' Hd'. apply elem_of_cons in Ht' as [->|Ht'].
           ++ rewrite !windows_of_app. apply elem_of_app. left.
              apply elem_of_app. left. apply elem_of_app. right. simpl. left.
           ++ by apply Hw2.
      * (* not docked *)
        destruct (IH dl r Hsub' Hne Hrun) as (ext & -> & Hnd & Hnew & Hcl & Hw).
        exists ext. repeat split; try done; try (by apply Hnew).
        intros t' Ht' Hd'. apply elem_of_cons in Ht' as [->|Ht'].
        -- congruence.
        -- by apply Hw.
Qed.

(** The list the traversal starts from. *)
Definition start_list (dl : list DockedWindow) (w : nat) : list DockedWindow :=
  match dl with [] => [docked_new w] | _ => dl end.

Lemma start_list_nonempty dl w : start_list dl w <> [].
Proof. by destruct dl. Qed.

Lemma get_docked_list_spec fuel :
  forall dl w ox oy r,
    get_docked_list fuel d dl wlist w ox oy = Some r ->
    fill_spec (start_list dl w) w wlist r.
Proof.
  induction fuel as [|fuel IH]; intros dl w ox oy r Hrun; [ discriminate | ].
  simpl in Hrun. fold (start_list dl w) in Hrun.
  eapply docked_loop_spec; [ | | apply start_list_nonempty | exact Hrun ].
  - intros dl' t ox' oy' r' Hr' Hne'. apply IH in Hr'.
    by destruct dl'.
  - done.
Qed.

End FloodFill.

(** *** Termination *)

Section FloodFillTermination.

Variable d : Desktop.
Variable wlist : list nat.

(** The candidates that are not in the list yet: the measure that bounds
    the depth of the recursion. *)
Definition pending_in (l : list nat) (dl : list DockedWindow) : nat :=
  length (filter (fun t => t ∉ windows_of dl) l).

Definition pending (dl : list DockedWindow) : nat := pending_in wlist dl.

Lemma pending_in_le l dl dl' :
  (forall t, t ∈ windows_of dl -> t ∈ windows_of dl') ->
  (pending_in l dl' <= pending_in l dl)%nat.
Proof.
  intros Hsub. unfold pending_in. induction l as [|t l IH]; [ done | ].
  rewrite !filter_cons.
  destruct (decide (t ∉ windows_of dl')) as [Hn'|Hy'];
    destruct (decide (t ∉ windows_of dl)) as [Hn|Hy]; simpl; try lia.
  exfalso. apply Hn'. apply Hsub. by apply dec_stable.
Qed.

Lemma pending_in_lt l dl dl' t0 :
  (forall t, t ∈ windows_of dl -> t ∈ windows_of dl') ->
  t0 ∈ l -> t0 ∉ windows_of dl -> t0 ∈ windows_of dl' ->
  (pending_in l dl' < pending_in l dl)%nat.
Proof.
  intros Hsub Hin Hn0 Hy0. induction l as [|t l IH]; [ inversion Hin | ].
  pose proof (pending_in_le l dl dl' Hsub) as Hle.
  unfold pending_in in *. rewrite !filter_cons.
  apply elem_of_cons in Hin as [<-|Hin].
  - rewrite decide_False by (by intros Hc).
    rewrite decide_True by done. simpl. lia.
  - specialize (IH Hin).
    destruct (decide (t ∉ windows_of dl')) as [Hn'|Hy'];
      destruct (decide (t ∉ windows_of dl)) as [Hn|Hy]; simpl; try lia.
    exfalso. apply Hn'. apply Hsub. by apply dec_stable.
Qed.

Lemma pending_bound dl : (pending dl <= length wlist)%nat.
Proof. unfold pending, pending_in. apply length_filter. Qed.

Lemma docked_loop_terminates fuel :
  (forall dl w ox oy,
      (pending (start_list dl w) < fuel)%nat ->
      exists r, get_docked_list fuel d dl wlist w ox oy = Some r) ->
  forall nodes dl w ox oy,
    (forall t, t ∈ nodes -> t ∈ wlist) ->
    dl <> [] ->
    (pending dl <= fuel)%nat ->
    exists r,
      docked_loop (fun dl t ox oy => get_docked_list fuel d dl wlist t ox oy)
        d w ox oy nodes dl = Some r.
Proof.
  intros Hrec. induction nodes as [|t nodes IH]; intros dl w ox oy Hsub Hne Hfuel.
  - by eexists.
  - assert (Hsub' : forall t', t' ∈ nodes -> t' ∈ wlist).
    { intros t' Ht'. apply Hsub. by right. }
    assert (Htw : t ∈ wlist) by (apply Hsub; left).
    simpl.
    destruct (g_list_find_custom dl (docked_new t) docked_list_compare)
      as [e|] eqn:Hfind; [ by apply IH | ].
    apply find_docked_None in Hfind.
    destruct (win_pos d w) as [w_x w_y], (win_size d w) as [w_width w_height],
             (win_pos d t) as [t_x t_y], (win_size d t) as [t_width t_height].
    destruct (is_docked w_x w_y w_width w_height t_x t_y t_width t_height);
      [ | by apply IH ].
    set (dwin := mkDocked t (t_x -i w_x +i ox) (t_y -i w_y +i oy)).
    assert (Hlt : (pending (dl ++ [dwin]) < pending dl)%nat).
    { apply pending_in_lt with (t0 := t); try done.
      - intros x Hx. rewrite windows_of_app. apply elem_of_app. by left.
      - rewrite windows_of_app. apply elem_of_app. right. simpl. left. }
    destruct (Hrec (dl ++ [dwin]) t (t_x -i w_x +i ox) (t_y -i w_y +i oy))
      as [r1 Hr1].
    { replace (start_list (dl ++ [dwin]) t) with (dl ++ [dwin])
        by (by destruct dl). lia. }
    rewrite Hr1.
    apply get_docked_list_spec in Hr1 as (ext1 & -> & _).
    replace (start_list (dl ++ [dwin]) t) with (dl ++ [dwin]) by (by destruct dl).
    apply IH; [ done | by destruct dl | ].
    etrans; [ | exact Hfuel ].
    apply pending_in_le. intros x Hx. rewrite !windows_of_app.
    apply elem_of_app. left. apply elem_of_app. by left.
Qed.

Lemma get_docked_list_terminates fuel :
  forall dl w ox oy,
    (pending (start_list dl w) < fuel)%nat ->
    exists r, get_docked_list fuel d dl wlist w ox oy = Some r.
Proof.
  induction fuel as [|fuel IH]; intros dl w ox oy Hfuel; [ lia | ].
  simpl. fold (start_list dl w).
  apply docked_loop_terminates; [ exact IH | done | apply start_list_nonempty | lia ].
Qed.

End FloodFillTermination.

(** C5.  For every finite candidate list, whatever the geometry of its
    windows (cycles of adjacency included), [get_docked_list] started as
    [dock_move_press] starts it returns a list, and no window appears in
    that list more than once: membership goes by the window's identity. *)
Theorem get_docked_list_terminates_nodup (d : Desktop) (wlist : list nat) (w : nat) :
  exists r,
    get_docked_list (docked_fuel wlist) d [] wlist w 0 0 = Some r /\
    NoDup (windows_of r).
Proof.
  destruct (get_docked_list_terminates d wlist (docked_fuel wlist) [] w 0 0)
    as [r Hr].
  { pose proof (pending_bound wlist (start_list [] w)). unfold docked_fuel. lia. }
  exists r. split; [ done | ].
  apply get_docked_list_spec in Hr as (ext & -> & Hnd & Hnew & _).
  simpl. apply NoDup_cons. split; [ | done ].
  intros Hin. apply Hnew in Hin as [_ Hin]. apply Hin. simpl. left.
Qed.

(** *** Offsets and reachability *)

Lemma windows_docked_exact d a b :
  window_in_range d a -> window_in_range d b ->
  windows_docked d a b = true <->
  let '(a_x, a_y) := win_pos d a in
  let '(a_w, a_h) := win_size d a in
  let '(b_x, b_y) := win_pos d b in
  let '(b_w, b_h) := win_size d b in
  ((a_x = b_x + b_w \/ a_x + a_w = b_x) /\ a_y <= b_y + b_h /\ b_y <= a_y + a_h) \/
  ((a_y = b_y + b_h \/ a_y + a_h = b_y) /\ a_x - b_w <= b_x /\ b_x <= a_x + a_w).
Proof.
  unfold window_in_range, windows_docked.
  destruct (win_pos d a), (win_size d a), (win_pos d b), (win_size d b); simpl.
  apply is_docked_exact.
Qed.

Lemma windows_docked_sym d a b :
  window_in_range d a -> window_in_range d b ->
  windows_docked d a b = true -> windows_docked d b a = true.
Proof.
  intros Ha Hb. rewrite (windows_docked_exact d a b Ha Hb).
  rewrite (windows_docked_exact d b a Hb Ha).
  destruct (win_pos d a), (win_size d a), (win_pos d b), (win_size d b). lia.
Qed.

Section FloodFillOffsets.

Variable d : Desktop.
Variable wlist : list nat.
(** The window the drag started from. *)
Variable s : nat.

Hypothesis wlist_in_range : forall t, t ∈ wlist -> window_in_range d t.
Hypothesis start_in_range : window_in_range d s.

(** The offset of a docked window is its position relative to [s]. *)
Definition offset_ok (e : DockedWindow) : Prop :=
  offset_x e = (win_pos d (dw_w e)).1 - (win_pos d s).1 /\
  offset_y e = (win_pos d (dw_w e)).2 - (win_pos d s).2.

Definition offset_of (w : nat) (ox oy : Z) : Prop :=
  ox = (win_pos d w).1 - (win_pos d s).1 /\
  oy = (win_pos d w).2 - (win_pos d s).2.

Lemma docked_loop_offsets rec w ox oy :
  (forall dl t ox' oy' r,
      rec dl t ox' oy' = Some r -> t ∈ wlist -> offset_of t ox' oy' ->
      dl <> [] -> Forall offset_ok dl -> Forall offset_ok r) ->
  window_in_range d w -> offset_of w ox oy ->
  forall nodes dl r,
    (forall t, t ∈ nodes -> t ∈ wlist) ->
    Forall offset_ok dl ->
    docked_loop rec d w ox oy nodes dl = Some r ->
    Forall offset_ok r.
Proof.
  intros Hrec Hw [Hox Hoy].
  induction nodes as [|t nodes IH]; intros dl r Hsub Hdl Hrun; simpl in Hrun.
  - by injection Hrun as <-.
  - assert (Hsub' : forall t', t' ∈ nodes -> t' ∈ wlist).
    { intros t' Ht'. apply Hsub. by right. }
    assert (Htw : t ∈ wlist) by (apply Hsub; left).
    destruct (g_list_find_custom dl (docked_new t) docked_list_compare);
      [ by eapply IH | ].
    pose proof (wlist_in_range t Htw) as Ht.
    pose proof start_in_range as Hs.
    unfold window_in_range in Hw, Ht, Hs.
    destruct (win_pos d w) as [w_x w_y] eqn:Epw,
             (win_size d w) as [w_width w_height],
             (win_pos d t) as [t_x t_y] eqn:Ept,
             (win_size d t) as [t_width t_height].
    destruct (win_pos d s) as [s_x s_y] eqn:Eps, (win_size d s) as [s_w s_h].
    simpl in *.
    destruct (is_docked w_x w_y w_width w_height t_x t_y t_width t_height);
      [ | by eapply IH ].
    destruct (rec (dl ++ [mkDocked t (t_x -i w_x +i ox) (t_y -i w_y +i oy)]) t
                (t_x -i w_x +i ox) (t_y -i w_y +i oy)) as [r1|] eqn:Hr1;
      [ | discriminate ].
    assert (Hxo : t_x -i w_x +i ox = t_x - s_x) by (subst ox; gint_exact; lia).
    assert (Hyo : t_y -i w_y +i oy = t_y - s_y) by (subst oy; gint_exact; lia).
    apply (IH r1 r Hsub'); [ | done ].
    eapply Hrec; [ exact Hr1 | done | | by destruct dl | ].
    + unfold offset_of. rewrite Ept, Eps. simpl. done.
    + apply Forall_app. split; [ done | ].
      apply Forall_singleton. unfold offset_ok. simpl.
      rewrite Ept, Eps. simpl. done.
Qed.

Lemma get_docked_list_offsets fuel :
  forall dl w ox oy r,
    get_docked_list fuel d dl wlist w ox oy = Some r ->
    window_in_range d w -> offset_of w ox oy ->
    Forall offset_ok (start_list dl w) ->
    Forall offset_ok r.
Proof.
  induction fuel as [|fuel IH]; intros dl w ox oy r Hrun Hw Hoff Hdl;
    [ discriminate | ].
  simpl in Hrun. fold (start_list dl w) in Hrun.
  eapply docked_loop_offsets; [ | exact Hw | exact Hoff | | exact Hdl | exact Hrun ].
  - intros dl' t ox' oy' r' Hr' Ht Hoff' Hne' Hdl'.
    eapply IH; [ exact Hr' | by apply wlist_in_range | done | ].
    by destruct dl'.
  - done.
Qed.

End FloodFillOffsets.

(** A chain: each window is docked to the next. *)
Definition docked_chain (d : Desktop) (chain : list nat) : Prop :=
  forall i a b,
    chain !! i = Some a -> chain !! S i = Some b -> windows_docked d a b = true.

(** A list that holds every candidate docked to one of its windows holds
    a whole chain as soon as it holds one window of it. *)
Lemma closed_chain d wlist r chain :
  (forall t, t ∈ wlist -> window_in_range d t) ->
  (forall t, t ∈ chain -> t ∈ wlist) ->
  docked_chain d chain ->
  (forall v, v ∈ windows_of r -> closed_at d wlist r v) ->
  forall n i a,
    chain !! i = Some a -> a ∈ windows_of r ->
    (forall b, chain !! (i + n)%nat = Some b -> b ∈ windows_of r) /\
    (forall b, (n <= i)%nat -> chain !! (i - n)%nat = Some b -> b ∈ windows_of r).
Proof.
  intros Hrange Hsub Hchain Hclosed.
  induction n as [|n IH]; intros i a Hi Ha.
  - rewrite Nat.add_0_r, Nat.sub_0_r. split; intros b; [ | intros _ ];
      intros Hb; congruence.
  - destruct (IH i a Hi Ha) as [IHup IHdown]. split.
    + intros b Hb.
      destruct (chain !! (i + n)%nat) as [c|] eqn:Hc.
      * specialize (IHup c eq_refl).
        replace (i + S n)%nat with (S (i + n)) in Hb by lia.
        apply (Hclosed c IHup b).
        -- apply Hsub. by eapply list_elem_of_lookup_2.
        -- by eapply Hchain.
      * apply lookup_ge_None in Hc. apply lookup_lt_Some in Hb. lia.
    + intros b Hle Hb.
      destruct (chain !! (i - n)%nat) as [c|] eqn:Hc.
      * specialize (IHdown c ltac:(lia) eq_refl).
        assert (Hbc : windows_docked d b c = true).
        { apply (Hchain (i - S n)%nat); [ done | ].
          replace (S (i - S n)) with (i - n)%nat by lia. done. }
        assert (Hbw : b ∈ wlist) by (apply Hsub; by eapply list_elem_of_lookup_2).
        assert (Hcw : c ∈ wlist) by (apply Hsub; by eapply list_elem_of_lookup_2).
        apply (Hclosed c IHdown b Hbw).
        apply windows_docked_sym; auto.
      * apply lookup_ge_None in Hc. apply lookup_lt_Some in Hi. lia.
Qed.

(** C4.  For a chain of candidate windows in which each is docked to the
    next, [get_docked_list] started from any window [s] of the chain
    returns a list holding every window of the chain, each with its
    position relative to [s] as offset. *)
Theorem get_docked_list_chain (d : Desktop) (wlist chain : list nat) (s : nat) :
  (forall t, t ∈ wlist -> window_in_range d t) ->
  (forall t, t ∈ chain -> t ∈ wlist) ->
  docked_chain d chain ->
  s ∈ chain ->
  exists r,
    get_docked_list (docked_fuel wlist) d [] wlist s 0 0 = Some r /\
    forall t, t ∈ chain ->
      exists e, e ∈ r /\ dw_w e = t /\
                offset_x e = (win_pos d t).1 - (win_pos d s).1 /\
                offset_y e = (win_pos d t).2 - (win_pos d s).2.
Proof.
  intros Hrange Hsub Hchain Hs.
  destruct (get_docked_list_terminates d wlist (docked_fuel wlist) [] s 0 0)
    as [r Hr].
  { pose proof (pending_bound wlist (start_list [] s)). unfold docked_fuel. lia. }
  exists r. split; [ done | ].
  assert (Hoff : Forall (offset_ok d s) r).
  { assert (Hsr : window_in_range d s) by auto.
    eapply (get_docked_list_offsets d wlist s Hrange Hsr); [ exact Hr | done | | ].
    - split; lia.
    - apply Forall_singleton. split; simpl; lia. }
  apply get_docked_list_spec in Hr as (ext & Hr & Hnd & Hnew & Hcl & Hw).
  simpl in Hr.
  assert (Hclosed : forall v, v ∈ windows_of r -> closed_at d wlist r v).
  { intros v Hv. rewrite Hr in Hv. simpl in Hv.
    apply elem_of_cons in Hv as [->|Hv]; [ | by apply Hcl ].
    intros t Ht Hd. by apply Hw. }
  assert (Hsr : s ∈ windows_of r) by (rewrite Hr; simpl; left).
  intros t Ht.
  assert (Htr : t ∈ windows_of r).
  { apply list_elem_of_lookup in Hs as [i Hi].
    apply list_elem_of_lookup in Ht as [j Hj].
    destruct (le_lt_dec i j) as [Hij|Hij].
    - destruct (closed_chain d wlist r chain Hrange Hsub Hchain Hclosed
                  (j - i)%nat i s Hi Hsr) as [Hup _].
      apply Hup. by replace (i + (j - i))%nat with j by lia.
    - destruct (closed_chain d wlist r chain Hrange Hsub Hchain Hclosed
                  (i - j)%nat i s Hi Hsr) as [_ Hdown].
      apply Hdown; [ lia | ]. by replace (i - (i - j))%nat with j by lia. }
  unfold windows_of in Htr. apply list_elem_of_fmap in Htr as (e & -> & He).
  exists e. split; [ done | split; [ done | ] ].
  rewrite Forall_forall in Hoff. by apply Hoff.
Qed.

(** Three windows stacked as the player, the equalizer and the playlist
    usually are; window 3 stands apart. *)
Definition stacked_desktop : Desktop :=
  mkDesktop
    (fun w => match w with
              | O => (100, 100)
              | 1%nat => (100, 216)
              | 2%nat => (100, 332)
              | _ => (600, 50)
              end)
    (fun _ => (275, 116))
    1280 1024.

Example get_docked_list_stacked :
  get_docked_list (docked_fuel [0; 1; 2; 3]%nat) stacked_desktop []
    [0; 1; 2; 3]%nat 1%nat 0 0
  = Some [mkDocked 1 0 0; mkDocked 0 0 (-116); mkDocked 2 0 116].
Proof. vm_compute. reflexivity. Qed.

Lemma get_docked_list_chain_witness :
  exists r,
    get_docked_list (docked_fuel [0; 1; 2; 3]%nat) stacked_desktop []
      [0; 1; 2; 3]%nat 1%nat 0 0 = Some r /\
    forall t, t ∈ [0; 1; 2]%nat ->
      exists e, e ∈ r /\ dw_w e = t /\
                offset_x e = (win_pos stacked_desktop t).1 - (win_pos stacked_desktop 1%nat).1 /\
                offset_y e = (win_pos stacked_desktop t).2 - (win_pos stacked_desktop 1%nat).2.
Proof.
  apply (get_docked_list_chain stacked_desktop [0; 1; 2; 3]%nat [0; 1; 2]%nat 1%nat).
  - intros t _. unfold window_in_range, geometry_in_range, coord_range.
    destruct t as [|[|[|t]]]; simpl; lia.
  - intros t Ht. apply list_elem_of_In. apply list_elem_of_In in Ht.
    simpl in *. tauto.
  - intros i a b Ha Hb.
    destruct i as [|[|[|i]]]; simpl in Ha, Hb; try discriminate;
      injection Ha as <-; injection Hb as <-; vm_compute; reflexivity.
  - apply list_elem_of_In. simpl. tauto.
Defined.

(* ===================================================================== *)
(** ** ui_dock.c: dragging                                                *)
(* ===================================================================== *)

Lemma get_set_data_eq s w key p :
  g_object_get_data (g_object_set_data s w key p) w key = p.
Proof.
  unfold g_object_get_data, g_object_set_data. destruct p; simpl.
  - apply lookup_insert_eq.
  - apply lookup_delete_eq.
Qed.

Lemma get_set_data_ne s w key w' key' p :
  (w, key) <> (w', key') ->
  g_object_get_data (g_object_set_data s w key p) w' key' =
  g_object_get_data s w' key'.
Proof.
  intros Hne. unfold g_object_get_data, g_object_set_data. destruct p; simpl.
  - by apply lookup_insert_ne.
  - by apply lookup_delete_ne.
Qed.

Lemma get_data_present s w w' key :
  g_object_get_data (gtk_window_present s w) w' key = g_object_get_data s w' key.
Proof. reflexivity. Qed.

Lemma GPOINTER_TO_INT_of_int z : GPOINTER_TO_INT (GINT_TO_POINTER z) = z.
Proof.
  unfold GINT_TO_POINTER. destruct (Z.eqb_spec z 0) as [->|]; reflexivity.
Qed.

Lemma pointer_docked_list_of_list l :
  pointer_docked_list (docked_list_pointer l) = l.
Proof. by destruct l. Qed.

Lemma pointer_window_list_of_list l :
  pointer_window_list (window_list_pointer l) = l.
Proof. by destruct l. Qed.

(** Reads the drag state back after a sequence of [g_object_set_data]. *)
Ltac drag_data :=
  repeat first
    [ rewrite get_set_data_eq
    | rewrite get_set_data_ne by (intros [=])
    | rewrite get_data_present ].

(** The drag state of a window: what the five keys hold. *)
Definition drag_state (s : World) (w : nat)
    : Z * Z * list DockedWindow * list nat * bool :=
  (GPOINTER_TO_INT (g_object_get_data s w "move_offset_x"),
   GPOINTER_TO_INT (g_object_get_data s w "move_offset_y"),
   pointer_docked_list (g_object_get_data s w "docked_list"),
   pointer_window_list (g_object_get_data s w "window_list"),
   dock_is_moving s w).

(** What a button press makes of the drag state. *)
Lemma dock_move_press_state s window_list w event move_list :
  show_wm_decorations (config s) = false ->
  drag_state (dock_move_press s window_list w event move_list) w =
  (ev_x event, ev_y event,
   if move_list
   then default [] (get_docked_list (docked_fuel window_list) (desktop s) []
                      window_list w 0 0)
   else [docked_new w],
   window_list, true).
Proof.
  intros Hdec. unfold drag_state, dock_move_press, dock_is_moving.
  rewrite Hdec.
  destruct move_list; drag_data;
    rewrite !GPOINTER_TO_INT_of_int, ?pointer_docked_list_of_list,
      pointer_window_list_of_list; reflexivity.
Qed.

(** A world with the three stacked windows and nothing being dragged. *)
Definition idle_world : World :=
  mkWorld stacked_desktop
    (mkConfig 10 true false 100 100 100 216 100 332)
    (fun w => match w with
              | O => WINDOW_MAIN
              | 1%nat => WINDOW_EQ
              | 2%nat => WINDOW_PLAYLIST
              | _ => WINDOW_OTHER
              end)
    (win_pos stacked_desktop)
    ∅ [].

(** The world after a press on the player window at (20, 7) with the whole
    docked group, and after a second press on it at (30, 9) alone. *)
Definition pressed_once : World :=
  dock_move_press idle_world [0; 1; 2; 3]%nat 0%nat (mkButton 20 7) true.
Definition pressed_twice : World :=
  dock_move_press pressed_once [0; 1; 2; 3]%nat 0%nat (mkButton 30 9) false.

(** C8, as stated, fails: a press on a window whose "is_moving" marker is
    set starts a new drag all the same, and replaces the stored offsets
    and the stored docked list. *)
Lemma dock_move_press_restarts_active_drag :
  dock_is_moving pressed_once 0%nat = true /\
  drag_state pressed_once 0%nat =
    (20, 7, [mkDocked 0 0 0; mkDocked 1 0 116; mkDocked 2 0 232],
     [0; 1; 2; 3]%nat, true) /\
  drag_state pressed_twice 0%nat =
    (30, 9, [mkDocked 0 0 0], [0; 1; 2; 3]%nat, true) /\
  drag_state pressed_twice 0%nat <> drag_state pressed_once 0%nat.
Proof.
  assert (H1 : drag_state pressed_once 0%nat =
    (20, 7, [mkDocked 0 0 0; mkDocked 1 0 116; mkDocked 2 0 232],
     [0; 1; 2; 3]%nat, true)).
  { unfold pressed_once. by rewrite dock_move_press_state. }
  assert (H2 : drag_state pressed_twice 0%nat =
    (30, 9, [mkDocked 0 0 0], [0; 1; 2; 3]%nat, true)).
  { unfold pressed_twice. rewrite dock_move_press_state; [ done | ].
    reflexivity. }
  split; [ | split; [ done | split; [ done | ] ] ].
  - vm_compute. reflexivity.
  - rewrite H1, H2. discriminate.
Qed.

(** C8, amended.  [dock_move_press] does not look at the "is_moving"
    marker.  With window-manager decorations shown it does nothing; without
    them it starts a drag whatever the marker says: the stored grab
    offsets, docked list and window list are those of this press and the
    marker is set.  The marker is read by [dock_is_moving] (and by
    [dock_move_motion]) only. *)
Theorem dock_move_press_ignores_marker s window_list w event move_list :
  let s' := dock_move_press s window_list w event move_list in
  if show_wm_decorations (config s) then s' = s
  else
    drag_state s' w =
      (ev_x event, ev_y event,
       if move_list
       then default [] (get_docked_list (docked_fuel window_list) (desktop s) []
                          window_list w 0 0)
       else [docked_new w],
       window_list, true) /\
    calls s' = calls s ++ [Window_present w].
Proof.
  simpl. destruct (show_wm_decorations (config s)) eqn:Hdec.
  - unfold dock_move_press. by rewrite Hdec.
  - split; [ by apply dock_move_press_state | ].
    unfold dock_move_press. rewrite Hdec. by destruct move_list.
Qed.

(** *** Moving the captured windows *)

Lemma docked_list_move_calls x y :
  forall list s,
    calls (docked_list_move s list x y) =
    calls s ++ map (fun dw => Window_move (dw_w dw) (x +i offset_x dw)
                                (y +i offset_y dw)) list.
Proof.
  unfold docked_list_move.
  induction list as [|dw list IH]; intros s; simpl.
  - by rewrite app_nil_r.
  - rewrite IH.
    assert (Hone : calls (docked_move_one x y s dw) =
                   calls s ++ [Window_move (dw_w dw) (x +i offset_x dw)
                                 (y +i offset_y dw)]).
    { unfold docked_move_one. by destruct (skinned_type _ (dw_w dw)). }
    rewrite Hone. by rewrite <- app_assoc.
Qed.

Lemma docked_move_one_pos x y s dw w :
  win_pos (desktop (docked_move_one x y s dw)) w =
  if decide (dw_w dw = w) then (x +i offset_x dw, y +i offset_y dw)
  else win_pos (desktop s) w.
Proof.
  unfold docked_move_one. destruct (skinned_type _ (dw_w dw)); simpl;
    unfold insert, fn_insert; by destruct (decide (dw_w dw = w)).
Qed.

Lemma docked_list_move_pos_other x y w :
  forall list s,
    w ∉ windows_of list ->
    win_pos (desktop (docked_list_move s list x y)) w = win_pos (desktop s) w.
Proof.
  unfold docked_list_move.
  induction list as [|dw list IH]; intros s Hn; simpl; [ done | ].
  simpl in Hn. apply not_elem_of_cons in Hn as [Hne Hn].
  rewrite IH by done. rewrite docked_move_one_pos.
  by rewrite decide_False by done.
Qed.

Lemma docked_list_move_pos x y :
  forall list s dw,
    NoDup (windows_of list) -> dw ∈ list ->
    win_pos (desktop (docked_list_move s list x y)) (dw_w dw) =
    (x +i offset_x dw, y +i offset_y dw).
Proof.
  induction list as [|dw0 list IH]; intros s dw Hnd Hin; [ inversion Hin | ].
  simpl in Hnd. apply NoDup_cons in Hnd as [Hn0 Hnd].
  apply elem_of_cons in Hin as [->|Hin].
  - change (docked_list_move s (dw0 :: list) x y)
      with (docked_list_move (docked_move_one x y s dw0) list x y).
    rewrite docked_list_move_pos_other by done.
    rewrite docked_move_one_pos. by rewrite decide_True.
  - change (docked_list_move s (dw0 :: list) x y)
      with (docked_list_move (docked_move_one x y s dw0) list x y).
    by apply IH.
Qed.

(** The base position [dock_move_motion] computes: the pointer minus the
    grab offset, plus the snap correction. *)
Definition motion_base (s : World) (w : nat) (event : GdkEventMotion) : Z * Z :=
  let x := gint_of_double
             (ev_x_root event -
              inject_Z (GPOINTER_TO_INT (g_object_get_data s w "move_offset_x")))%Q in
  let y := gint_of_double
             (ev_y_root event -
              inject_Z (GPOINTER_TO_INT (g_object_get_data s w "move_offset_y")))%Q in
  let off :=
    calc_snap_offset (config s) (desktop s)
      (pointer_docked_list (g_object_get_data s w "docked_list"))
      (pointer_window_list (g_object_get_data s w "window_list")) x y in
  (x +i off.1, y +i off.2).

(** C7.  During a drag, [dock_move_motion] moves every window of the
    captured list to the one corrected base position plus that window's
    capture-time offset: these are exactly the move calls it issues, each
    captured window ends there, and the distance between any two captured
    windows is the difference of their offsets. *)
Theorem dock_move_motion_keeps_offsets s w event :
  dock_is_moving s w = true ->
  let dlist := pointer_docked_list (g_object_get_data s w "docked_list") in
  let '(bx, by_) := motion_base s w event in
  let s' := dock_move_motion s w event in
  calls s' =
    calls s ++ map (fun dw => Window_move (dw_w dw) (bx +i offset_x dw)
                                (by_ +i offset_y dw)) dlist /\
  (NoDup (windows_of dlist) ->
   forall dw, dw ∈ dlist ->
     win_pos (desktop s') (dw_w dw) = (bx +i offset_x dw, by_ +i offset_y dw)) /\
  (forall dw1 dw2, dw1 ∈ dlist -> dw2 ∈ dlist ->
     (bx +i offset_x dw1) -i (bx +i offset_x dw2) = offset_x dw1 -i offset_x dw2 /\
     (by_ +i offset_y dw1) -i (by_ +i offset_y dw2) = offset_y dw1 -i offset_y dw2).
Proof.
  intros Hmoving dlist. unfold motion_base, dock_move_motion.
  unfold dock_is_moving in Hmoving.
  destruct (g_object_get_data s w "is_moving"); [ | discriminate ].
  fold dlist.
  destruct (calc_snap_offset _ _ dlist _ _ _) as [off_x off_y]. simpl.
  split; [ apply docked_list_move_calls | ].
  split; [ intros Hnd dw Hdw; by apply docked_list_move_pos | ].
  intros dw1 dw2 _ _. unfold Gint.add, Gint.sub.
  split; rewrite wrap_sub_wrap; f_equal; lia.
Qed.

Lemma dock_move_motion_keeps_offsets_witness :
  dock_is_moving pressed_once 0%nat = true /\
  calls (dock_move_motion pressed_once 0%nat (mkMotion 300%Q 200%Q)) =
    [Window_present 0; Window_move 0 280 193; Window_move 1 280 309;
     Window_move 2 280 425].
Proof.
  assert (Hmoving : dock_is_moving pressed_once 0%nat = true)
    by (vm_compute; reflexivity).
  split; [ exact Hmoving | ].
  pose proof (dock_move_motion_keeps_offsets pressed_once 0%nat
                (mkMotion 300%Q 200%Q) Hmoving) as H.
  cbv zeta in H.
  destruct (motion_base pressed_once 0%nat (mkMotion 300%Q 200%Q)) eqn:E.
  destruct H as [H _]. rewrite H.
  vm_compute in E. injection E as <- <-. vm_compute. reflexivity.
Defined.

(* ===================================================================== *)
(** ** ui_dock.c: snapping                                                *)
(* ===================================================================== *)

(** The coordinate [a] is within the tolerance [sd] of [b]: the test the
    code writes as [a > b - sd && a < b + sd] (or [abs (a - b) < sd]). *)
Definition near (sd a b : Z) : Prop := b - sd < a /\ a < b + sd.

(** The span from [p] of length [n] comes within [sd] of the span from [s]
    of length [m]. *)
Definition reach (sd p n s m : Z) : Prop := s - n - sd < p /\ p < s + m + sd.

Lemma near_abs sd a b : near sd a b <-> Z.abs (a - b) < sd.
Proof. unfold near. lia. Qed.

(** The alignment of the cross coordinate that [snap_edge] performs once
    an edge has been snapped: [y] lines up with the start of the other span
    when within tolerance of it, and then the end of the moved span with
    the end of the other when within tolerance of it. *)
Definition cross_rel (sd h by_ bh y y' : Z) : Prop :=
  exists ya,
    (near sd y by_ /\ ya = by_ \/ ~ near sd y by_ /\ ya = y) /\
    (near sd (ya + h) (by_ + bh) /\ y' = by_ + bh - h \/
     ~ near sd (ya + h) (by_ + bh) /\ y' = ya).

(** One of the two blocks of [snap_edge]: when the edge at [e] of the
    moved span is within tolerance of [target] and the cross spans are in
    reach, the moved span is put at [x'] and the cross coordinate aligned;
    otherwise nothing changes. *)
Definition edge_rel (sd e target x' h by_ bh x y x1 y1 : Z) : Prop :=
  (near sd e target /\ reach sd y h by_ bh /\ x1 = x' /\ cross_rel sd h by_ bh y y1) \/
  (~ (near sd e target /\ reach sd y h by_ bh) /\ x1 = x /\ y1 = y).

Lemma ltb_and_near sd a b :
  (b - sd <? a) && (a <? b + sd) = true <-> near sd a b.
Proof. unfold near. rewrite andb_true_iff, !Z.ltb_lt. done. Qed.

Lemma ltb_and_near_false sd a b :
  (b - sd <? a) && (a <? b + sd) = false <-> ~ near sd a b.
Proof. rewrite <- ltb_and_near. by destruct ((b - sd <? a) && (a <? b + sd)). Qed.

Section SnapEdge.

Variables sd h by_ bh : Z.

Hypothesis sd_range : coord_range sd.
Hypothesis h_range : coord_range h.
Hypothesis by_range : coord_range by_.
Hypothesis bh_range : coord_range bh.

Lemma cross_snap_rel y :
  Gint.in_range y -> Gint.in_range (y + h) ->
  cross_rel sd h by_ bh y
    (let y := if (by_ -i sd <? y) && (y <? by_ +i sd) then by_ else y in
     if (by_ +i bh -i sd <? y +i h) && (y +i h <? by_ +i bh +i sd)
     then by_ +i bh -i h else y).
Proof.
  intros Hy Hyh. cbv zeta. unfold cross_rel.
  replace (by_ -i sd) with (by_ - sd) by (gint_exact; done).
  replace (by_ +i sd) with (by_ + sd) by (gint_exact; done).
  replace (by_ +i bh -i sd) with (by_ + bh - sd) by (gint_exact; done).
  replace (by_ +i bh +i sd) with (by_ + bh + sd) by (gint_exact; done).
  replace (by_ +i bh -i h) with (by_ + bh - h) by (gint_exact; done).
  destruct ((by_ - sd <? y) && (y <? by_ + sd)) eqn:E1.
  - apply ltb_and_near in E1. exists by_. split; [ by left | ].
    replace (by_ +i h) with (by_ + h) by (gint_exact; done).
    destruct ((by_ + bh - sd <? by_ + h) && (by_ + h <? by_ + bh + sd)) eqn:E2.
    + apply ltb_and_near in E2. by left.
    + apply ltb_and_near_false in E2. by right.
  - apply ltb_and_near_false in E1. exists y. split; [ by right | ].
    replace (y +i h) with (y + h) by (gint_exact; done).
    destruct ((by_ + bh - sd <? y + h) && (y + h <? by_ + bh + sd)) eqn:E2.
    + apply ltb_and_near in E2. by left.
    + apply ltb_and_near_false in E2. by right.
Qed.

Lemma cross_rel_range y y' :
  coord_range y \/ y = by_ + bh - h ->
  cross_rel sd h by_ bh y y' ->
  (y' = y \/ y' = by_ \/ y' = by_ + bh - h) /\
  Gint.in_range y' /\ Gint.in_range (y' + h).
Proof.
  intros Hy (ya & Ha & Hb). gint_range_solve.
Qed.

Variables x w bx bw : Z.

Hypothesis x_range : coord_range x.
Hypothesis w_range : coord_range w.
Hypothesis bx_range : coord_range bx.
Hypothesis bw_range : coord_range bw.

(** [snap_edge] over exact arithmetic: the block for the edge before the
    other span, then the block for the edge after it. *)
Lemma snap_edge_rel y :
  coord_range y ->
  exists x1 y1,
    edge_rel sd (x + w) bx (bx - w) h by_ bh x y x1 y1 /\
    edge_rel sd x1 (bx + bw) (bx + bw) h by_ bh x1 y1
      (snap_edge sd x y w h bx by_ bw bh).1
      (snap_edge sd x y w h bx by_ bw bh).2.
Proof.
  intros y_range. unfold snap_edge.
  assert (Hy : Gint.in_range y /\ Gint.in_range (y + h)) by gint_range_solve.
  destruct Hy as [Hy Hyh].
  pose proof (cross_snap_rel y Hy Hyh) as Hc1. cbv zeta in Hc1.
  set (yc := if (by_ +i bh -i sd <? (if (by_ -i sd <? y) && (y <? by_ +i sd)
                                      then by_ else y) +i h) &&
                ((if (by_ -i sd <? y) && (y <? by_ +i sd) then by_ else y) +i h
                 <? by_ +i bh +i sd)
             then by_ +i bh -i h
             else if (by_ -i sd <? y) && (y <? by_ +i sd) then by_ else y) in *.
  cbv zeta. fold yc.
  replace (bx -i sd) with (bx - sd) by (gint_exact; done).
  replace (bx +i sd) with (bx + sd) by (gint_exact; done).
  replace (x +i w) with (x + w) by (gint_exact; done).
  replace (by_ -i h -i sd) with (by_ - h - sd) by (gint_exact; done).
  replace (by_ +i bh +i sd) with (by_ + bh + sd) in * by (gint_exact; done).
  replace (bx +i bw -i sd) with (bx + bw - sd) by (gint_exact; done).
  replace (bx +i bw +i sd) with (bx + bw + sd) by (gint_exact; done).
  replace (bx +i bw) with (bx + bw) by (gint_exact; done).
  replace (bx -i w) with (bx - w) by (gint_exact; done).
  assert (Hblock : forall e target x' x0 y0 (b : bool) yc0,
             (b = true <-> near sd e target /\ reach sd y0 h by_ bh) ->
             cross_rel sd h by_ bh y0 yc0 ->
             edge_rel sd e target x' h by_ bh x0 y0
               (if b then (x', yc0) else (x0, y0)).1
               (if b then (x', yc0) else (x0, y0)).2).
  { intros e target x' x0 y0 b yc0 Hb Hc. unfold edge_rel. destruct b; simpl.
    - left. destruct Hb as [Hb _]. destruct (Hb eq_refl). done.
    - right. split; [ | done ]. intros Hn. apply Hb in Hn. discriminate. }
  assert (Htest : forall e target y0,
             (target - sd <? e) && (e <? target + sd) &&
             (by_ - h - sd <? y0) && (y0 <? by_ + bh + sd) = true <->
             near sd e target /\ reach sd y0 h by_ bh).
  { intros. unfold near, reach. rewrite !andb_true_iff, !Z.ltb_lt. tauto. }
  set (b1 := (bx - sd <? x + w) && (x + w <? bx + sd) &&
             (by_ - h - sd <? y) && (y <? by_ + bh + sd)).
  pose proof (Hblock (x + w) bx (bx - w) x y b1 yc (Htest _ _ _) Hc1) as H1.
  set (p1 := if b1 then (bx - w, yc) else (x, y)) in *.
  destruct p1 as [x1 y1] eqn:Ep1. simpl in H1.
  exists x1, y1. split; [ exact H1 | ].
  assert (Hy1 : Gint.in_range y1 /\ Gint.in_range (y1 + h)).
  { destruct H1 as [(_ & _ & _ & Hc)|(_ & _ & ->)]; [ | done ].
    eapply cross_rel_range; [ | exact Hc ]. by left. }
  destruct Hy1 as [Hy1 Hy1h].
  pose proof (cross_snap_rel y1 Hy1 Hy1h) as Hc2. cbv zeta in Hc2.
  apply Hblock; [ apply Htest | ].
  replace (by_ +i bh +i sd) with (by_ + bh + sd) in Hc2 by (gint_exact; done).
  exact Hc2.
Qed.

End SnapEdge.

(** Splits what [snap_edge_rel] gives into its cases. *)
Ltac rel_cases :=
  unfold edge_rel, cross_rel in *;
  repeat match goal with
         | H : _ /\ _ |- _ => destruct H
         | H : exists _, _ |- _ => destruct H
         | H : _ \/ _ |- _ => destruct H
         end;
  unfold near, reach, coord_range in *.

Section SnapEdgeFacts.

Variables sd x y w h bx by_ bw bh : Z.

Hypothesis sd_range : coord_range sd.
Hypothesis x_range : coord_range x.
Hypothesis y_range : coord_range y.
Hypothesis w_range : coord_range w.
Hypothesis h_range : coord_range h.
Hypothesis bx_range : coord_range bx.
Hypothesis by_range : coord_range by_.
Hypothesis bw_range : coord_range bw.
Hypothesis bh_range : coord_range bh.

Ltac use_rel :=
  destruct (snap_edge_rel sd h by_ bh sd_range h_range by_range bh_range
              x w bx bw x_range w_range bx_range bw_range y y_range)
    as (x1 & y1 & Hrel1 & Hrel2);
  destruct (snap_edge sd x y w h bx by_ bw bh) as [x2 y2]; cbn [fst snd] in *.

(** Nothing within tolerance and reach: the position is left alone. *)
Lemma snap_edge_quiet :
  ~ (near sd (x + w) bx /\ reach sd y h by_ bh) ->
  ~ (near sd x (bx + bw) /\ reach sd y h by_ bh) ->
  snap_edge sd x y w h bx by_ bw bh = (x, y).
Proof.
  intros H1 H2. use_rel.
  assert (x2 = x /\ y2 = y) as [-> ->]; [ | done ].
  rel_cases; lia.
Qed.

(** The end of the moved span is within tolerance of the start of the
    other: the moved span ends exactly where the other starts. *)
Lemma snap_edge_before :
  near sd (x + w) bx -> reach sd y h by_ bh -> sd <= w + bw ->
  (snap_edge sd x y w h bx by_ bw bh).1 = bx - w.
Proof. intros H1 H2 H3. use_rel. rel_cases; lia. Qed.

(** The start of the moved span is within tolerance of the end of the
    other: the moved span starts exactly where the other ends. *)
Lemma snap_edge_after :
  ~ (near sd (x + w) bx /\ reach sd y h by_ bh) ->
  near sd x (bx + bw) -> reach sd y h by_ bh ->
  (snap_edge sd x y w h bx by_ bw bh).1 = bx + bw.
Proof. intros H1 H2 H3. use_rel. rel_cases; lia. Qed.

(** The cross coordinate moves only to line up with an end of the other
    span that it is within tolerance of. *)
Lemma snap_edge_cross_stable :
  ~ near sd y by_ -> ~ near sd (y + h) (by_ + bh) ->
  (snap_edge sd x y w h bx by_ bw bh).2 = y.
Proof. intros H1 H2. use_rel. rel_cases; lia. Qed.

Lemma snap_edge_values :
  ((snap_edge sd x y w h bx by_ bw bh).1 = x \/
   (snap_edge sd x y w h bx by_ bw bh).1 = bx - w \/
   (snap_edge sd x y w h bx by_ bw bh).1 = bx + bw) /\
  ((snap_edge sd x y w h bx by_ bw bh).2 = y \/
   (snap_edge sd x y w h bx by_ bw bh).2 = by_ \/
   (snap_edge sd x y w h bx by_ bw bh).2 = by_ + bh - h).
Proof. use_rel. split; rel_cases; lia. Qed.

End SnapEdgeFacts.

(** Geometry of screen size: the sums the snap computation forms of such
    values stay far inside the range of [gint]. *)
Definition screen_sized (z : Z) : Prop := -16777216 <= z <= 16777215.

(** The position of a dragged window: the pointer position, an offset and
    a correction, each of screen size. *)
Definition position_range (z : Z) : Prop := -67108864 <= z <= 67108863.

Ltac screen_range := unfold screen_sized, position_range, coord_range in *; lia.

Section Snap.

Variables sd x y w h bx by_ bw bh : Z.

Hypothesis sd_range : screen_sized sd.
Hypothesis x_range : position_range x.
Hypothesis y_range : position_range y.
Hypothesis w_range : screen_sized w.
Hypothesis h_range : screen_sized h.
Hypothesis bx_range : screen_sized bx.
Hypothesis by_range : screen_sized by_.
Hypothesis bw_range : screen_sized bw.
Hypothesis bh_range : screen_sized bh.

(** Both windows are at least as large as the tolerance. *)
Hypothesis w_large : sd <= w.
Hypothesis h_large : sd <= h.
Hypothesis bw_large : sd <= bw.
Hypothesis bh_large : sd <= bh.

(** The position after the first [snap_edge] of [snap]. *)
Let p1 := snap_edge sd x y w h bx by_ bw bh.

Lemma snap_first_range : coord_range p1.1 /\ coord_range p1.2.
Proof.
  clear w_large h_large bw_large bh_large.
  destruct (snap_edge_values sd x y w h bx by_ bw bh) as [H1 H2];
    try screen_range.
  fold p1 in H1, H2. split; screen_range.
Qed.

Lemma snap_unfold :
  snap sd x y w h bx by_ bw bh =
  ((snap_edge sd p1.2 p1.1 h w by_ bx bh bw).2,
   (snap_edge sd p1.2 p1.1 h w by_ bx bh bw).1).
Proof.
  unfold snap. fold p1. destruct p1 as [x1 y1]. simpl.
  by destruct (snap_edge sd y1 x1 h w by_ bx bh bw).
Qed.

Lemma snap_quiet :
  ~ near sd (x + w) bx -> ~ near sd x (bx + bw) ->
  ~ near sd (y + h) by_ -> ~ near sd y (by_ + bh) ->
  snap sd x y w h bx by_ bw bh = (x, y).
Proof.
  intros H1 H2 H3 H4. rewrite snap_unfold. unfold p1.
  rewrite (snap_edge_quiet sd x y w h bx by_ bw bh); try screen_range;
    [ | tauto | tauto ].
  simpl.
  rewrite (snap_edge_quiet sd y x h w by_ bx bh bw); try screen_range;
    [ done | tauto | tauto ].
Qed.

(** Right edge within tolerance of the other window's left edge. *)
Lemma snap_right :
  near sd (x + w) bx -> reach sd y h by_ bh ->
  (snap sd x y w h bx by_ bw bh).1 + w = bx.
Proof.
  intros H1 H2. rewrite snap_unfold. cbn [fst snd].
  destruct snap_first_range as [Hr1 Hr2].
  assert (Hx1 : p1.1 = bx - w).
  { apply snap_edge_before; try screen_range; try done.
    unfold near in H1. lia. }
  rewrite snap_edge_cross_stable; try screen_range;
    rewrite Hx1; unfold near; lia.
Qed.

(** Left edge within tolerance of the other window's right edge. *)
Lemma snap_left :
  ~ (near sd (x + w) bx /\ reach sd y h by_ bh) ->
  near sd x (bx + bw) -> reach sd y h by_ bh ->
  (snap sd x y w h bx by_ bw bh).1 = bx + bw.
Proof.
  intros H0 H1 H2. rewrite snap_unfold. cbn [fst snd].
  destruct snap_first_range as [Hr1 Hr2].
  assert (Hx1 : p1.1 = bx + bw).
  { apply snap_edge_after; try screen_range; done. }
  rewrite snap_edge_cross_stable; try screen_range;
    rewrite Hx1; unfold near in *; lia.
Qed.

(** Bottom edge within tolerance of the other window's top edge, with no
    horizontal snap. *)
Lemma snap_bottom :
  ~ (near sd (x + w) bx /\ reach sd y h by_ bh) ->
  ~ (near sd x (bx + bw) /\ reach sd y h by_ bh) ->
  near sd (y + h) by_ -> reach sd x w bx bw ->
  (snap sd x y w h bx by_ bw bh).2 + h = by_.
Proof.
  intros H1 H2 H3 H4. rewrite snap_unfold. cbn [fst snd]. unfold p1.
  rewrite (snap_edge_quiet sd x y w h bx by_ bw bh); try screen_range; try done.
  cbn [fst snd].
  rewrite snap_edge_before; try screen_range; try done.
  unfold near in H3. lia.
Qed.

(** Top edge within tolerance of the other window's bottom edge, with no
    horizontal snap. *)
Lemma snap_top :
  ~ (near sd (x + w) bx /\ reach sd y h by_ bh) ->
  ~ (near sd x (bx + bw) /\ reach sd y h by_ bh) ->
  ~ (near sd (y + h) by_ /\ reach sd x w bx bw) ->
  near sd y (by_ + bh) -> reach sd x w bx bw ->
  (snap sd x y w h bx by_ bw bh).2 = by_ + bh.
Proof.
  intros H1 H2 H3 H4 H5. rewrite snap_unfold. cbn [fst snd]. unfold p1.
  rewrite (snap_edge_quiet sd x y w h bx by_ bw bh); try screen_range; try done.
  cbn [fst snd].
  rewrite snap_edge_after; try screen_range; done.
Qed.

(** Wherever [snap] puts the window, it is on or near the screen. *)
Lemma snap_range :
  -134217728 <= (snap sd x y w h bx by_ bw bh).1 <= 134217727 /\
  -134217728 <= (snap sd x y w h bx by_ bw bh).2 <= 134217727.
Proof.
  clear w_large h_large bw_large bh_large.
  rewrite snap_unfold. cbn [fst snd].
  destruct snap_first_range as [Hr1 Hr2].
  destruct (snap_edge_values sd x y w h bx by_ bw bh) as [H1 H2];
    try screen_range.
  fold p1 in H1, H2.
  destruct (snap_edge_values sd p1.2 p1.1 h w by_ bx bh bw) as [H3 H4];
    try screen_range.
Qed.

End Snap.

(** *** [calc_snap_offset] *)

(** No edge of the window at ([px], [py]) is within tolerance of the screen
    edge it faces. *)
Definition screen_quiet (sd scr_w scr_h px py nw nh : Z) : Prop :=
  ~ near sd px 0 /\ ~ near sd py 0 /\
  ~ near sd (px + nw) scr_w /\ ~ near sd (py + nh) scr_h.

(** No edge of the window at ([px], [py]) is within tolerance of the edge
    of the other window that it faces. *)
Definition window_quiet (sd px py nw nh sx sy sw sh : Z) : Prop :=
  ~ near sd (px + nw) sx /\ ~ near sd px (sx + sw) /\
  ~ near sd (py + nh) sy /\ ~ near sd py (sy + sh).

(** No edge of a captured window, the group being at ([x], [y]), is within
    tolerance of a screen edge or of an edge of a window that is not
    captured. *)
Definition nothing_in_tolerance (cfg : Config) (d : Desktop)
    (dlist : list DockedWindow) (wlist : list nat) (x y : Z) : Prop :=
  forall dw, dw ∈ dlist ->
    screen_quiet (snap_distance cfg) (screen_width d) (screen_height d)
      (offset_x dw + x) (offset_y dw + y)
      (win_size d (dw_w dw)).1 (win_size d (dw_w dw)).2 /\
    forall c, c ∈ wlist -> c ∉ windows_of dlist ->
      window_quiet (snap_distance cfg) (offset_x dw + x) (offset_y dw + y)
        (win_size d (dw_w dw)).1 (win_size d (dw_w dw)).2
        (win_pos d c).1 (win_pos d c).2 (win_size d c).1 (win_size d c).2.

(** Everything the snap computation reads is of screen size. *)
Definition scene_in_range (cfg : Config) (d : Desktop)
    (dlist : list DockedWindow) (wlist : list nat) (x y : Z) : Prop :=
  screen_sized (snap_distance cfg) /\ screen_sized x /\ screen_sized y /\
  screen_sized (screen_width d) /\ screen_sized (screen_height d) /\
  (forall dw, dw ∈ dlist ->
     screen_sized (offset_x dw) /\ screen_sized (offset_y dw) /\
     screen_sized (win_size d (dw_w dw)).1 /\
     screen_sized (win_size d (dw_w dw)).2) /\
  (forall c, c ∈ wlist ->
     screen_sized (win_pos d c).1 /\ screen_sized (win_pos d c).2 /\
     screen_sized (win_size d c).1 /\ screen_sized (win_size d c).2).

Lemma find_docked_captured dl c :
  c ∈ windows_of dl ->
  exists e, g_list_find_custom dl (docked_new c) docked_list_compare = Some e.
Proof.
  intros Hc.
  destruct (g_list_find_custom dl (docked_new c) docked_list_compare) eqn:E;
    [ by eexists | ].
  apply find_docked_None in E. done.
Qed.

Section CalcSnap.

Variable cfg : Config.
Variable d : Desktop.
Variable dlist : list DockedWindow.

Lemma snap_to_window_captured dw nw nh x y off c :
  c ∈ windows_of dlist ->
  snap_to_window cfg d dlist dw nw nh x y off c = off.
Proof.
  intros Hc. unfold snap_to_window. destruct off as [off_x off_y].
  by destruct (find_docked_captured dlist c Hc) as [e ->].
Qed.

(** Only the candidates that are not captured count. *)
Lemma fold_snap_uncaptured dw nw nh x y wlist :
  forall off,
    fold_left (snap_to_window cfg d dlist dw nw nh x y) wlist off =
    fold_left (snap_to_window cfg d dlist dw nw nh x y)
      (filter (fun c => c ∉ windows_of dlist) wlist) off.
Proof.
  induction wlist as [|c wlist IH]; intros off; [ done | ].
  rewrite filter_cons. simpl. destruct (decide (c ∉ windows_of dlist)) as [Hn|Hy].
  - simpl. apply IH.
  - rewrite snap_to_window_captured by (by apply dec_stable). apply IH.
Qed.

(** A candidate out of tolerance leaves a zero correction at zero. *)
Lemma snap_to_window_quiet dw x y c :
  screen_sized (snap_distance cfg) -> screen_sized x -> screen_sized y ->
  screen_sized (offset_x dw) -> screen_sized (offset_y dw) ->
  screen_sized (win_size d (dw_w dw)).1 -> screen_sized (win_size d (dw_w dw)).2 ->
  screen_sized (win_pos d c).1 -> screen_sized (win_pos d c).2 ->
  screen_sized (win_size d c).1 -> screen_sized (win_size d c).2 ->
  window_quiet (snap_distance cfg) (offset_x dw + x) (offset_y dw + y)
    (win_size d (dw_w dw)).1 (win_size d (dw_w dw)).2
    (win_pos d c).1 (win_pos d c).2 (win_size d c).1 (win_size d c).2 ->
  snap_to_window cfg d dlist dw (win_size d (dw_w dw)).1 (win_size d (dw_w dw)).2
    x y (0, 0) c = (0, 0).
Proof.
  intros Hsd Hx Hy Hox Hoy Hnw Hnh Hsx Hsy Hsw Hsh (Q1 & Q2 & Q3 & Q4).
  unfold snap_to_window.
  destruct (g_list_find_custom dlist (docked_new c) docked_list_compare);
    [ done | ].
  destruct (win_pos d c) as [sx sy], (win_size d c) as [sw sh].
  destruct (win_size d (dw_w dw)) as [nw nh]. cbn [fst snd] in *.
  replace (offset_x dw +i 0 +i x) with (offset_x dw + x)
    by (unfold screen_sized in *; gint_exact; lia).
  replace (offset_y dw +i 0 +i y) with (offset_y dw + y)
    by (unfold screen_sized in *; gint_exact; lia).
  rewrite snap_quiet; try done; try screen_range.
  unfold screen_sized in *. gint_exact. f_equal; lia.
Qed.

Lemma fold_snap_quiet dw x y wlist :
  screen_sized (snap_distance cfg) -> screen_sized x -> screen_sized y ->
  screen_sized (offset_x dw) -> screen_sized (offset_y dw) ->
  screen_sized (win_size d (dw_w dw)).1 -> screen_sized (win_size d (dw_w dw)).2 ->
  (forall c, c ∈ wlist ->
     screen_sized (win_pos d c).1 /\ screen_sized (win_pos d c).2 /\
     screen_sized (win_size d c).1 /\ screen_sized (win_size d c).2) ->
  (forall c, c ∈ wlist -> c ∉ windows_of dlist ->
     window_quiet (snap_distance cfg) (offset_x dw + x) (offset_y dw + y)
       (win_size d (dw_w dw)).1 (win_size d (dw_w dw)).2
       (win_pos d c).1 (win_pos d c).2 (win_size d c).1 (win_size d c).2) ->
  fold_left (snap_to_window cfg d dlist dw (win_size d (dw_w dw)).1
               (win_size d (dw_w dw)).2 x y) wlist (0, 0) = (0, 0).
Proof.
  intros Hsd Hx Hy Hox Hoy Hnw Hnh.
  induction wlist as [|c wlist IH]; intros Hr Hq; [ done | ].
  cbn [fold_left].
  assert (Hstep : snap_to_window cfg d dlist dw (win_size d (dw_w dw)).1
                    (win_size d (dw_w dw)).2 x y (0, 0) c = (0, 0)).
  { destruct (decide (c ∈ windows_of dlist)) as [Hc|Hc].
    - by apply snap_to_window_captured.
    - destruct (Hr c) as (? & ? & ? & ?); [ left | ].
      apply snap_to_window_quiet; try done. apply Hq; [ left | done ]. }
  rewrite Hstep. apply IH.
  - intros c' Hc'. apply Hr. by right.
  - intros c' Hc'. apply Hq. by right.
Qed.

(** The screen part of [snap_docked], started from a zero correction:
    [abs] and the sums are exact, and each test is a [near]. *)
Lemma screen_tests_exact sd scr_w scr_h px py nw nh :
  screen_sized sd -> screen_sized scr_w -> screen_sized scr_h ->
  position_range px -> position_range py ->
  screen_sized nw -> screen_sized nh ->
  ((Gint.abs px <? sd) = true <-> near sd px 0) /\
  ((Gint.abs py <? sd) = true <-> near sd py 0) /\
  ((Gint.abs (px +i nw -i scr_w) <? sd) = true <-> near sd (px + nw) scr_w) /\
  ((Gint.abs (py +i nh -i scr_h) <? sd) = true <-> near sd (py + nh) scr_h) /\
  px +i nw -i scr_w = px + nw - scr_w /\
  py +i nh -i scr_h = py + nh - scr_h.
Proof.
  intros. unfold screen_sized, position_range, near in *. gint_exact.
  rewrite !Z.ltb_lt. lia.
Qed.

(** A captured window out of tolerance of everything leaves a zero
    correction at zero. *)
Lemma snap_docked_quiet wlist x y dw :
  scene_in_range cfg d dlist wlist x y ->
  nothing_in_tolerance cfg d dlist wlist x y ->
  dw ∈ dlist ->
  snap_docked cfg d dlist wlist x y (0, 0) dw = (0, 0).
Proof.
  intros (Hsd & Hx & Hy & Hsw & Hsh & Hd & Hw) Hq Hdw.
  destruct (Hd dw Hdw) as (Hox & Hoy & Hnw & Hnh).
  destruct (Hq dw Hdw) as ((Q1 & Q2 & Q3 & Q4) & Hqw).
  unfold snap_docked.
  pose proof (fold_snap_quiet dw x y wlist Hsd Hx Hy Hox Hoy Hnw Hnh Hw Hqw)
    as Hfold.
  destruct (win_size d (dw_w dw)) as [nw nh]. cbn [fst snd] in *.
  replace (offset_x dw +i 0 +i x) with (offset_x dw + x)
    by (unfold screen_sized in *; gint_exact; lia).
  replace (offset_y dw +i 0 +i y) with (offset_y dw + y)
    by (unfold screen_sized in *; gint_exact; lia).
  destruct (screen_tests_exact (snap_distance cfg) (screen_width d)
              (screen_height d) (offset_x dw + x) (offset_y dw + y) nw nh)
    as (T1 & T2 & T3 & T4 & _); try done; try screen_range.
  cbv zeta.
  destruct (Gint.abs (offset_x dw + x) <? snap_distance cfg);
    [ exfalso; apply Q1, T1; done | ].
  destruct (Gint.abs (offset_y dw + y) <? snap_distance cfg);
    [ exfalso; apply Q2, T2; done | ].
  destruct (Gint.abs (offset_x dw + x +i nw -i screen_width d) <? snap_distance cfg);
    [ exfalso; apply Q3, T3; done | ].
  destruct (Gint.abs (offset_y dw + y +i nh -i screen_height d) <? snap_distance cfg);
    [ exfalso; apply Q4, T4; done | ].
  exact Hfold.
Qed.

Lemma calc_snap_offset_quiet wlist x y :
  snap_windows cfg = false \/
  (scene_in_range cfg d dlist wlist x y /\
   nothing_in_tolerance cfg d dlist wlist x y) ->
  calc_snap_offset cfg d dlist wlist x y = (0, 0).
Proof.
  unfold calc_snap_offset. intros [->|[Hr Hq]]; [ done | ].
  destruct (snap_windows cfg); [ | done ]. simpl.
  assert (Hall : forall l, (forall dw, dw ∈ l -> dw ∈ dlist) ->
                   fold_left (snap_docked cfg d dlist wlist x y) l (0, 0) = (0, 0)).
  { induction l as [|dw l IH]; intros Hl; [ done | ]. cbn [fold_left].
    rewrite snap_docked_quiet; try done.
    - apply IH. intros dw' Hdw'. apply Hl. by right.
    - apply Hl. left. }
  by apply Hall.
Qed.

End CalcSnap.

(** *** A lone captured window *)

Section CalcSnapLone.

Variable cfg : Config.
Variable d : Desktop.
Variable dw : DockedWindow.
Variable wlist : list nat.
Variables x y : Z.

Hypothesis in_range : scene_in_range cfg d [dw] wlist x y.
Hypothesis snapping : snap_windows cfg = true.

Let sd := snap_distance cfg.
Let px := offset_x dw + x.
Let py := offset_y dw + y.
Let nw := (win_size d (dw_w dw)).1.
Let nh := (win_size d (dw_w dw)).2.

Lemma lone_ranges :
  screen_sized sd /\ screen_sized x /\ screen_sized y /\
  screen_sized (screen_width d) /\ screen_sized (screen_height d) /\
  screen_sized (offset_x dw) /\ screen_sized (offset_y dw) /\
  screen_sized nw /\ screen_sized nh /\
  position_range px /\ position_range py.
Proof.
  destruct in_range as (Hsd & Hx & Hy & Hsw & Hsh & Hd & Hw).
  destruct (Hd dw) as (Hox & Hoy & Hnw & Hnh); [ left | ].
  repeat split; try done; unfold px, py; screen_range.
Qed.

(** The correction after the screen tests, started from zero. *)
Definition screen_correction (sd scr_w scr_h px py nw nh : Z) : Z * Z :=
  let off_x := if Gint.abs px <? sd then 0 -i px else 0 in
  let off_y := if Gint.abs py <? sd then 0 -i py else 0 in
  let off_x := if Gint.abs (px +i nw -i scr_w) <? sd
               then off_x -i (px +i nw -i scr_w) else off_x in
  let off_y := if Gint.abs (py +i nh -i scr_h) <? sd
               then off_y -i (py +i nh -i scr_h) else off_y in
  (off_x, off_y).

Lemma calc_snap_offset_lone :
  calc_snap_offset cfg d [dw] wlist x y =
  fold_left (snap_to_window cfg d [dw] dw nw nh x y)
    (filter (fun c => c ∉ windows_of [dw]) wlist)
    (screen_correction sd (screen_width d) (screen_height d) px py nw nh).
Proof.
  destruct lone_ranges as (Hsd & Hx & Hy & Hsw & Hsh & Hox & Hoy & Hnw & Hnh & _).
  unfold calc_snap_offset. rewrite snapping. cbn [negb fold_left].
  unfold snap_docked. rewrite <- fold_snap_uncaptured.
  unfold nw, nh. destruct (win_size d (dw_w dw)) as [nw' nh']. cbn [fst snd].
  replace (offset_x dw +i 0 +i x) with px
    by (unfold px, screen_sized in *; gint_exact; lia).
  replace (offset_y dw +i 0 +i y) with py
    by (unfold py, screen_sized in *; gint_exact; lia).
  reflexivity.
Qed.

(** Snapping to the screen when no candidate is left to snap to. *)
Lemma lone_screen_snap :
  (forall c, c ∈ wlist -> c ∈ windows_of [dw]) ->
  let off := calc_snap_offset cfg d [dw] wlist x y in
  (near sd px 0 -> ~ near sd (px + nw) (screen_width d) -> px + off.1 = 0) /\
  (~ near sd px 0 -> near sd (px + nw) (screen_width d) ->
   px + off.1 + nw = screen_width d) /\
  (near sd py 0 -> ~ near sd (py + nh) (screen_height d) -> py + off.2 = 0) /\
  (~ near sd py 0 -> near sd (py + nh) (screen_height d) ->
   py + off.2 + nh = screen_height d).
Proof.
  intros Hcap.
  destruct lone_ranges as (Hsd & Hx & Hy & Hsw & Hsh & Hox & Hoy & Hnw & Hnh & Hpx & Hpy).
  rewrite calc_snap_offset_lone.
  replace (filter (fun c => c ∉ windows_of [dw]) wlist) with (@nil nat).
  2:{ symmetry. clear -Hcap. induction wlist as [|c l IH]; [ done | ].
      rewrite filter_cons. rewrite decide_False.
      - apply IH. intros c' Hc'. apply Hcap. by right.
      - intros Hn. apply Hn, Hcap. left. }
  cbn [fold_left]. unfold screen_correction.
  destruct (screen_tests_exact sd (screen_width d) (screen_height d) px py nw nh)
    as (T1 & T2 & T3 & T4 & E3 & E4); try done.
  rewrite E3, E4. rewrite E3 in T3. rewrite E4 in T4. cbv zeta.
  assert (C1 : if Gint.abs px <? sd then near sd px 0 else ~ near sd px 0).
  { destruct (Gint.abs px <? sd); [ by apply T1 | ].
    intros N. apply T1 in N. discriminate. }
  assert (C2 : if Gint.abs py <? sd then near sd py 0 else ~ near sd py 0).
  { destruct (Gint.abs py <? sd); [ by apply T2 | ].
    intros N. apply T2 in N. discriminate. }
  assert (C3 : if Gint.abs (px + nw - screen_width d) <? sd
               then near sd (px + nw) (screen_width d)
               else ~ near sd (px + nw) (screen_width d)).
  { destruct (Gint.abs (px + nw - screen_width d) <? sd); [ by apply T3 | ].
    intros N. apply T3 in N. discriminate. }
  assert (C4 : if Gint.abs (py + nh - screen_height d) <? sd
               then near sd (py + nh) (screen_height d)
               else ~ near sd (py + nh) (screen_height d)).
  { destruct (Gint.abs (py + nh - screen_height d) <? sd); [ by apply T4 | ].
    intros N. apply T4 in N. discriminate. }
  clear T1 T2 T3 T4 E3 E4.
  destruct (Gint.abs px <? sd), (Gint.abs py <? sd),
    (Gint.abs (px + nw - screen_width d) <? sd),
    (Gint.abs (py + nh - screen_height d) <? sd);
    cbn [fst snd]; unfold screen_sized, position_range, near in *;
    gint_exact; lia.
Qed.

(** The correction after one candidate that is not captured, when the
    screen tests have left it at zero. *)
Lemma snap_to_window_lone c :
  c ∈ wlist -> c ∉ windows_of [dw] ->
  let p := snap sd px py nw nh (win_pos d c).1 (win_pos d c).2
             (win_size d c).1 (win_size d c).2 in
  snap_to_window cfg d [dw] dw nw nh x y (0, 0) c = (p.1 - px, p.2 - py).
Proof.
  intros Hc Hn.
  destruct lone_ranges as (Hsd & Hx & Hy & Hsw & Hsh & Hox & Hoy & Hnw & Hnh & Hpx & Hpy).
  destruct in_range as (_ & _ & _ & _ & _ & _ & Hw).
  destruct (Hw c Hc) as (Hcx & Hcy & Hcw & Hch).
  unfold snap_to_window.
  apply find_docked_None in Hn. rewrite Hn.
  destruct (win_pos d c) as [sx sy], (win_size d c) as [sw sh].
  cbn [fst snd] in *.
  replace (offset_x dw +i 0 +i x) with px
    by (unfold px, screen_sized in *; gint_exact; lia).
  replace (offset_y dw +i 0 +i y) with py
    by (unfold py, screen_sized in *; gint_exact; lia).
  fold sd.
  pose proof (snap_range sd px py nw nh sx sy sw sh Hsd Hpx Hpy Hnw Hnh
                Hcx Hcy Hcw Hch) as [R1 R2].
  destruct (snap sd px py nw nh sx sy sw sh) as [nx ny]. cbn [fst snd] in *.
  unfold position_range in *. gint_exact. f_equal; lia.
Qed.

(** Snapping to the one candidate that is not captured, the screen edges
    being out of tolerance. *)
Lemma lone_window_snap c :
  filter (fun c => c ∉ windows_of [dw]) wlist = [c] ->
  screen_quiet sd (screen_width d) (screen_height d) px py nw nh ->
  sd <= nw -> sd <= nh -> sd <= (win_size d c).1 -> sd <= (win_size d c).2 ->
  let off := calc_snap_offset cfg d [dw] wlist x y in
  let sx := (win_pos d c).1 in
  let sy := (win_pos d c).2 in
  let sw := (win_size d c).1 in
  let sh := (win_size d c).2 in
  let snap_x := (near sd (px + nw) sx \/ near sd px (sx + sw)) /\
                reach sd py nh sy sh in
  (near sd (px + nw) sx -> reach sd py nh sy sh -> px + off.1 + nw = sx) /\
  (~ near sd (px + nw) sx -> near sd px (sx + sw) -> reach sd py nh sy sh ->
   px + off.1 = sx + sw) /\
  (~ snap_x -> near sd (py + nh) sy -> reach sd px nw sx sw ->
   py + off.2 + nh = sy) /\
  (~ snap_x -> ~ near sd (py + nh) sy -> near sd py (sy + sh) ->
   reach sd px nw sx sw -> py + off.2 = sy + sh).
Proof.
  intros Hfilter (Q1 & Q2 & Q3 & Q4) Lw Lh Lsw Lsh.
  destruct lone_ranges as (Hsd & Hx & Hy & Hsw & Hsh & Hox & Hoy & Hnw & Hnh & Hpx & Hpy).
  assert (Hc : c ∈ wlist /\ c ∉ windows_of [dw]).
  { assert (Hin : c ∈ filter (fun c => c ∉ windows_of [dw]) wlist)
      by (rewrite Hfilter; left).
    apply list_elem_of_filter in Hin. tauto. }
  destruct Hc as [Hc Hn].
  destruct in_range as (_ & _ & _ & _ & _ & _ & Hw).
  destruct (Hw c Hc) as (Hcx & Hcy & Hcw & Hch).
  cbv zeta. rewrite calc_snap_offset_lone, Hfilter. cbn [fold_left].
  assert (Hscreen : screen_correction sd (screen_width d) (screen_height d)
                      px py nw nh = (0, 0)).
  { unfold screen_correction.
    destruct (screen_tests_exact sd (screen_width d) (screen_height d) px py nw nh)
      as (T1 & T2 & T3 & T4 & _); try done.
    cbv zeta.
    destruct (Gint.abs px <? sd); [ exfalso; apply Q1, T1; done | ].
    destruct (Gint.abs py <? sd); [ exfalso; apply Q2, T2; done | ].
    destruct (Gint.abs (px +i nw -i screen_width d) <? sd);
      [ exfalso; apply Q3, T3; done | ].
    destruct (Gint.abs (py +i nh -i screen_height d) <? sd);
      [ exfalso; apply Q4, T4; done | ].
    done. }
  rewrite Hscreen, (snap_to_window_lone c Hc Hn). cbn [fst snd].
  set (p := snap sd px py nw nh (win_pos d c).1 (win_pos d c).2
              (win_size d c).1 (win_size d c).2).
  split; [ | split; [ | split ] ].
  - intros N R.
    enough (p.1 + nw = (win_pos d c).1) by lia.
    apply snap_right; done.
  - intros N0 N R.
    enough (p.1 = (win_pos d c).1 + (win_size d c).1) by lia.
    apply snap_left; try done. tauto.
  - intros N0 N R.
    enough (p.2 + nh = (win_pos d c).2) by lia.
    apply snap_bottom; try done; tauto.
  - intros N0 N1 N R.
    enough (p.2 = (win_pos d c).2 + (win_size d c).2) by lia.
    apply snap_top; try done; tauto.
Qed.

End CalcSnapLone.

(** *** The claim about [calc_snap_offset] *)

(** Snapping on, with a tolerance of 10 pixels. *)
Definition snap_config : Config := mkConfig 10 true false 0 0 0 0 0 0.

(** The dragged window 0 and two candidates whose left edges are 5 pixels
    apart: window 1 beside it, window 2 below window 1. *)
Definition two_candidates : Desktop :=
  mkDesktop
    (fun w => match w with
              | O => (100, 100)
              | 1%nat => (378, 100)
              | _ => (383, 216)
              end)
    (fun _ => (275, 116))
    1280 1024.

(** Corrections accumulate over the candidates.  The right edge of the
    dragged window (at 375) is 3 pixels from the left edge of window 1 (at
    378), within the tolerance and in reach, and the code snaps to it; it
    then goes on to window 2, whose left edge (at 383) is now within
    tolerance, and snaps to that.  The correction returned leaves the right
    edge on the edge of window 2, 5 pixels past the edge of window 1. *)
Lemma calc_snap_offset_later_snap_wins :
  let d := two_candidates in
  let off := calc_snap_offset snap_config d [docked_new 0] [0; 1; 2]%nat 100 100 in
  near 10 (100 + (win_size d 0%nat).1) (win_pos d 1%nat).1 /\
  reach 10 100 (win_size d 0%nat).2 (win_pos d 1%nat).2 (win_size d 1%nat).2 /\
  off = (8, 0) /\
  100 + off.1 + (win_size d 0%nat).1 <> (win_pos d 1%nat).1.
Proof.
  cbv zeta. split; [ | split; [ | split ] ].
  - unfold near. simpl. lia.
  - unfold reach. simpl. lia.
  - vm_compute. reflexivity.
  - vm_compute. discriminate.
Qed.

(** *** One snap among many windows *)

#[global] Instance near_dec sd a b : Decision (near sd a b).
Proof. unfold near. apply _. Defined.

(** The correction of one axis that the screen tests make for a window at
    [p] of extent [n] on a screen of extent [scr]: both tests read the
    position before either correction. *)
Definition edge_shift (sd p n scr : Z) : Z :=
  (if decide (near sd p 0) then - p else 0) -
  (if decide (near sd (p + n) scr) then p + n - scr else 0).

(** The windows of [group], the captured set being at ([x], [y]), are out
    of tolerance of the screen edges and of the candidates [cand]. *)
Definition group_quiet (cfg : Config) (d : Desktop)
    (group : list DockedWindow) (cand : list nat) (x y : Z) : Prop :=
  forall dw, dw ∈ group ->
    screen_quiet (snap_distance cfg) (screen_width d) (screen_height d)
      (offset_x dw + x) (offset_y dw + y)
      (win_size d (dw_w dw)).1 (win_size d (dw_w dw)).2 /\
    forall c, c ∈ cand ->
      window_quiet (snap_distance cfg) (offset_x dw + x) (offset_y dw + y)
        (win_size d (dw_w dw)).1 (win_size d (dw_w dw)).2
        (win_pos d c).1 (win_pos d c).2 (win_size d c).1 (win_size d c).2.

(** The candidates that count: those that are not captured. *)
Definition candidates (dlist : list DockedWindow) (wlist : list nat) : list nat :=
  filter (fun c => c ∉ windows_of dlist) wlist.

Section OneSnap.

Variable cfg : Config.
Variable d : Desktop.
Variable dlist : list DockedWindow.
Variable wlist : list nat.
Variables x y : Z.

Hypothesis in_range : scene_in_range cfg d dlist wlist x y.

Let sd := snap_distance cfg.

Lemma candidates_in_range c :
  c ∈ candidates dlist wlist ->
  (c ∉ windows_of dlist) /\
  screen_sized (win_pos d c).1 /\ screen_sized (win_pos d c).2 /\
  screen_sized (win_size d c).1 /\ screen_sized (win_size d c).2.
Proof.
  intros Hc. apply list_elem_of_filter in Hc as [Hn Hc].
  destruct in_range as (_ & _ & _ & _ & _ & _ & Hw). split; [ done | by apply Hw ].
Qed.

(** A candidate out of tolerance leaves the correction as it is. *)
Lemma snap_to_window_quiet_at dw off c :
  dw ∈ dlist -> c ∈ candidates dlist wlist ->
  screen_sized (x + off.1) -> screen_sized (y + off.2) ->
  window_quiet sd (offset_x dw + (x + off.1)) (offset_y dw + (y + off.2))
    (win_size d (dw_w dw)).1 (win_size d (dw_w dw)).2
    (win_pos d c).1 (win_pos d c).2 (win_size d c).1 (win_size d c).2 ->
  snap_to_window cfg d dlist dw (win_size d (dw_w dw)).1 (win_size d (dw_w dw)).2
    x y off c = off.
Proof.
  intros Hdw Hc Hxo Hyo (Q1 & Q2 & Q3 & Q4).
  destruct (candidates_in_range c Hc) as (Hn & Hsx & Hsy & Hsw & Hsh).
  destruct in_range as (Hsd & Hx & Hy & _ & _ & Hd & _).
  destruct (Hd dw Hdw) as (Hox & Hoy & Hnw & Hnh).
  unfold snap_to_window. destruct off as [off_x off_y]. cbn [fst snd] in *.
  apply find_docked_None in Hn. rewrite Hn.
  destruct (win_pos d c) as [sx sy], (win_size d c) as [sw sh].
  destruct (win_size d (dw_w dw)) as [nw nh]. cbn [fst snd] in *.
  replace (offset_x dw +i off_x +i x) with (offset_x dw + (x + off_x))
    by (unfold screen_sized in *; gint_exact; lia).
  replace (offset_y dw +i off_y +i y) with (offset_y dw + (y + off_y))
    by (unfold screen_sized in *; gint_exact; lia).
  fold sd in Hsd |- *.
  rewrite snap_quiet; try done; try screen_range.
  unfold screen_sized in *. gint_exact. f_equal; lia.
Qed.

Lemma fold_snap_quiet_at dw off :
  dw ∈ dlist ->
  screen_sized (x + off.1) -> screen_sized (y + off.2) ->
  forall cand,
    (forall c, c ∈ cand -> c ∈ candidates dlist wlist) ->
    (forall c, c ∈ cand ->
       window_quiet sd (offset_x dw + (x + off.1)) (offset_y dw + (y + off.2))
         (win_size d (dw_w dw)).1 (win_size d (dw_w dw)).2
         (win_pos d c).1 (win_pos d c).2 (win_size d c).1 (win_size d c).2) ->
    fold_left (snap_to_window cfg d dlist dw (win_size d (dw_w dw)).1
                 (win_size d (dw_w dw)).2 x y) cand off = off.
Proof.
  intros Hdw Hxo Hyo. induction cand as [|c cand IH]; intros Hin Hq; [ done | ].
  cbn [fold_left]. rewrite snap_to_window_quiet_at; try done.
  - apply IH; intros c' Hc'; [ apply Hin | apply Hq ]; by right.
  - apply Hin. left.
  - apply Hq. left.
Qed.

(** The screen tests, in exact arithmetic. *)
Lemma screen_correction_exact px py nw nh :
  position_range px -> position_range py -> screen_sized nw -> screen_sized nh ->
  screen_correction sd (screen_width d) (screen_height d) px py nw nh =
  (edge_shift sd px nw (screen_width d), edge_shift sd py nh (screen_height d)).
Proof.
  intros Hpx Hpy Hnw Hnh.
  destruct in_range as (Hsd & _ & _ & Hsw & Hsh & _). fold sd in Hsd.
  destruct (screen_tests_exact sd (screen_width d) (screen_height d) px py nw nh)
    as (T1 & T2 & T3 & T4 & E3 & E4); try done.
  unfold screen_correction, edge_shift. rewrite E3, E4.
  rewrite E3 in T3. rewrite E4 in T4. cbv zeta.
  destruct (decide (near sd px 0)) as [N1|N1];
    destruct (decide (near sd py 0)) as [N2|N2];
    destruct (decide (near sd (px + nw) (screen_width d))) as [N3|N3];
    destruct (decide (near sd (py + nh) (screen_height d))) as [N4|N4];
    repeat match goal with
           | H : near _ ?a ?b, T : _ <-> near _ ?a ?b |- _ =>
               apply T in H; rewrite H; clear T
           | H : ~ near _ ?a ?b, T : ?t = true <-> near _ ?a ?b |- _ =>
               let E := fresh in
               destruct t eqn:E; [ exfalso; apply H, T; reflexivity | ]; clear T
           end;
    unfold screen_sized, position_range, near in *; gint_exact; f_equal; lia.
Qed.

(** The screen tests and the candidates, for a captured window reached
    with no correction yet. *)
Lemma snap_docked_start dw :
  dw ∈ dlist ->
  snap_docked cfg d dlist wlist x y (0, 0) dw =
  fold_left (snap_to_window cfg d dlist dw (win_size d (dw_w dw)).1
               (win_size d (dw_w dw)).2 x y)
    (candidates dlist wlist)
    (edge_shift sd (offset_x dw + x) (win_size d (dw_w dw)).1 (screen_width d),
     edge_shift sd (offset_y dw + y) (win_size d (dw_w dw)).2 (screen_height d)).
Proof.
  intros Hdw.
  destruct in_range as (Hsd & Hx & Hy & Hsw & Hsh & Hd & _).
  destruct (Hd dw Hdw) as (Hox & Hoy & Hnw & Hnh).
  rewrite <- screen_correction_exact; try done; try screen_range.
  unfold snap_docked, candidates. rewrite <- fold_snap_uncaptured.
  destruct (win_size d (dw_w dw)) as [nw nh]. cbn [fst snd] in *.
  replace (offset_x dw +i 0 +i x) with (offset_x dw + x)
    by (unfold screen_sized in *; gint_exact; lia).
  replace (offset_y dw +i 0 +i y) with (offset_y dw + y)
    by (unfold screen_sized in *; gint_exact; lia).
  reflexivity.
Qed.

(** A captured window out of tolerance of everything leaves the
    correction as it is. *)
Lemma snap_docked_quiet_at dw off :
  dw ∈ dlist ->
  screen_sized (x + off.1) -> screen_sized (y + off.2) ->
  group_quiet cfg d [dw] (candidates dlist wlist) (x + off.1) (y + off.2) ->
  snap_docked cfg d dlist wlist x y off dw = off.
Proof.
  intros Hdw Hxo Hyo Hq.
  destruct (Hq dw) as ((Q1 & Q2 & Q3 & Q4) & Hqw); [ left | ].
  pose proof (fold_snap_quiet_at dw off Hdw Hxo Hyo (candidates dlist wlist)
                ltac:(done) Hqw) as Hfold.
  destruct in_range as (Hsd & Hx & Hy & Hsw & Hsh & Hd & _).
  destruct (Hd dw Hdw) as (Hox & Hoy & Hnw & Hnh).
  destruct off as [off_x off_y].
  unfold snap_docked.
  destruct (win_size d (dw_w dw)) as [nw nh]. cbn [fst snd] in *.
  rewrite fold_snap_uncaptured. fold (candidates dlist wlist).
  replace (offset_x dw +i off_x +i x) with (offset_x dw + (x + off_x))
    by (unfold screen_sized in *; gint_exact; lia).
  replace (offset_y dw +i off_y +i y) with (offset_y dw + (y + off_y))
    by (unfold screen_sized in *; gint_exact; lia).
  fold sd in Hsd, Q1, Q2, Q3, Q4 |- *.
  destruct (screen_tests_exact sd (screen_width d) (screen_height d)
              (offset_x dw + (x + off_x)) (offset_y dw + (y + off_y)) nw nh)
    as (T1 & T2 & T3 & T4 & _); try done; try screen_range.
  cbv zeta.
  destruct (Gint.abs (offset_x dw + (x + off_x)) <? sd);
    [ exfalso; apply Q1, T1; done | ].
  destruct (Gint.abs (offset_y dw + (y + off_y)) <? sd);
    [ exfalso; apply Q2, T2; done | ].
  destruct (Gint.abs (offset_x dw + (x + off_x) +i nw -i screen_width d) <? sd);
    [ exfalso; apply Q3, T3; done | ].
  destruct (Gint.abs (offset_y dw + (y + off_y) +i nh -i screen_height d) <? sd);
    [ exfalso; apply Q4, T4; done | ].
  exact Hfold.
Qed.

Lemma fold_docked_quiet_at off :
  screen_sized (x + off.1) -> screen_sized (y + off.2) ->
  forall group,
    (forall dw, dw ∈ group -> dw ∈ dlist) ->
    group_quiet cfg d group (candidates dlist wlist) (x + off.1) (y + off.2) ->
    fold_left (snap_docked cfg d dlist wlist x y) group off = off.
Proof.
  intros Hxo Hyo. induction group as [|dw group IH]; intros Hin Hq; [ done | ].
  cbn [fold_left]. rewrite snap_docked_quiet_at; try done.
  - apply IH; [ intros dw' Hdw'; apply Hin; by right | ].
    intros dw' Hdw'. apply Hq. by right.
  - apply Hin. left.
  - intros dw' Hdw'. apply list_elem_of_singleton in Hdw' as ->. apply Hq. left.
Qed.

(** The correction after a candidate that is not captured, from a zero
    correction. *)
Lemma snap_to_window_first dw c :
  dw ∈ dlist -> c ∈ candidates dlist wlist ->
  let px := offset_x dw + x in
  let py := offset_y dw + y in
  let p := snap sd px py (win_size d (dw_w dw)).1 (win_size d (dw_w dw)).2
             (win_pos d c).1 (win_pos d c).2 (win_size d c).1 (win_size d c).2 in
  snap_to_window cfg d dlist dw (win_size d (dw_w dw)).1 (win_size d (dw_w dw)).2
    x y (0, 0) c = (p.1 - px, p.2 - py).
Proof.
  intros Hdw Hc. cbv zeta.
  destruct (candidates_in_range c Hc) as (Hn & Hcx & Hcy & Hcw & Hch).
  destruct in_range as (Hsd & Hx & Hy & _ & _ & Hd & _).
  destruct (Hd dw Hdw) as (Hox & Hoy & Hnw & Hnh). fold sd in Hsd.
  unfold snap_to_window.
  apply find_docked_None in Hn. rewrite Hn.
  destruct (win_pos d c) as [sx sy], (win_size d c) as [sw sh].
  destruct (win_size d (dw_w dw)) as [nw nh]. cbn [fst snd] in *.
  replace (offset_x dw +i 0 +i x) with (offset_x dw + x)
    by (unfold screen_sized in *; gint_exact; lia).
  replace (offset_y dw +i 0 +i y) with (offset_y dw + y)
    by (unfold screen_sized in *; gint_exact; lia).
  fold sd.
  assert (Hpx : position_range (offset_x dw + x)) by screen_range.
  assert (Hpy : position_range (offset_y dw + y)) by screen_range.
  pose proof (snap_range sd (offset_x dw + x) (offset_y dw + y) nw nh sx sy sw sh
                Hsd Hpx Hpy Hnw Hnh Hcx Hcy Hcw Hch) as [R1 R2].
  destruct (snap sd (offset_x dw + x) (offset_y dw + y) nw nh sx sy sw sh)
    as [nx ny]. cbn [fst snd] in *.
  unfold position_range in *. gint_exact. f_equal; lia.
Qed.

End OneSnap.

(** The captured window [dw], the captured set being at ([x], [y]), is out
    of tolerance of the candidate [c]. *)
Definition window_quiet_at (cfg : Config) (d : Desktop) (dw : DockedWindow)
    (c : nat) (x y : Z) : Prop :=
  window_quiet (snap_distance cfg) (offset_x dw + x) (offset_y dw + y)
    (win_size d (dw_w dw)).1 (win_size d (dw_w dw)).2
    (win_pos d c).1 (win_pos d c).2 (win_size d c).1 (win_size d c).2.

Lemma edge_shift_quiet sd p n scr :
  ~ near sd p 0 -> ~ near sd (p + n) scr -> edge_shift sd p n scr = 0.
Proof.
  intros N1 N2. unfold edge_shift. by rewrite !decide_False by done.
Qed.

Lemma edge_shift_cases sd p n scr :
  (near sd p 0 -> ~ near sd (p + n) scr -> p + edge_shift sd p n scr = 0) /\
  (~ near sd p 0 -> near sd (p + n) scr -> p + edge_shift sd p n scr + n = scr) /\
  (near sd p 0 -> near sd (p + n) scr -> p + edge_shift sd p n scr = scr - n - p).
Proof.
  unfold edge_shift.
  destruct (decide (near sd p 0)), (decide (near sd (p + n) scr));
    repeat split; intros; try done; lia.
Qed.



(** Two captured windows, window 1 docked below window 0, and window 2 to
    the right of window 1, 3 pixels from its right edge. *)
Definition docked_pair : Desktop :=
  mkDesktop
    (fun w => match w with
              | O => (100, 100)
              | 1%nat => (100, 216)
              | _ => (378, 230)
              end)
    (fun w => match w with
              | O => (200, 116)
              | _ => (275, 116)
              end)
    1280 1024.


(* ===================================================================== *)
(** ** layout.c: reading and writing the layout file                      *)
(* ===================================================================== *)

Import Layout.

(** *** Characters and numbers *)

Lemma strcmp_eq a : forall b, strcmp a b = 0 <-> a = b.
Proof.
  induction a as [|c a IH]; intros [|c' b]; simpl; try (split; [ lia | done ]).
  - done.
  - destruct (Ascii.eqb_spec c c') as [->|Hne].
    + rewrite IH. split; congruence.
    + split; [ | congruence ].
      destruct (nat_of_ascii c <? nat_of_ascii c')%nat; lia.
Qed.

Lemma strcmp_refl a : strcmp a a = 0.
Proof. by apply strcmp_eq. Qed.

Lemma strchr_app c l r :
  c ∉ l -> strchr (l ++ c :: r) c = Some (l, r).
Proof.
  induction l as [|a l IH]; intros Hn; simpl.
  - by rewrite Ascii.eqb_refl.
  - apply not_elem_of_cons in Hn as [Hne Hn].
    destruct (Ascii.eqb_spec a c) as [->|_]; [ done | ].
    by rewrite IH.
Qed.

Lemma strchr_None c l : c ∉ l -> strchr l c = None.
Proof.
  induction l as [|a l IH]; intros Hn; simpl; [ done | ].
  apply not_elem_of_cons in Hn as [Hne Hn].
  destruct (Ascii.eqb_spec a c) as [->|_]; [ done | ].
  by rewrite IH.
Qed.

Lemma c_str_id l : NUL ∉ l -> c_str l = l.
Proof.
  induction l as [|a l IH]; intros Hn; simpl; [ done | ].
  apply not_elem_of_cons in Hn as [Hne Hn].
  destruct (Ascii.eqb_spec a NUL) as [->|_]; [ done | ].
  by rewrite IH.
Qed.

(** A line shorter than the buffer is read whole. *)
Lemma read_line_whole l : forall n rest,
  newline ∉ l -> (length l < n)%nat ->
  read_line n (l ++ newline :: rest) = (l ++ [newline], rest).
Proof.
  induction l as [|a l IH]; intros n rest Hn Hlen; simpl in *.
  - destruct n; [ lia | ]. reflexivity.
  - destruct n; [ lia | ]. cbn [read_line].
    apply not_elem_of_cons in Hn as [Hne Hn].
    destruct (Ascii.eqb_spec a newline) as [->|_]; [ done | ].
    rewrite IH; [ done | done | lia ].
Qed.

Lemma digit_char_value d :
  0 <= d <= 9 -> digit_value (digit_char d) = d /\ is_digit (digit_char d) = true.
Proof.
  intros Hd. unfold digit_value, digit_char, is_digit.
  rewrite nat_ascii_embedding by lia. split; [ lia | ].
  apply andb_true_iff. split; apply Nat.leb_le; lia.
Qed.

(** The value of a list of digits, least significant first. *)
Fixpoint digits_value (ds : list ascii) : Z :=
  match ds with
  | [] => 0
  | c :: ds' => digits_value ds' * 10 + digit_value c
  end.

Lemma digits_rev_spec fuel : forall n,
  0 <= n < 10 ^ Z.of_nat fuel ->
  digits_value (digits_rev fuel n) = n /\
  Forall (fun c => is_digit c = true) (digits_rev fuel n).
Proof.
  induction fuel as [|fuel IH]; intros n Hn.
  - simpl in *. split; [ lia | constructor ].
  - rewrite Nat2Z.inj_succ, Z.pow_succ_r in Hn by lia.
    assert (Hmod : 0 <= n `mod` 10 <= 9) by (pose proof (Z.mod_pos_bound n 10); lia).
    destruct (digit_char_value _ Hmod) as [Hv Hd].
    cbn [digits_rev digits_value]. rewrite Hv.
    destruct (Z.eqb_spec (n / 10) 0) as [H0|H0].
    + simpl. split; [ | by repeat constructor ].
      pose proof (Z.div_mod n 10). lia.
    + destruct (IH (n / 10)) as [IHv IHd].
      { split; [ apply Z.div_pos; lia | ].
        apply Z.div_lt_upper_bound; lia. }
      rewrite IHv. split; [ | by constructor ].
      pose proof (Z.div_mod n 10). lia.
Qed.

Lemma scan_digits_rev ds : forall acc,
  Forall (fun c => is_digit c = true) ds ->
  scan_digits acc (rev ds) = acc * 10 ^ Z.of_nat (length ds) + digits_value ds.
Proof.
  induction ds as [|c ds IH] using rev_ind; intros acc Hd.
  - simpl. lia.
  - apply Forall_app in Hd as [Hd Hc]. rewrite Forall_singleton in Hc.
    rewrite rev_app_distr. simpl. rewrite Hc, IH by done.
    rewrite length_app. simpl.
    replace (Z.of_nat (length ds + 1)) with (Z.succ (Z.of_nat (length ds))) by lia.
    rewrite Z.pow_succ_r by lia.
    assert (Hval : forall l, digits_value (l ++ [c]) =
                     digits_value l + digit_value c * 10 ^ Z.of_nat (length l)).
    { clear. induction l as [|a l IHl]; cbn [digits_value app length].
      - simpl. lia.
      - rewrite IHl, Nat2Z.inj_succ, Z.pow_succ_r by lia. lia. }
    rewrite Hval. lia.
Qed.

Definition minus_sign : ascii := ascii_of_nat 45.

Lemma digit_plain c :
  is_digit c = true ->
  is_space c = false /\ Ascii.eqb c minus_sign = false /\
  Ascii.eqb c (ascii_of_nat 43) = false /\
  c <> newline /\ c <> NUL /\ c <> space.
Proof.
  unfold is_digit, is_space. intros H.
  apply andb_true_iff in H as [H1 H2]. apply Nat.leb_le in H1, H2.
  split; [ | split; [ | split; [ | split; [ | split ] ] ] ].
  - apply orb_false_iff. split.
    + apply Nat.eqb_neq. lia.
    + apply andb_false_iff. right. apply Nat.leb_gt. lia.
  - apply Ascii.eqb_neq. intros ->. vm_compute in H1. lia.
  - apply Ascii.eqb_neq. intros ->. vm_compute in H1. lia.
  - intros ->. vm_compute in H1. lia.
  - intros ->. vm_compute in H1. lia.
  - intros ->. vm_compute in H1. lia.
Qed.

Lemma digits_rev_length fuel : forall n, (length (digits_rev fuel n) <= fuel)%nat.
Proof.
  induction fuel as [|fuel IH]; intros n; simpl; [ lia | ].
  destruct (n / 10 =? 0); simpl; [ lia | ]. specialize (IH (n / 10)). lia.
Qed.

(** The characters [format_d] writes. *)
Definition number_char (c : ascii) : Prop := is_digit c = true \/ c = minus_sign.

Lemma wrap_bounds z : -2147483648 <= Gint.wrap z <= 2147483647.
Proof. apply wrap_in_range. Qed.

Lemma format_d_chars z :
  Forall number_char (format_d z) /\ (length (format_d z) <= 11)%nat.
Proof.
  unfold format_d. pose proof (wrap_bounds z) as Hw.
  destruct (Z.ltb_spec (Gint.wrap z) 0) as [Hneg|Hpos].
  - destruct (digits_rev_spec 10 (- Gint.wrap z)) as [_ Hd]; [ simpl; lia | ].
    split.
    + constructor; [ by right | ].
      apply Forall_rev. eapply Forall_impl; [ exact Hd | ]. by left.
    + cbn [length]. rewrite length_rev.
      pose proof (digits_rev_length 10 (- Gint.wrap z)). lia.
  - destruct (digits_rev_spec 10 (Gint.wrap z)) as [_ Hd]; [ simpl; lia | ].
    split.
    + apply Forall_rev. eapply Forall_impl; [ exact Hd | ]. by left.
    + rewrite length_rev. pose proof (digits_rev_length 10 (Gint.wrap z)). lia.
Qed.

Lemma number_char_plain c :
  number_char c -> c <> newline /\ c <> NUL /\ c <> space.
Proof.
  intros [Hd| ->].
  - destruct (digit_plain c Hd) as (_ & _ & _ & ? & ? & ?). done.
  - repeat split; discriminate.
Qed.

(** A list of digits that is not empty starts with a digit. *)
Lemma rev_digits_head fuel n :
  0 <= n < 10 ^ Z.of_nat (S fuel) ->
  exists c rest, rev (digits_rev (S fuel) n) = c :: rest /\ is_digit c = true.
Proof.
  intros Hn. destruct (digits_rev_spec (S fuel) n Hn) as [_ Hd].
  apply Forall_rev in Hd.
  destruct (rev (digits_rev (S fuel) n)) as [|c rest] eqn:E.
  - apply (f_equal length) in E. rewrite length_rev in E. simpl in E. lia.
  - exists c, rest. split; [ done | ]. by inversion Hd.
Qed.

Lemma scan_digits_all fuel n :
  0 <= n < 10 ^ Z.of_nat fuel ->
  scan_digits 0 (rev (digits_rev fuel n)) = n.
Proof.
  intros Hn. destruct (digits_rev_spec fuel n Hn) as [Hv Hd].
  rewrite scan_digits_rev by done. lia.
Qed.

(** What [printf] writes for "%d", [sscanf] reads back. *)
Lemma sscanf_format_d z : sscanf_d (format_d z) = Some (Gint.wrap z).
Proof.
  unfold format_d, sscanf_d. pose proof (wrap_bounds z) as Hw.
  destruct (Z.ltb_spec (Gint.wrap z) 0) as [Hneg|Hpos].
  - change (skip_spaces (ascii_of_nat 45 :: rev (digits_rev 10 (- Gint.wrap z))))
      with (ascii_of_nat 45 :: rev (digits_rev 10 (- Gint.wrap z))).
    destruct (rev_digits_head 9 (- Gint.wrap z)) as (c & rest & E & Hc);
      [ simpl; lia | ].
    pose proof (scan_digits_all 10 (- Gint.wrap z) ltac:(simpl; lia)) as Hs.
    rewrite E in Hs |- *.
    change (Ascii.eqb (ascii_of_nat 45) (ascii_of_nat 45)) with true.
    cbv iota beta. rewrite Hc, Hs.
    f_equal. rewrite Z.opp_involutive. apply wrap_wrap.
  - destruct (rev_digits_head 9 (Gint.wrap z)) as (c & rest & E & Hc);
      [ simpl; lia | ].
    pose proof (scan_digits_all 10 (Gint.wrap z) ltac:(simpl; lia)) as Hs.
    rewrite E in Hs |- *.
    destruct (digit_plain c Hc) as (Hsp & Hm & Hp & _).
    cbn [skip_spaces]. rewrite Hsp.
    unfold minus_sign in Hm. rewrite Hm, Hp, Hc, Hs.
    f_equal. apply wrap_wrap.
Qed.

(** *** Lines *)

(** One line of the layout file: a key, a space, a value and a newline,
    followed by [rest]. *)
Definition file_line (key value rest : list ascii) : list ascii :=
  key ++ space :: value ++ newline :: rest.

(** A key or a value that [parse_next] gives back as it was written. *)
Definition plain_key (key : list ascii) : Prop :=
  (space ∉ key) /\ (newline ∉ key) /\ (NUL ∉ key).
Definition plain_value (value : list ascii) : Prop :=
  (newline ∉ value) /\ (NUL ∉ value).

Lemma parse_next_line k v key value rest :
  plain_key key -> plain_value value ->
  (length key + length value < 510)%nat ->
  parse_next (mkParser k v (file_line key value rest)) =
  mkParser key (Some value) rest.
Proof.
  intros (Hks & Hkn & Hk0) (Hvn & Hv0) Hlen. unfold parse_next, file_line. simpl.
  assert (Hfgets : fgets 512 (key ++ space :: value ++ newline :: rest) =
                   Some (key ++ space :: value ++ [newline], rest)).
  { unfold fgets.
    replace (key ++ space :: value ++ newline :: rest)
      with ((key ++ space :: value) ++ newline :: rest)
      by (by rewrite <- app_assoc).
    rewrite read_line_whole.
    - rewrite <- !app_assoc. by destruct key.
    - apply not_elem_of_app. split; [ done | ].
      apply not_elem_of_cons. split; [ discriminate | done ].
    - rewrite length_app. simpl. lia. }
  rewrite Hfgets.
  rewrite c_str_id.
  2:{ apply not_elem_of_app. split; [ done | ].
      apply not_elem_of_cons. split; [ discriminate | ].
      apply not_elem_of_app. split; [ done | ].
      apply not_elem_of_cons. split; [ discriminate | apply not_elem_of_nil ]. }
  rewrite strchr_app by done.
  by rewrite strchr_app.
Qed.

Lemma parse_next_eof k v : parse_next (mkParser k v []) = mkParser k None [].
Proof. reflexivity. Qed.

Lemma parse_string_line key value rest :
  parse_string (mkParser key (Some value) rest) key = Some value.
Proof. unfold parse_string. simpl. by rewrite strcmp_refl. Qed.

Lemma parse_integer_line key z rest :
  parse_integer (mkParser key (Some (format_d z)) rest) key = Some (Gint.wrap z).
Proof. unfold parse_integer. simpl. rewrite strcmp_refl. apply sscanf_format_d. Qed.

Lemma parse_integer_eof k key : parse_integer (mkParser k None []) key = None.
Proof. reflexivity. Qed.

Lemma parse_string_eof k key : parse_string (mkParser k None []) key = None.
Proof. reflexivity. Qed.

Lemma format_d_plain z :
  plain_value (format_d z) /\ (length (format_d z) <= 11)%nat.
Proof.
  destruct (format_d_chars z) as [Hc Hl]. split; [ | done ].
  rewrite Forall_forall in Hc.
  split; intros Hin; apply Hc in Hin; apply number_char_plain in Hin; tauto.
Qed.

(** The lines of the record of an item. *)
Definition record_lines (it : Item) : list (list ascii * list ascii) :=
  [ (lit "item", item_name it);
    (lit "pane", format_d (item_dock it));
    (lit "x", format_d (item_x it));
    (lit "y", format_d (item_y it));
    (lit "w", format_d (item_w it));
    (lit "h", format_d (item_h it)) ].

(** The text of lines, followed by [rest]. *)
Definition lines_text (lines : list (list ascii * list ascii))
    (rest : list ascii) : list ascii :=
  foldr (fun kv acc => file_line kv.1 kv.2 acc) rest lines.

Lemma item_record_lines it rest :
  item_record it ++ rest = lines_text (record_lines it) rest.
Proof.
  unfold item_record, lines_text, record_lines, file_line. simpl.
  repeat (rewrite <- app_assoc; simpl). reflexivity.
Qed.

(** A name that [layout_add] accepts, and that a C string can be. *)
Definition valid_name (name : list ascii) : Prop :=
  (newline ∉ name) /\ (NUL ∉ name) /\ (length name <= 256)%nat.

(** An item as [layout_load] makes it from its record. *)
Definition loaded_item (it : Item) : Item :=
  mkItem (item_name it) None None None None
    (Gint.wrap (item_dock it)) (Gint.wrap (item_x it)) (Gint.wrap (item_y it))
    (Gint.wrap (item_w it)) (Gint.wrap (item_h it)).

(** An item as [layout_load] leaves it when its record ends after [k]
    lines: the fields of the lines read, and what [item_new] sets for the
    others. *)
Definition partial_item (it : Item) (k : nat) : Item :=
  mkItem (item_name it) None None None None
    (if (2 <=? k)%nat then Gint.wrap (item_dock it) else -1)
    (if (3 <=? k)%nat then Gint.wrap (item_x it) else -1)
    (if (4 <=? k)%nat then Gint.wrap (item_y it) else -1)
    (if (5 <=? k)%nat then Gint.wrap (item_w it) else 0)
    (if (6 <=? k)%nat then Gint.wrap (item_h it) else 0).

Lemma alter_last {A} (f : A -> A) (l : list A) (x : A) :
  alter f (length l) (l ++ [x]) = l ++ [f x].
Proof. induction l as [|a l IH]; simpl; [ done | ]. by rewrite <- IH. Qed.

Lemma set_item_last f l it s :
  items s = l ++ [it] ->
  set_item (length l) f s = (Done tt, with_items (l ++ [f it]) s).
Proof.
  intros Hs. unfold set_item, modify. by rewrite Hs, alter_last.
Qed.

Ltac plain_literal :=
  repeat split; intros Hin;
  repeat (apply elem_of_cons in Hin as [Hin|Hin]; [ discriminate Hin | ]);
  inversion Hin.

Lemma plain_key_item : plain_key (lit "item").
Proof. plain_literal. Qed.
Lemma plain_key_pane : plain_key (lit "pane").
Proof. plain_literal. Qed.
Lemma plain_key_x : plain_key (lit "x").
Proof. plain_literal. Qed.
Lemma plain_key_y : plain_key (lit "y").
Proof. plain_literal. Qed.
Lemma plain_key_w : plain_key (lit "w").
Proof. plain_literal. Qed.
Lemma plain_key_h : plain_key (lit "h").
Proof. plain_literal. Qed.

Lemma with_items_twice a b s : with_items a (with_items b s) = with_items a s.
Proof. reflexivity. Qed.

(** Reads one line that was written for an integer field. *)
Lemma parse_integer_next k v key z rest :
  plain_key key -> (length key <= 4)%nat ->
  parse_integer (parse_next (mkParser k v (file_line key (format_d z) rest))) key
    = Some (Gint.wrap z) /\
  parse_next (mkParser k v (file_line key (format_d z) rest))
    = mkParser key (Some (format_d z)) rest.
Proof.
  intros Hk Hlen. destruct (format_d_plain z) as [Hp Hl].
  rewrite parse_next_line by (try done; lia).
  split; [ apply parse_integer_line | done ].
Qed.

(** One turn of the loop of [layout_load] on the whole record of an item. *)
Lemma load_loop_record fuel k v it rest s :
  valid_name (item_name it) ->
  load_loop (S fuel) (mkParser k v (item_record it ++ rest)) s =
  load_loop fuel (mkParser (lit "h") (Some (format_d (item_h it))) rest)
    (with_items (items s ++ [loaded_item it]) s).
Proof.
  intros (Hn1 & Hn2 & Hn3).
  rewrite item_record_lines. unfold record_lines, lines_text. cbn [foldr fst snd].
  cbn [load_loop].
  rewrite parse_next_line by (first [ apply plain_key_item | done | simpl; lia ]).
  rewrite parse_string_line. unfold bind at 1. cbn [item_new].
  destruct (parse_integer_next (lit "item") (Some (item_name it)) (lit "pane")
              (item_dock it)
              (file_line (lit "x") (format_d (item_x it))
                 (file_line (lit "y") (format_d (item_y it))
                    (file_line (lit "w") (format_d (item_w it))
                       (file_line (lit "h") (format_d (item_h it)) rest))))
              plain_key_pane ltac:(simpl; lia)) as [-> ->].
  unfold bind at 1.
  erewrite set_item_last by reflexivity. rewrite with_items_twice.
  destruct (parse_integer_next (lit "pane") (Some (format_d (item_dock it)))
              (lit "x") (item_x it)
              (file_line (lit "y") (format_d (item_y it))
                 (file_line (lit "w") (format_d (item_w it))
                    (file_line (lit "h") (format_d (item_h it)) rest)))
              plain_key_x ltac:(simpl; lia)) as [-> ->].
  unfold bind at 1.
  erewrite set_item_last by reflexivity. rewrite with_items_twice.
  destruct (parse_integer_next (lit "x") (Some (format_d (item_x it)))
              (lit "y") (item_y it)
              (file_line (lit "w") (format_d (item_w it))
                 (file_line (lit "h") (format_d (item_h it)) rest))
              plain_key_y ltac:(simpl; lia)) as [-> ->].
  unfold bind at 1.
  erewrite set_item_last by reflexivity. rewrite with_items_twice.
  destruct (parse_integer_next (lit "y") (Some (format_d (item_y it)))
              (lit "w") (item_w it)
              (file_line (lit "h") (format_d (item_h it)) rest)
              plain_key_w ltac:(simpl; lia)) as [-> ->].
  unfold bind at 1.
  erewrite set_item_last by reflexivity. rewrite with_items_twice.
  destruct (parse_integer_next (lit "w") (Some (format_d (item_w it)))
              (lit "h") (item_h it) rest
              plain_key_h ltac:(simpl; lia)) as [-> ->].
  unfold bind at 1.
  erewrite set_item_last by reflexivity. rewrite with_items_twice.
  reflexivity.
Qed.

Ltac read_field key_plain :=
  match goal with
  | |- context [parse_next (mkParser ?k ?v (file_line ?key (format_d ?z) ?rest))] =>
      destruct (parse_integer_next k v key z rest key_plain ltac:(simpl; lia))
        as [-> ->];
      unfold bind at 1;
      erewrite set_item_last by reflexivity; rewrite with_items_twice
  end.

Ltac read_end :=
  rewrite parse_next_eof; first [ rewrite parse_integer_eof | rewrite parse_string_eof ].

Lemma load_loop_eof fuel k v s :
  load_loop (S fuel) (mkParser k v []) s = (Done tt, s).
Proof. reflexivity. Qed.

(** One turn of the loop of [layout_load] on a record that ends, and the
    file with it, after [n] of its six lines. *)
Lemma load_loop_truncated fuel k v it n s :
  valid_name (item_name it) ->
  (1 <= n <= 5)%nat ->
  load_loop (S fuel)
    (mkParser k v (lines_text (take n (record_lines it)) [])) s =
  (Done tt, with_items (items s ++ [partial_item it n]) s).
Proof.
  intros (Hn1 & Hn2 & Hn3) Hn.
  destruct n as [|[|[|[|[|[|n]]]]]]; try lia;
    unfold record_lines, lines_text; cbn [take foldr fst snd];
    cbn [load_loop];
    rewrite parse_next_line by (first [ apply plain_key_item | done | simpl; lia ]);
    rewrite parse_string_line; unfold bind at 1; cbn [item_new].
  - read_end. reflexivity.
  - read_field plain_key_pane. read_end. reflexivity.
  - read_field plain_key_pane. read_field plain_key_x. read_end. reflexivity.
  - read_field plain_key_pane. read_field plain_key_x. read_field plain_key_y.
    read_end. reflexivity.
  - read_field plain_key_pane. read_field plain_key_x. read_field plain_key_y.
    read_field plain_key_w. read_end. reflexivity.
Qed.

(** The text [layout_save] writes for a list of items. *)
Definition items_text (its : list Item) : list ascii :=
  concat (map item_record its).

Lemma with_items_same s : with_items (items s) s = s.
Proof. by destruct s. Qed.

(** The loop of [layout_load] on the records of a list of items, followed
    by [tail]: the items are appended in order, and the loop goes on with
    [tail]. *)
Lemma load_loop_records its : forall fuel k v tail s,
  Forall (fun it => valid_name (item_name it)) its ->
  exists k' v',
    load_loop (length its + fuel) (mkParser k v (items_text its ++ tail)) s =
    load_loop fuel (mkParser k' v' tail)
      (with_items (items s ++ map loaded_item its) s).
Proof.
  induction its as [|it its IH]; intros fuel k v tail s Hvalid.
  - exists k, v. simpl. by rewrite app_nil_r, with_items_same.
  - apply Forall_cons in Hvalid as [Hit Hvalid].
    unfold items_text. cbn [map concat length Nat.add].
    rewrite <- app_assoc, load_loop_record by done.
    destruct (IH fuel (lit "h") (Some (format_d (item_h it))) tail
                (with_items (items s ++ [loaded_item it]) s) Hvalid)
      as (k' & v' & Hrun).
    exists k', v'. unfold items_text in Hrun. rewrite Hrun.
    rewrite with_items_twice. cbn [items with_items].
    by rewrite <- app_assoc.
Qed.

Lemma item_record_length it : (1 <= length (item_record it))%nat.
Proof. unfold item_record. simpl. lia. Qed.

Lemma items_text_length its : (length its <= length (items_text its))%nat.
Proof.
  induction its as [|it its IH]; [ done | ].
  unfold items_text in *. cbn [map concat length]. rewrite length_app.
  pose proof (item_record_length it). lia.
Qed.

(** [layout_load] on a state without items. *)
Lemma layout_load_unfold s content :
  items s = [] -> layout_file s = Some content ->
  layout_load s =
  returning tt (load_loop (S (length content)) (mkParser [] None content)) s.
Proof.
  intros Hi Hf. unfold layout_load, returning, bind, gets, g_return_if_fail.
  rewrite Hi. rewrite bool_decide_eq_true_2 by done. rewrite Hf. reflexivity.
Qed.

(** The items the file holds, complete records first and then a record
    that is cut short after [n] lines ([n] = 0: no such record). *)
Lemma layout_load_file s its last n :
  items s = [] ->
  layout_file s = Some (items_text its ++ lines_text (take n (record_lines last)) []) ->
  Forall (fun it => valid_name (item_name it)) its ->
  valid_name (item_name last) ->
  (n <= 5)%nat ->
  layout_load s =
  (Done tt,
   with_items (map loaded_item its ++
               match n with O => [] | _ => [partial_item last n] end) s).
Proof.
  intros Hi Hf Hvalid Hlast Hn.
  rewrite (layout_load_unfold s _ Hi Hf). unfold returning.
  set (tail := lines_text (take n (record_lines last)) []).
  pose proof (items_text_length its) as Hlen.
  replace (S (length (items_text its ++ tail)))
    with (length its + S (length (items_text its ++ tail) - length its))%nat
    by (rewrite length_app in *; lia).
  destruct (load_loop_records its
              (S (length (items_text its ++ tail) - length its)) [] None tail s
              Hvalid) as (k' & v' & ->).
  rewrite Hi. cbn [app]. unfold tail.
  destruct n as [|n].
  - cbn [take lines_text foldr]. rewrite load_loop_eof. by rewrite app_nil_r.
  - rewrite load_loop_truncated by (try done; lia).
    by rewrite with_items_twice.
Qed.

(** *** Saving *)

(** What [item_save_size] makes of an item: the size allocated to its box,
    and the position of its window when it floats. *)
Definition measured (g : Gtk) (it : Item) : Item :=
  match item_widget it, item_vbox it with
  | Some _, Some vbox =>
      let it' := with_h (allocation g vbox).2 (with_w (allocation g vbox).1 it) in
      if item_dock it <? 0 then
        match item_window it with
        | Some win =>
            with_y (window_position g win).2 (with_x (window_position g win).1 it')
        | None => it'
        end
      else it'
  | _, _ => it
  end.

(** The guards of [item_save_size] hold. *)
Definition measurable (it : Item) : bool :=
  is_some (item_widget it) && is_some (item_vbox it) &&
  ((0 <=? item_dock it) || is_some (item_window it)).

Lemma alter_alter {A} (f g : A -> A) i (l : list A) x :
  l !! i = Some x -> alter f i (alter g i l) = <[i := f (g x)]> l.
Proof.
  revert i. induction l as [|a l IH]; intros [|i] H; simpl in *; try done.
  - by injection H as ->.
  - f_equal. by apply IH.
Qed.

Lemma alter_insert {A} (f : A -> A) i (l : list A) x :
  <[i := x]> l !! i = Some x -> alter f i (<[i := x]> l) = <[i := f x]> l.
Proof.
  revert i. induction l as [|a l IH]; intros [|i] H; simpl in *; try done.
  f_equal. by apply IH.
Qed.

Lemma item_save_size_run i s it :
  items s !! i = Some it ->
  item_save_size i s =
  (Done tt,
   with_gtk (if measurable it then gtk s
             else with_call (G_critical "item_save_size") (gtk s))
     (with_items (<[i := measured (gtk s) it]> (items s)) s)).
Proof.
  intros Hi. unfold item_save_size, returning, bind, get_item, measured, measurable.
  rewrite Hi. unfold g_return_if_fail.
  assert (Hsame : <[i := it]> (items s) = items s) by (by apply list_insert_id).
  destruct (item_widget it) as [wd|] eqn:Ewd; cbn [is_some andb];
    [ | rewrite Hsame, with_items_same; reflexivity ].
  destruct (item_vbox it) as [vbox|] eqn:Evb; cbn [is_some andb];
    [ | rewrite Hsame, with_items_same; reflexivity ].
  unfold gets, set_item, modify, when. cbn [items with_items gtk].
  rewrite (alter_alter _ _ i (items s) it Hi).
  assert (Hlook : forall x, <[i := x]> (items s) !! i = Some x).
  { intros x. apply list_lookup_insert_eq. by eapply lookup_lt_Some. }
  destruct (Z.ltb_spec (item_dock it) 0) as [Hneg|Hpos].
  - replace (0 <=? item_dock it) with false by (symmetry; apply Z.leb_gt; lia).
    cbn [orb].
    destruct (item_window it) as [win|] eqn:Ewin; cbn [is_some].
    + cbn [items with_items gtk]. rewrite alter_insert by apply Hlook.
      rewrite alter_insert by apply Hlook.
      by destruct s.
    + by destruct s.
  - replace (0 <=? item_dock it) with true by (symmetry; apply Z.leb_le; lia).
    by destruct s.
Qed.

Lemma measured_fields g it :
  item_name (measured g it) = item_name it /\
  item_dock (measured g it) = item_dock it /\
  item_widget (measured g it) = item_widget it /\
  item_vbox (measured g it) = item_vbox it /\
  item_paned (measured g it) = item_paned it /\
  item_window (measured g it) = item_window it.
Proof.
  unfold measured.
  destruct (item_widget it) eqn:E1, (item_vbox it) eqn:E2; try done.
  destruct (item_dock it <? 0); [ | by rewrite <- E1, <- E2 ].
  destruct (item_window it) eqn:E3; simpl; by rewrite <- E1, <- E2, <- ?E3.
Qed.

(** [item_save_size] changes toolkit state by a warning at most. *)
Definition same_toolkit (g g' : Gtk) : Prop :=
  next_widget g' = next_widget g /\ children g' = children g /\
  parent g' = parent g /\ object_data g' = object_data g /\
  held g' = held g /\ allocation g' = allocation g /\
  window_position g' = window_position g.

Lemma same_toolkit_refl g : same_toolkit g g.
Proof. by repeat split. Qed.

Lemma same_toolkit_call g c : same_toolkit g (with_call c g).
Proof. by repeat split. Qed.

(** The loop of [layout_save]: the text of the items from [node] on, as
    the loop leaves them, is appended to [out]. *)
Lemma save_loop_run count : forall node out s,
  (node + count = length (items s))%nat ->
  exists s',
    save_loop count node out s =
      (Done (out ++ items_text (drop node (items s'))), s') /\
    length (items s') = length (items s) /\
    take node (items s') = take node (items s) /\
    layout_file s' = layout_file s /\
    user_dir_writable s' = user_dir_writable s.
Proof.
  induction count as [|count IH]; intros node out s Hlen.
  - exists s. simpl. rewrite drop_ge by lia. unfold items_text. simpl.
    by rewrite app_nil_r.
  - destruct (lookup_lt_is_Some_2 (items s) node) as [it Hit]; [ lia | ].
    cbn [save_loop]. unfold bind at 1. unfold get_item at 1. rewrite Hit.
    set (s1 := if is_some (item_widget it)
               then (item_save_size node s).2 else s).
    assert (Hs1 : exists it1,
               items s1 = <[node := it1]> (items s) /\
               layout_file s1 = layout_file s /\
               user_dir_writable s1 = user_dir_writable s).
    { unfold s1. destruct (is_some (item_widget it)).
      - rewrite (item_save_size_run node s it Hit). cbn [snd].
        exists (measured (gtk s) it). by destruct s.
      - exists it. split; [ | done ]. symmetry. by apply list_insert_id. }
    destruct Hs1 as (it1 & Hit1 & Hf1 & Hw1).
    assert (Hrun1 : when (is_some (item_widget it)) (item_save_size node) s
                    = (Done tt, s1)).
    { unfold when, s1. destruct (is_some (item_widget it)); [ | done ].
      by rewrite (item_save_size_run node s it Hit). }
    unfold bind at 1. rewrite Hrun1.
    assert (Hlook1 : items s1 !! node = Some it1).
    { rewrite Hit1. apply list_lookup_insert_eq. lia. }
    unfold bind at 1. unfold get_item at 1. rewrite Hlook1.
    destruct (IH (S node) (out ++ item_record it1) s1) as (s' & Hrun & Hl & Ht & Hf & Hw).
    { rewrite Hit1, length_insert. lia. }
    exists s'. rewrite Hrun.
    assert (Hnode : items s' !! node = Some it1).
    { rewrite <- (lookup_take_lt (items s') (S node) node) by lia.
      rewrite Ht. rewrite lookup_take_lt by lia. done. }
    split; [ | split; [ | split; [ | split ] ] ].
    + rewrite (drop_S (items s') it1 node Hnode).
      unfold items_text. cbn [map concat]. by rewrite <- app_assoc.
    + rewrite Hl, Hit1. apply length_insert.
    + apply (f_equal (take node)) in Ht.
      rewrite !take_take in Ht. rewrite !Nat.min_l in Ht by lia.
      rewrite Ht, Hit1. apply take_insert_ge. lia.
    + congruence.
    + congruence.
Qed.

(** [layout_save] writes the records of the items as it leaves them. *)
Lemma layout_save_run s :
  user_dir_writable s = true ->
  exists s',
    layout_save s = (Done tt, s') /\
    layout_file s' = Some (items_text (items s')) /\
    length (items s') = length (items s).
Proof.
  intros Hw. unfold layout_save, returning, bind at 1, gets at 1.
  rewrite Hw. unfold bind at 1, g_return_if_fail. unfold bind at 1, modify at 1.
  unfold bind at 1, gets at 1.
  destruct (save_loop_run (length (items (with_layout_file (Some []) s))) 0 []
              (with_layout_file (Some []) s)) as (s' & Hrun & Hl & _ & _ & _);
    [ simpl; lia | ].
  unfold bind. rewrite Hrun. unfold modify.
  exists (with_layout_file (Some ([] ++ items_text (drop 0 (items s')))) s').
  split; [ done | ]. split; [ | done ].
  by rewrite drop_0.
Qed.

(** *** The claims about the layout file *)

(** The fields of an item are [gint]s. *)
Definition gint_fields (it : Item) : Prop :=
  Gint.in_range (item_dock it) /\ Gint.in_range (item_x it) /\
  Gint.in_range (item_y it) /\ Gint.in_range (item_w it) /\
  Gint.in_range (item_h it).

(** An item as the data model has it. *)
Definition well_formed (it : Item) : Prop :=
  valid_name (item_name it) /\ gint_fields it.

Lemma saved_fields_loaded it :
  gint_fields it -> saved_fields (loaded_item it) = saved_fields it.
Proof.
  intros (H1 & H2 & H3 & H4 & H5). unfold saved_fields, loaded_item. simpl.
  by rewrite !wrap_id.
Qed.

Lemma saved_fields_loaded_all its :
  Forall well_formed its ->
  map saved_fields (map loaded_item its) = map saved_fields its.
Proof.
  induction 1 as [|it its [_ Hit] _ IH]; [ done | ]. simpl.
  by rewrite saved_fields_loaded, IH.
Qed.

(** The state of a program that has just started, with a layout file. *)
Definition started (file : option (list ascii)) : State :=
  mkState [] None None [None; None; None; None] None file true
    (mkGtk 0 (fun _ => []) (fun _ => None) ∅ [] (fun _ => (0, 0))
       (fun _ => (0, 0)) []).

(** A layout file whose second record lacks its last line. *)
Definition truncated_file : list ascii :=
  lit "item playlist
pane 1
x 2
y 3
w 4
h 5
item search tool
pane 0
x 7
y 8
w 9
".

(** C1, as stated, fails: the record that is cut short leaves an item of
    its own in the list, after the items of the complete records. *)
Lemma layout_load_keeps_truncated_item :
  let s := (layout_load (started (Some truncated_file))).2 in
  map saved_fields (items s) =
    [ (lit "playlist", 1, 2, 3, 4, 5); (lit "search tool", 0, 7, 8, 9, 0) ] /\
  map saved_fields (items s) <> [ (lit "playlist", 1, 2, 3, 4, 5) ].
Proof.
  cbv zeta.
  assert (H : map saved_fields (items (layout_load (started (Some truncated_file))).2)
              = [ (lit "playlist", 1, 2, 3, 4, 5);
                  (lit "search tool", 0, 7, 8, 9, 0) ])
    by (vm_compute; reflexivity).
  split; [ exact H | ]. rewrite H. discriminate.
Qed.

(** C1, amended.  When the layout file holds the records of the items
    [its] and then a record that ends, and the file with it, after [n] of
    its six lines (the item line and [n - 1] of the five fields), then
    after [layout_load] the item list holds the items of the complete
    records in file order, followed by one item for the record that was cut
    short: it has the name and the fields that were read, and for the
    others what [item_new] sets (-1 for pane, x and y, 0 for w and h). *)
Theorem layout_load_truncated_record s its last n :
  items s = [] ->
  Forall well_formed its ->
  well_formed last ->
  (1 <= n <= 5)%nat ->
  layout_file s =
    Some (items_text its ++ lines_text (take n (record_lines last)) []) ->
  (layout_load s).1 = Done tt /\
  map saved_fields (items (layout_load s).2) =
    map saved_fields its ++ [saved_fields (partial_item last n)].
Proof.
  intros Hi Hits [Hlast _] Hn Hf.
  rewrite (layout_load_file s its last n Hi Hf); try done; try lia.
  - split; [ done | ]. cbn [snd items with_items].
    destruct n as [|n]; [ lia | ].
    by rewrite map_app, saved_fields_loaded_all.
  - eapply Forall_impl; [ exact Hits | ]. by intros it [? _].
Qed.

Lemma layout_load_truncated_record_witness :
  let playlist := mkItem (lit "playlist") None None None None 1 2 3 4 5 in
  let search := mkItem (lit "search tool") None None None None 0 7 8 9 10 in
  truncated_file =
    items_text [playlist] ++ lines_text (take 5 (record_lines search)) [] /\
  map saved_fields (items (layout_load (started (Some truncated_file))).2) =
    [ saved_fields playlist; saved_fields (partial_item search 5) ].
Proof.
  cbv zeta.
  assert (Hfile : truncated_file =
            items_text [mkItem (lit "playlist") None None None None 1 2 3 4 5] ++
            lines_text
              (take 5 (record_lines
                         (mkItem (lit "search tool") None None None None 0 7 8 9 10)))
              []) by (vm_compute; reflexivity).
  split; [ exact Hfile | ].
  apply (layout_load_truncated_record (started (Some truncated_file))
           [mkItem (lit "playlist") None None None None 1 2 3 4 5]
           (mkItem (lit "search tool") None None None None 0 7 8 9 10) 5).
  - reflexivity.
  - apply Forall_singleton. repeat split; try (simpl; lia);
      try (vm_compute; intros H; discriminate H);
      try (intros Hin; repeat (apply elem_of_cons in Hin as [Hin|Hin];
                               [ discriminate Hin | ]); inversion Hin).
  - repeat split; try (simpl; lia);
      try (vm_compute; intros H; discriminate H);
      try (intros Hin; repeat (apply elem_of_cons in Hin as [Hin|Hin];
                               [ discriminate Hin | ]); inversion Hin).
  - lia.
  - simpl layout_file. by rewrite Hfile.
Defined.

(** [layout_save] followed by [layout_load] on an empty item list gives
    back the items as [layout_save] has left them, with the same name,
    dock, x, y, w and h, in the same order: for every state in which the
    file can be written and whose items, as [layout_save] leaves them, are
    well formed.  An empty layout loads as no items. *)
Lemma layout_save_load_round_trip s :
  user_dir_writable s = true ->
  let saved := (layout_save s).2 in
  let loaded := (layout_load (with_items [] saved)).2 in
  Forall well_formed (items saved) ->
  (layout_save s).1 = Done tt /\
  (layout_load (with_items [] saved)).1 = Done tt /\
  map saved_fields (items loaded) = map saved_fields (items saved) /\
  (items s = [] -> items loaded = []).
Proof.
  intros Hw. cbv zeta.
  destruct (layout_save_run s Hw) as (s' & Hrun & Hfile & Hlen).
  rewrite Hrun. cbn [fst snd]. intros Hwf.
  assert (Hload : layout_load (with_items [] s') =
                  (Done tt, with_items (map loaded_item (items s') ++ [])
                              (with_items [] s'))).
  { apply (layout_load_file (with_items [] s') (items s') (mkItem [] None None
             None None 0 0 0 0 0) 0).
    - reflexivity.
    - simpl. rewrite Hfile. by rewrite app_nil_r.
    - eapply Forall_impl; [ exact Hwf | ]. by intros it [? _].
    - repeat split; try apply not_elem_of_nil. simpl. lia.
    - lia. }
  rewrite Hload. cbn [fst snd items with_items]. rewrite app_nil_r.
  split; [ done | ]. split; [ done | ]. split.
  - by apply saved_fields_loaded_all.
  - intros Hempty. rewrite Hempty in Hlen.
    destruct (items s'); [ done | simpl in Hlen; lia ].
Qed.

(** Proves that a literal item is well formed. *)
Ltac literal_well_formed :=
  unfold well_formed, valid_name, gint_fields, Gint.in_range,
    Gint.min_int, Gint.max_int; simpl;
  repeat split; try lia;
  intros Hin;
  repeat (apply elem_of_cons in Hin as [Hin|Hin]; [ discriminate Hin | ]);
  inversion Hin.

(** A placeholder docked at the right, and a floating panel whose box is
    allocated 300 x 200 and whose window is at (50, 60). *)
Definition two_panels : State :=
  mkState
    [ mkItem (lit "playlist") None None None None 1 2 3 4 5;
      mkItem (lit "search tool") (Some 5%nat) (Some 6%nat) None (Some 7%nat)
        (-1) 10 20 30 40 ]
    (Some 0%nat) (Some 1%nat) [None; None; None; None] None None true
    (mkGtk 8
       (fun w => match w with
                 | O => [1%nat]
                 | 6%nat => [5%nat]
                 | 7%nat => [6%nat]
                 | _ => []
                 end)
       (fun w => match w with
                 | 1%nat => Some 0%nat
                 | 5%nat => Some 6%nat
                 | 6%nat => Some 7%nat
                 | _ => None
                 end)
       ∅ [] (fun _ => (300, 200)) (fun _ => (50, 60)) []).

Lemma layout_save_load_round_trip_witness :
  map saved_fields
    (items (layout_load (with_items [] (layout_save two_panels).2)).2) =
  [ (lit "playlist", 1, 2, 3, 4, 5); (lit "search tool", -1, 50, 60, 300, 200) ].
Proof.
  assert (Hsaved : items (layout_save two_panels).2 =
            [ mkItem (lit "playlist") None None None None 1 2 3 4 5;
              mkItem (lit "search tool") (Some 5%nat) (Some 6%nat) None
                (Some 7%nat) (-1) 50 60 300 200 ])
    by (vm_compute; reflexivity).
  destruct (layout_save_load_round_trip two_panels eq_refl) as (_ & _ & H & _).
  - rewrite Hsaved. repeat constructor; literal_well_formed.
  - rewrite H, Hsaved. reflexivity.
Defined.

(* ===================================================================== *)
(** ** layout.c: adding and removing panels                               *)
(* ===================================================================== *)

(** An item without a widget: as [layout_load] makes it, or as
    [layout_remove] leaves it. *)
Definition placeholder (it : Item) : Prop :=
  item_widget it = None /\ item_vbox it = None /\
  item_paned it = None /\ item_window it = None.

(** The dock [layout_add] goes on with. *)
Definition clamped_dock (d : Z) : Z := if DOCKS <=? d then -1 else d.

Lemma bind_done {A B} (m : M A) (k : A -> M B) s a s' :
  m s = (Done a, s') -> bind m k s = k a s'.
Proof. intros H. unfold bind. by rewrite H. Qed.

Lemma get_item_run i s it : items s !! i = Some it -> get_item i s = (Done it, s).
Proof. intros H. unfold get_item. by rewrite H. Qed.

(** A state that differs from [s] in its items and in the toolkit. *)
Definition updated (l : list Item) (g : Gtk) (s : State) : State :=
  with_gtk g (with_items l s).

(** The toolkit reports sizes and positions as before. *)
Definition same_reports (g g' : Gtk) : Prop :=
  allocation g' = allocation g /\ window_position g' = window_position g.

Lemma vbox_new_run wd name s :
  exists g',
    vbox_new (Some wd) name s =
      (Done (Some (next_widget (gtk s))), with_gtk g' s) /\
    next_widget g' = (next_widget (gtk s) + 3)%nat /\
    calls g' = calls (gtk s) ++ [Gtk_widget_show_all (next_widget (gtk s))] /\
    same_reports (gtk s) g'.
Proof.
  eexists. split; [ reflexivity | ]. simpl.
  repeat split. lia.
Qed.

(** The calls [item_add] makes for a floating window. *)
Definition window_calls (win : Widget) (it : Item) : list GtkCall :=
  [ Gtk_window_new win; Gtk_window_set_title win (item_name it) ] ++
  (if (0 <=? item_x it) && (0 <=? item_y it)
   then [Gtk_window_move win (item_x it) (item_y it)] else []) ++
  (if (0 <? item_w it) && (0 <? item_h it)
   then [Gtk_window_set_default_size win (item_w it) (item_h it)] else []) ++
  [ Gtk_widget_show_all win ].

(** [item_add] for an item with a negative dock: a window of its own. *)
Lemma item_add_floating_run i s it vbox :
  items s !! i = Some it ->
  is_some (item_widget it) = true -> item_vbox it = Some vbox ->
  item_paned it = None -> item_window it = None ->
  item_dock it < 0 ->
  exists g',
    item_add i s =
      (Done tt,
       updated (alter (with_window (Some (next_widget (gtk s)))) i (items s))
         g' s) /\
    calls g' = calls (gtk s) ++ window_calls (next_widget (gtk s)) it /\
    next_widget g' = S (next_widget (gtk s)) /\
    same_reports (gtk s) g'.
Proof.
  intros Hi Hw Hv Hp Hwin Hd.
  assert (Hlt : (item_dock it <? DOCKS) = true) by (apply Z.ltb_lt; unfold DOCKS; lia).
  assert (Hneg : (item_dock it <? 0) = true) by (apply Z.ltb_lt; lia).
  unfold window_calls.
  destruct ((0 <=? item_x it) && (0 <=? item_y it)) eqn:Hxy,
           ((0 <? item_w it) && (0 <? item_h it)) eqn:Hwh;
    eexists;
    unfold item_add, returning;
    rewrite (bind_done _ _ _ _ _ (get_item_run i s it Hi));
    rewrite Hw, Hv, Hp, Hwin, Hlt; cbn [is_some andb negb];
    unfold bind at 1, g_return_if_fail at 1;
    unfold bind at 1, the at 1, ret at 1;
    rewrite Hneg, Hxy, Hwh;
    (split; [ reflexivity | ]); simpl; rewrite <- ?app_assoc; by repeat split.
Qed.

(** [layout_add] on a name that has a placeholder: the record receives the
    clamped dock, the widget and a fresh box, and the rest is [item_add]. *)
Lemma layout_add_found s wd name i it :
  is_some (layout s) = true -> is_some (center s) = true ->
  (strlen name <=? 256) = true -> contains newline name = false ->
  find_item (items s) name item_by_name 0 = Some i ->
  items s !! i = Some it ->
  item_widget it = None -> item_vbox it = None -> item_window it = None ->
  let it' := with_vbox (Some (next_widget (gtk s)))
               (with_widget (Some wd)
                  (with_dock (clamped_dock (item_dock it)) it)) in
  exists g',
    layout_add (Some wd) name s =
      returning tt (item_add i) (updated (<[i := it']> (items s)) g' s) /\
    next_widget g' = (next_widget (gtk s) + 3)%nat /\
    calls g' = calls (gtk s) ++ [Gtk_widget_show_all (next_widget (gtk s))] /\
    same_reports (gtk s) g'.
Proof.
  intros Hl Hc Hlen Hnl Hfind Hi Hw Hv Hwin. cbv zeta.
  set (it1 := with_dock (clamped_dock (item_dock it)) it).
  set (it2 := with_widget (Some wd) it1).
  assert (Hlook : forall x, <[i := x]> (items s) !! i = Some x).
  { intros x. apply list_lookup_insert_eq. by eapply lookup_lt_Some. }
  destruct (vbox_new_run wd name (with_items (<[i := it2]> (items s)) s))
    as (g1 & Hvbox & Hn1 & Hc1 & Hr1).
  cbn [gtk with_items] in Hvbox, Hn1, Hc1, Hr1.
  exists g1. split; [ | done ].
  unfold layout_add, returning.
  unfold bind at 1, gets at 1. unfold bind at 1, gets at 1.
  rewrite Hl, Hc, Hlen, Hnl. cbn [is_some andb negb].
  unfold bind at 1, g_return_if_fail at 1.
  unfold bind at 1, g_list_find_custom, gets at 1. rewrite Hfind.
  unfold bind at 1. unfold bind at 1. rewrite (get_item_run i s it Hi).
  rewrite Hw, Hv, Hwin. cbn [is_some andb negb].
  unfold bind at 1, g_return_if_fail at 1.
  assert (Hclamp : (bind (when (DOCKS <=? item_dock it) (set_item i (with_dock (-1))))
                      (fun _ => ret i)) s
                   = (Done i, with_items (<[i := it1]> (items s)) s)).
  { unfold it1, clamped_dock, when, bind, set_item, modify, ret.
    destruct (DOCKS <=? item_dock it).
    - cbn [with_items items]. f_equal. f_equal.
      rewrite <- (alter_insert (with_dock (-1)) i (items s) it);
        by rewrite list_insert_id.
    - f_equal. replace (with_dock (item_dock it) it) with it by (by destruct it).
      rewrite list_insert_id by done. by rewrite with_items_same. }
  rewrite Hclamp.
  unfold bind at 1, set_item at 1, modify at 1. cbn [items with_items].
  rewrite alter_insert by apply Hlook. rewrite with_items_twice. fold it2.
  unfold bind at 1. rewrite Hvbox.
  unfold bind at 1, set_item at 1, modify at 1. cbn [items with_items with_gtk].
  rewrite alter_insert by apply Hlook.
  reflexivity.
Qed.

(** [layout_add] for a placeholder whose dock is not one of the four
    bays: the panel floats. *)
Lemma layout_add_floating s wd name i it :
  is_some (layout s) = true -> is_some (center s) = true ->
  (strlen name <=? 256) = true -> contains newline name = false ->
  find_item (items s) name item_by_name 0 = Some i ->
  items s !! i = Some it ->
  placeholder it ->
  item_dock it < 0 \/ DOCKS <= item_dock it ->
  let vbox := next_widget (gtk s) in
  let win := (next_widget (gtk s) + 3)%nat in
  let it' := with_window (Some win)
               (with_vbox (Some vbox)
                  (with_widget (Some wd)
                     (with_dock (clamped_dock (item_dock it)) it))) in
  exists g',
    layout_add (Some wd) name s = (Done tt, updated (<[i := it']> (items s)) g' s) /\
    calls g' = calls (gtk s) ++ [Gtk_widget_show_all vbox] ++ window_calls win it /\
    same_reports (gtk s) g'.
Proof.
  intros Hl Hc Hlen Hnl Hfind Hi (Hw & Hv & Hp & Hwin) Hdock. cbv zeta.
  destruct (layout_add_found s wd name i it) as (g1 & Hrun & Hn1 & Hc1 & Hr1);
    try done.
  set (it3 := with_vbox (Some (next_widget (gtk s)))
                (with_widget (Some wd)
                   (with_dock (clamped_dock (item_dock it)) it))) in *.
  assert (Hlook : <[i := it3]> (items s) !! i = Some it3).
  { apply list_lookup_insert_eq. by eapply lookup_lt_Some. }
  assert (Hd3 : item_dock it3 < 0).
  { unfold it3, clamped_dock. simpl.
    destruct (Z.leb_spec DOCKS (item_dock it)); unfold DOCKS in *; lia. }
  destruct (item_add_floating_run i (updated (<[i := it3]> (items s)) g1 s) it3
              (next_widget (gtk s))) as (g2 & Hadd & Hc2 & Hn2 & Hr2);
    try done.
  cbn [gtk updated with_gtk with_items items] in Hadd, Hc2, Hn2, Hr2.
  exists g2. rewrite Hrun. unfold returning. rewrite Hadd.
  split; [ | split ].
  - unfold updated. cbn [items with_items with_gtk].
    rewrite alter_insert by apply Hlook. rewrite Hn1.
    by destruct s.
  - rewrite Hc2, Hc1, Hn1, <- app_assoc. reflexivity.
  - destruct Hr1, Hr2. split; congruence.
Qed.

Lemma window_calls_no_critical win it fn : G_critical fn ∉ window_calls win it.
Proof.
  unfold window_calls.
  destruct ((0 <=? item_x it) && (0 <=? item_y it)),
           ((0 <? item_w it) && (0 <? item_h it)); simpl;
    rewrite ?not_elem_of_cons; repeat split; try discriminate;
    apply not_elem_of_nil.
Qed.

(** The main window is built: a layout box (widget 0) that holds the
    centre (widget 1); nothing is loaded yet. *)
Definition built (file : option (list ascii)) : State :=
  mkState [] (Some 0%nat) (Some 1%nat) [None; None; None; None] None file true
    (mkGtk 10
       (fun w => match w with O => [1%nat] | _ => [] end)
       (fun w => match w with 1%nat => Some 0%nat | _ => None end)
       ∅ [] (fun w => (Z.of_nat w * 10, Z.of_nat w * 7))
       (fun w => (Z.of_nat w, Z.of_nat w + 5)) []).

(** A layout file with two damaged pane numbers: one negative, one too
    large. *)
Definition corrupted_file : list ascii :=
  lit "item playlist
pane -7
x 10
y 20
w 300
h 200
item search tool
pane 9
x 30
y 40
w 100
h 50
".

(** C10, as stated, fails: a pane number below zero other than -1 is out
    of the range 0-3 too, and [layout_add] leaves it as it is (the panel
    floats all the same); only a pane number of 4 or more is reset. *)
Lemma layout_add_keeps_negative_pane :
  let s := (layout_load (built (Some corrupted_file))).2 in
  let r := layout_add (Some 100%nat) (lit "playlist") s in
  map item_dock (items s) = [-7; 9] /\
  r.1 = Done tt /\
  map item_dock (items r.2) = [-7; 9] /\
  (items r.2 !! 0%nat) ≫= (fun it => Some (item_dock it)) <> Some (-1).
Proof.
  cbv zeta.
  assert (H : map item_dock
                (items (layout_add (Some 100%nat) (lit "playlist")
                          (layout_load (built (Some corrupted_file))).2).2)
              = [-7; 9]) by (vm_compute; reflexivity).
  split; [ vm_compute; reflexivity | ].
  split; [ vm_compute; reflexivity | ].
  split; [ exact H | ].
  destruct (items _) as [|it l]; [ discriminate | ].
  simpl in *. injection H as H _. rewrite H. discriminate.
Qed.

(** C10, amended.  When [layout_add] attaches a widget to a placeholder
    whose pane number is not one of the bays 0-3, a number of 4 or more is
    reset to -1 and a negative number is left as it is; in both cases the
    call completes, the panel gets a window of its own and no pane of a
    bay, the four bays are untouched, and the toolkit sees the new box and
    the new window and no failed check. *)
Theorem layout_add_pane_out_of_range s wd name i it :
  is_some (layout s) = true -> is_some (center s) = true ->
  (strlen name <=? 256) = true -> contains newline name = false ->
  find_item (items s) name item_by_name 0 = Some i ->
  items s !! i = Some it ->
  placeholder it ->
  item_dock it < 0 \/ DOCKS <= item_dock it ->
  exists s' it' new,
    layout_add (Some wd) name s = (Done tt, s') /\
    items s' = <[i := it']> (items s) /\
    item_dock it' = (if DOCKS <=? item_dock it then -1 else item_dock it) /\
    item_dock it' < 0 /\
    item_widget it' = Some wd /\
    item_window it' = Some (next_widget (gtk s) + 3)%nat /\
    item_paned it' = None /\
    saved_fields it' =
      (item_name it, item_dock it', item_x it, item_y it, item_w it, item_h it) /\
    docks s' = docks s /\
    calls (gtk s') = calls (gtk s) ++ new /\
    new = Gtk_widget_show_all (next_widget (gtk s))
            :: window_calls (next_widget (gtk s) + 3)%nat it /\
    forall fn, G_critical fn ∉ new.
Proof.
  intros Hl Hc Hlen Hnl Hfind Hi Hph Hdock.
  destruct (layout_add_floating s wd name i it) as (g' & Hrun & Hcalls & _);
    try done.
  destruct Hph as (Hw & Hv & Hp & Hwin).
  eexists _, _, _. split; [ exact Hrun | ].
  split; [ reflexivity | ].
  split; [ reflexivity | ].
  split.
  { simpl. unfold clamped_dock.
    destruct (Z.leb_spec DOCKS (item_dock it)); unfold DOCKS in *; lia. }
  split; [ reflexivity | ].
  split; [ reflexivity | ].
  split; [ exact Hp | ].
  split; [ reflexivity | ].
  split; [ reflexivity | ].
  split; [ exact Hcalls | ].
  split; [ reflexivity | ].
  intros fn. cbn [app]. rewrite not_elem_of_cons. split; [ discriminate | ].
  apply window_calls_no_critical.
Qed.

Lemma layout_add_pane_out_of_range_witness :
  let s := (layout_load (built (Some corrupted_file))).2 in
  let it := mkItem (lit "search tool") None None None None 9 30 40 100 50 in
  items s !! 1%nat = Some it /\
  exists s' it' new,
    layout_add (Some 100%nat) (lit "search tool") s = (Done tt, s') /\
    items s' = <[1%nat := it']> (items s) /\
    item_dock it' = (if DOCKS <=? item_dock it then -1 else item_dock it) /\
    item_dock it' < 0 /\
    item_widget it' = Some 100%nat /\
    item_window it' = Some (next_widget (gtk s) + 3)%nat /\
    item_paned it' = None /\
    saved_fields it' =
      (item_name it, item_dock it', item_x it, item_y it, item_w it, item_h it) /\
    docks s' = docks s /\
    calls (gtk s') = calls (gtk s) ++ new /\
    new = Gtk_widget_show_all (next_widget (gtk s))
            :: window_calls (next_widget (gtk s) + 3)%nat it /\
    forall fn, G_critical fn ∉ new.
Proof.
  cbv zeta.
  assert (Hit : items (layout_load (built (Some corrupted_file))).2 !! 1%nat =
                Some (mkItem (lit "search tool") None None None None 9 30 40 100 50))
    by (vm_compute; reflexivity).
  split; [ exact Hit | ].
  apply (layout_add_pane_out_of_range
           (layout_load (built (Some corrupted_file))).2 100%nat
           (lit "search tool") 1%nat
           (mkItem (lit "search tool") None None None None 9 30 40 100 50)).
  - vm_compute; reflexivity.
  - vm_compute; reflexivity.
  - vm_compute; reflexivity.
  - vm_compute; reflexivity.
  - vm_compute; reflexivity.
  - exact Hit.
  - repeat split.
  - right. unfold DOCKS. simpl. lia.
Defined.

(* ===================================================================== *)
(** ** layout.c: what adding and removing leave alone                     *)
(* ===================================================================== *)

(** A relation between the items before and after a piece of code that
    holds of no change and of changes in sequence. *)
Class Frame (R : list Item -> list Item -> Prop) : Prop := {
  frame_refl : forall l, R l l;
  frame_trans : forall a b c, R a b -> R b c -> R a c
}.

(** Whatever its outcome, [m] changes the items within [R]. *)
Definition keeps (R : list Item -> list Item -> Prop) {A} (m : M A) : Prop :=
  forall s, R (items s) (items (m s).2).

(** When [m] runs to its end, its result satisfies [Q]. *)
Definition yields {A} (m : M A) (Q : A -> Prop) : Prop :=
  forall s a, (m s).1 = Done a -> Q a.

#[global] Instance eq_frame : Frame eq.
Proof. split; congruence. Qed.

Section Keeps.
Context (R : list Item -> list Item -> Prop) `{!Frame R}.

Lemma keeps_same {A} (m : M A) : keeps eq m -> keeps R m.
Proof. intros H s. rewrite <- (H s). apply frame_refl. Qed.

Lemma keeps_bind {A B} (m : M A) (k : A -> M B) :
  keeps R m -> (forall a, keeps R (k a)) -> keeps R (bind m k).
Proof.
  intros Hm Hk s. unfold bind. specialize (Hm s).
  destruct (m s) as [[a| | |] s']; simpl in *; try done.
  eapply frame_trans; [ exact Hm | apply Hk ].
Qed.

Lemma keeps_bind_yields {A B} (Q : A -> Prop) (m : M A) (k : A -> M B) :
  keeps R m -> yields m Q -> (forall a, Q a -> keeps R (k a)) ->
  keeps R (bind m k).
Proof.
  intros Hm HQ Hk s. unfold bind. specialize (Hm s). specialize (HQ s).
  destruct (m s) as [[a| | |] s']; simpl in *; try done.
  eapply frame_trans; [ exact Hm | apply Hk; by apply HQ ].
Qed.

Lemma keeps_returning {A} (d : A) (m : M A) : keeps R m -> keeps R (returning d m).
Proof.
  intros Hm s. unfold returning. specialize (Hm s).
  by destruct (m s) as [[a| | |] s'].
Qed.

Lemma keeps_when b (m : M unit) : keeps R m -> keeps R (when b m).
Proof. intros Hm s. unfold when. destruct b; [ apply Hm | apply frame_refl ]. Qed.

End Keeps.

Lemma keeps_ret {A} (a : A) : keeps eq (ret a).
Proof. by intros s. Qed.
Lemma keeps_gets {A} (f : State -> A) : keeps eq (gets f).
Proof. by intros s. Qed.
Lemma keeps_undefined {A} : keeps eq (@undefined A).
Proof. by intros s. Qed.
Lemma keeps_the {A} (p : option A) : keeps eq (the p).
Proof. intros s. by destruct p. Qed.
Lemma keeps_modify_gtk f : keeps eq (modify_gtk f).
Proof. by intros s. Qed.
Lemma keeps_g_return_if_fail fn c : keeps eq (g_return_if_fail fn c).
Proof. intros s. unfold g_return_if_fail. by destruct c. Qed.
Lemma keeps_gtk_new : keeps eq gtk_new.
Proof. by intros s. Qed.
Lemma keeps_gtk_call c : keeps eq (gtk_call c).
Proof. by intros s. Qed.
Lemma keeps_gtk_container_add c w : keeps eq (gtk_container_add c w).
Proof. by intros s. Qed.
Lemma keeps_gtk_bin_get_child b : keeps eq (gtk_bin_get_child b).
Proof. by intros s. Qed.
Lemma keeps_g_object_set_data o k d : keeps eq (g_object_set_data o k d).
Proof. by intros s. Qed.
Lemma keeps_g_object_get_data o k : keeps eq (g_object_get_data o k).
Proof. intros s. by destruct o. Qed.
Lemma keeps_g_object_ref w : keeps eq (g_object_ref w).
Proof. by intros s. Qed.
Lemma keeps_get_item i : keeps eq (get_item i).
Proof. intros s. unfold get_item. by destruct (items s !! i). Qed.
Lemma keeps_get_dock d : keeps eq (get_dock d).
Proof. intros s. unfold get_dock. by repeat case_match. Qed.
Lemma keeps_set_dock d v : keeps eq (set_dock d v).
Proof. intros s. unfold set_dock. by repeat case_match. Qed.
Lemma keeps_g_list_find_custom {B} (d : B) f : keeps eq (g_list_find_custom d f).
Proof. by intros s. Qed.

Create HintDb frame.
#[global] Hint Resolve keeps_ret keeps_gets keeps_undefined keeps_the
  keeps_modify_gtk keeps_g_return_if_fail keeps_gtk_new keeps_gtk_call
  keeps_gtk_container_add keeps_gtk_bin_get_child keeps_g_object_set_data
  keeps_g_object_get_data keeps_g_object_ref keeps_get_item keeps_get_dock
  keeps_set_dock keeps_g_list_find_custom : frame.

(** One step through the structure of a piece of code. *)
Ltac keeps_step :=
  cbv beta zeta;
  lazymatch goal with
  | |- keeps _ (bind _ _) => apply keeps_bind; [ typeclasses eauto | | intros ? ]
  | |- keeps _ (returning _ _) => apply keeps_returning
  | |- keeps _ (when _ _) => apply keeps_when; [ typeclasses eauto | ]
  | |- keeps _ (if ?b then _ else _) => destruct b
  | |- keeps _ (match ?x with _ => _ end) => destruct x
  | |- keeps eq _ => solve [ eauto with frame ]
  | |- keeps _ _ =>
      first [ solve [ eauto with frame ]
            | apply keeps_same; [ typeclasses eauto | solve [ eauto with frame ] ] ]
  end.

Lemma keeps_item_get_prev i : keeps eq (item_get_prev i).
Proof. unfold item_get_prev. repeat keeps_step. Qed.
Lemma keeps_item_get_next i : keeps eq (item_get_next i).
Proof. unfold item_get_next. repeat keeps_step. Qed.
#[global] Hint Resolve keeps_item_get_prev keeps_item_get_next : frame.
Lemma keeps_item_get_parent i : keeps eq (item_get_parent i).
Proof. unfold item_get_parent. repeat keeps_step. Qed.
Lemma keeps_dock_scan n : keeps eq (dock_scan n).
Proof. induction n; simpl; repeat keeps_step. Qed.
#[global] Hint Resolve keeps_item_get_parent keeps_dock_scan : frame.
Lemma keeps_dock_get_parent d : keeps eq (dock_get_parent d).
Proof. unfold dock_get_parent. repeat keeps_step. Qed.
Lemma keeps_vbox_new w name : keeps eq (vbox_new w name).
Proof. unfold vbox_new. repeat keeps_step. Qed.
Lemma keeps_paned_new v a w h : keeps eq (paned_new v a w h).
Proof. unfold paned_new. repeat keeps_step. Qed.
#[global] Hint Resolve keeps_dock_get_parent keeps_vbox_new keeps_paned_new : frame.

(** *** The place of the items *)

(** Where a panel goes: its name stands for its place in the list. *)
Definition placing (it : Item) : list ascii * Z := (item_name it, item_dock it).

Definition same_placing (l l' : list Item) : Prop :=
  map placing l' = map placing l.

#[global] Instance same_placing_frame : Frame same_placing.
Proof. split; unfold same_placing; congruence. Qed.

Lemma map_alter_fixed {A B} (p : A -> B) (f : A -> A) j (l : list A) :
  (forall x, p (f x) = p x) -> map p (alter f j l) = map p l.
Proof.
  intros H. revert j. induction l as [|a l IH]; intros [|j]; simpl; try done.
  - by rewrite H.
  - f_equal. apply IH.
Qed.

Lemma keeps_placing_set_item j f :
  (forall it, placing (f it) = placing it) -> keeps same_placing (set_item j f).
Proof. intros H s. by apply map_alter_fixed. Qed.

Lemma destroy_placing fuel w s : same_placing (items s) (items (destroy fuel w s)).
Proof.
  revert w s. induction fuel as [|fuel IH]; intros w s; [ apply frame_refl | ].
  cbn [destroy].
  assert (Hfold : forall l s0,
            same_placing (items s0)
              (items (fold_left (fun s c => destroy fuel c s) l s0))).
  { induction l as [|c l IHl]; intros s0; [ apply frame_refl | ].
    cbn [fold_left]. eapply frame_trans; [ apply IH | apply IHl ]. }
  eapply frame_trans; [ apply Hfold | ].
  unfold same_placing, null_on_destroy. cbn [items with_gtk].
  rewrite map_map. apply map_ext. by intros [].
Qed.

Lemma keeps_placing_destroy w : keeps same_placing (gtk_widget_destroy w).
Proof. intros s. apply destroy_placing. Qed.

#[global] Hint Extern 1 (forall it : Item, placing _ = placing _) =>
  (intros ?; reflexivity) : frame.
#[global] Hint Resolve keeps_placing_set_item keeps_placing_destroy : frame.

Lemma keeps_placing_container_remove c w :
  keeps same_placing (gtk_container_remove c w).
Proof. unfold gtk_container_remove. repeat keeps_step. Qed.
Lemma keeps_placing_unref w : keeps same_placing (g_object_unref w).
Proof. unfold g_object_unref. repeat keeps_step. Qed.
Lemma keeps_placing_save_size i : keeps same_placing (item_save_size i).
Proof. unfold item_save_size. repeat keeps_step. Qed.
#[global] Hint Resolve keeps_placing_container_remove keeps_placing_unref
  keeps_placing_save_size : frame.

Lemma keeps_placing_item_add i : keeps same_placing (item_add i).
Proof. unfold item_add. repeat keeps_step. Qed.
Lemma keeps_placing_item_remove i : keeps same_placing (item_remove i).
Proof. unfold item_remove. repeat keeps_step. Qed.
#[global] Hint Resolve keeps_placing_item_add keeps_placing_item_remove : frame.
Lemma keeps_placing_layout_remove w : keeps same_placing (layout_remove w).
Proof. unfold layout_remove. repeat keeps_step. Qed.

(** *** One panel *)

(** What a record says of its panel, the pane and the window apart. *)
Definition kept (it : Item) : option Widget * option Widget * Z * Z * Z * Z :=
  (item_widget it, item_vbox it, item_x it, item_y it, item_w it, item_h it).

Definition same_panel (i : nat) (l l' : list Item) : Prop :=
  same_placing l l' /\ kept <$> l' !! i = kept <$> l !! i.

#[global] Instance same_panel_frame i : Frame (same_panel i).
Proof.
  split; unfold same_panel, same_placing.
  - done.
  - intros a b c [? ?] [? ?]. split; congruence.
Qed.

Lemma keeps_panel_set_item i j f :
  (forall it, placing (f it) = placing it) ->
  (forall it, kept (f it) = kept it) ->
  keeps (same_panel i) (set_item j f).
Proof.
  intros Hp Hk s. split; [ by apply map_alter_fixed | ].
  cbn. destruct (decide (j = i)) as [->|Hne].
  - rewrite list_lookup_alter_eq. destruct (items s !! i); simpl; by rewrite ?Hk.
  - by rewrite list_lookup_alter_ne.
Qed.

Lemma keeps_panel_set_other i j f :
  j <> i -> (forall it, placing (f it) = placing it) ->
  keeps (same_panel i) (set_item j f).
Proof.
  intros Hne Hp s. split; [ by apply map_alter_fixed | ].
  cbn. by rewrite list_lookup_alter_ne.
Qed.

#[global] Hint Extern 1 (forall it : Item, kept _ = kept _) =>
  (intros ?; reflexivity) : frame.
#[global] Hint Resolve keeps_panel_set_item : frame.
#[global] Hint Resolve keeps_panel_set_other | 5 : frame.

Lemma keeps_panel_save_size i j : j <> i -> keeps (same_panel i) (item_save_size j).
Proof. intros Hne. unfold item_save_size. repeat keeps_step. Qed.

Lemma scan_prev_lt l it n p : scan_prev l it n = Some p -> (p < n)%nat.
Proof.
  induction n as [|n IH]; simpl; [ done | ].
  destruct (l !! n) as [test|]; [ destruct (same_dock it test) | ].
  - intros [= <-]. lia.
  - intros H. apply IH in H. lia.
  - intros H. apply IH in H. lia.
Qed.

Lemma item_get_prev_yields i :
  yields (item_get_prev i) (fun prev => forall p, prev = Some p -> (p < i)%nat).
Proof.
  intros s a. unfold item_get_prev, bind, get_item, gets, ret.
  destruct (items s !! i); simpl; [ | done ].
  intros [= <-] p. apply scan_prev_lt.
Qed.

Lemma the_yields {A} (p : option A) : yields (the p) (fun a => p = Some a).
Proof. intros s a. destruct p; simpl; [ by intros [= ->] | done ]. Qed.

(** The end of [item_add]: the child that makes room for the pane is held
    while it is out of its container, so that nothing is destroyed. *)
Lemma keeps_regroup child parent paned a b vbox :
  keeps eq
    (bind (g_object_ref child) (fun _ =>
     bind (gtk_container_remove parent child) (fun _ =>
     bind (gtk_container_add parent paned) (fun _ =>
     bind (gtk_container_add a vbox) (fun _ =>
     bind (gtk_container_add b child) (fun _ =>
     g_object_unref child)))))).
Proof.
  intros s. unfold g_object_ref, gtk_container_remove, g_object_unref.
  unfold bind, modify_gtk, modify, gets, gtk_container_add; simpl.
  rewrite bool_decide_eq_true_2 by (apply elem_of_cons; by left).
  simpl. rewrite fn_lookup_insert. simpl.
  by rewrite orb_true_r.
Qed.

Lemma keeps_panel_item_add i : keeps (same_panel i) (item_add i).
Proof.
  unfold item_add.
  repeat first
    [ lazymatch goal with
      | |- keeps _ (bind (g_object_ref _) _) =>
          apply keeps_same; [ typeclasses eauto | apply keeps_regroup ]
      | |- keeps _ (bind (item_get_prev _) _) =>
          eapply keeps_bind_yields;
            [ typeclasses eauto | | apply item_get_prev_yields | intros ? ? ]
      | |- keeps _ (bind (the _) _) =>
          eapply keeps_bind_yields;
            [ typeclasses eauto | | apply the_yields | intros ? ? ]
      end
    | keeps_step ].
  apply keeps_panel_save_size. simpl in *. specialize (H0 _ H1). lia.
Qed.

Lemma same_placing_names l l' :
  same_placing l l' -> map item_name l' = map item_name l.
Proof.
  unfold same_placing. intros H.
  apply (f_equal (map fst)) in H. by rewrite !map_map in H.
Qed.

Lemma same_placing_lookup l l' i it' :
  same_placing l l' -> l' !! i = Some it' ->
  exists it, l !! i = Some it /\ placing it' = placing it.
Proof.
  unfold same_placing. intros H Hi.
  apply (f_equal (fun m => m !! i)) in H. rewrite !list_lookup_fmap, Hi in H.
  destruct (l !! i) as [it|]; [ | done ].
  exists it. split; [ done | ]. simpl in H. congruence.
Qed.

Lemma find_item_names l l' name k :
  map item_name l = map item_name l' ->
  find_item l name item_by_name k = find_item l' name item_by_name k.
Proof.
  revert l' k. induction l as [|a l IH]; intros [|b l'] k; simpl; try done.
  intros [= Hab Hl]. unfold item_by_name. rewrite Hab.
  destruct (strcmp (item_name b) name =? 0); [ done | by apply IH ].
Qed.

Lemma clamped_dock_small d : d < DOCKS -> clamped_dock d = d.
Proof. unfold clamped_dock. intros H. destruct (Z.leb_spec DOCKS d); [ lia | done ]. Qed.

Lemma clamped_dock_lt d : clamped_dock d < DOCKS.
Proof. unfold clamped_dock, DOCKS. destruct (Z.leb_spec 4 d); lia. Qed.

(** What [layout_add] does to the list when the name has a placeholder:
    the record gets the clamped dock, the widget and a box; no other
    record changes its name or dock. *)
Lemma layout_add_placeholder s wd name i it :
  is_some (layout s) = true -> is_some (center s) = true ->
  (strlen name <=? 256) = true -> contains newline name = false ->
  find_item (items s) name item_by_name 0 = Some i ->
  items s !! i = Some it ->
  item_widget it = None -> item_vbox it = None -> item_window it = None ->
  let s' := (layout_add (Some wd) name s).2 in
  exists it',
    items s' !! i = Some it' /\
    kept it' = (Some wd, Some (next_widget (gtk s)),
                item_x it, item_y it, item_w it, item_h it) /\
    same_placing (<[i := with_dock (clamped_dock (item_dock it)) it]> (items s))
      (items s').
Proof.
  intros Hl Hc Hlen Hnl Hfind Hi Hw Hv Hwin. cbv zeta.
  destruct (layout_add_found s wd name i it) as (g1 & Hrun & _); try done.
  rewrite Hrun.
  match type of Hrun with
  | _ = returning _ _ (updated (<[i := ?x]> _) _ _) => set (it1 := x)
  end.
  pose proof (keeps_returning _ tt _ (keeps_panel_item_add i)
                (updated (<[i := it1]> (items s)) g1 s)) as [Hpl Hk].
  cbn [items updated with_gtk with_items] in Hpl, Hk.
  assert (Hlook : <[i := it1]> (items s) !! i = Some it1).
  { apply list_lookup_insert_eq. by eapply lookup_lt_Some. }
  rewrite Hlook in Hk.
  set (s1 := (returning tt (item_add i) _).2) in *.
  destruct (items s1 !! i) as [it'|] eqn:Hi'; [ | simpl in Hk; discriminate ].
  exists it'. split; [ done | ]. split.
  - simpl in Hk. injection Hk as Hk1 Hk2 Hk3 Hk4 Hk5 Hk6. unfold kept. congruence.
  - eapply frame_trans; [ | exact Hpl ].
    unfold same_placing. rewrite !list_fmap_insert. reflexivity.
Qed.

Lemma with_dock_same it : with_dock (item_dock it) it = it.
Proof. by destruct it. Qed.


(** The file of a session with two panels in the bay at the right. *)
Definition panel_file : list ascii :=
  lit "item playlist
pane 1
x -1
y -1
w 300
h 200
item search tool
pane 1
x 30
y 40
w 100
h 50
".

(** The file is loaded and the playlist is shown; the search tool is not. *)
Definition playlist_shown : State :=
  (layout_add (Some 100%nat) (lit "playlist")
     (layout_load (built (Some panel_file))).2).2.


(* ===================================================================== *)
(** ** ui_dock.c: the course of a drag                                    *)
(* ===================================================================== *)

Import UiDock.

Lemma get_data_release_other s w w' key :
  w' <> w ->
  g_object_get_data (dock_move_release s w) w' key = g_object_get_data s w' key.
Proof.
  intros Hne. unfold dock_move_release.
  rewrite !get_set_data_ne by (intros [=]; congruence). reflexivity.
Qed.

(** X1.  [dock_move_release] ends the drag of [w]: its marker, grab
    offsets and lists are gone, so that [dock_is_moving] says no and a
    later [dock_move_motion] does nothing at all; no window is moved, the
    configuration is as it was, and the drag of any other window is not
    touched. *)
Theorem dock_move_release_ends_drag s w event :
  let s' := dock_move_release s w in
  dock_is_moving s' w = false /\
  drag_state s' w = (0, 0, [], [], false) /\
  dock_move_motion s' w event = s' /\
  desktop s' = desktop s /\ config s' = config s /\ calls s' = calls s /\
  skinned_xy s' = skinned_xy s /\
  forall w', w' <> w -> drag_state s' w' = drag_state s w'.
Proof.
  cbv zeta.
  assert (Hkey : forall key,
            key ∈ ["is_moving"; "move_offset_x"; "move_offset_y";
                   "docked_list"; "window_list"] ->
            g_object_get_data (dock_move_release s w) w key = None).
  { intros key Hkey. unfold dock_move_release.
    repeat (apply elem_of_cons in Hkey as [->|Hkey]; [ by drag_data | ]).
    by apply elem_of_nil in Hkey. }
  assert (Hmoving : dock_is_moving (dock_move_release s w) w = false).
  { unfold dock_is_moving. rewrite Hkey; [ done | set_solver ]. }
  split; [ exact Hmoving | ].
  split.
  { unfold drag_state. rewrite Hmoving.
    rewrite !Hkey by set_solver. reflexivity. }
  split.
  { unfold dock_move_motion. rewrite Hkey; [ done | set_solver ]. }
  repeat split; try reflexivity.
  intros w' Hne. unfold drag_state, dock_is_moving.
  by rewrite !get_data_release_other.
Qed.

(** The list [dock_move_press] stores starts with the pressed window, at
    offset zero, and names no window twice. *)
Lemma press_list_head d wlist w move_list :
  let dlist := if move_list : bool
               then default [] (get_docked_list (docked_fuel wlist) d [] wlist w 0 0)
               else [docked_new w] in
  docked_new w ∈ dlist /\ NoDup (windows_of dlist).
Proof.
  cbv zeta. destruct move_list.
  - destruct (get_docked_list_terminates d wlist (docked_fuel wlist) [] w 0 0)
      as [r Hr].
    { pose proof (pending_bound wlist (start_list [] w)).
      unfold docked_fuel. lia. }
    rewrite Hr. simpl.
    destruct (get_docked_list_spec d wlist _ _ _ _ _ _ Hr)
      as (ext & -> & Hnd & Hnew & _).
    split; [ apply elem_of_cons; by left | ].
    rewrite windows_of_app. apply NoDup_app. split; [ | split ].
    + simpl. apply NoDup_singleton.
    + intros t Ht Hext. destruct (Hnew t Hext) as [_ Hn]. by apply Hn.
    + done.
  - split; [ apply elem_of_cons; by left | apply NoDup_singleton ].
Qed.

Lemma press_keeps_world s wl w ev move_list :
  desktop (dock_move_press s wl w ev move_list) = desktop s /\
  config (dock_move_press s wl w ev move_list) = config s.
Proof.
  unfold dock_move_press.
  destruct (show_wm_decorations (config s)); [ done | ].
  by destruct move_list.
Qed.

Lemma truncate_whole a b : truncate (inject_Z a - inject_Z b)%Q = a - b.
Proof.
  unfold truncate. simpl. rewrite Z.quot_1_r. lia.
Qed.

(** X2.  With the window manager's decorations off and snapping off, a
    press on [w] followed by a pointer motion puts [w] at the pointer's
    root position less the point of the window that was pressed, the
    difference being truncated toward zero: the window follows the pointer
    by the grabbed point.  For a pointer on whole pixels this is the plain
    difference. *)
Theorem dock_move_follows_pointer s wl w press motion move_list :
  show_wm_decorations (config s) = false ->
  snap_windows (config s) = false ->
  let tx := truncate (ev_x_root motion - inject_Z (ev_x press))%Q in
  let ty := truncate (ev_y_root motion - inject_Z (ev_y press))%Q in
  coord_range tx -> coord_range ty ->
  let s1 := dock_move_press s wl w press move_list in
  let s2 := dock_move_motion s1 w motion in
  win_pos (desktop s2) w = (tx, ty) /\
  (forall xr yr,
     ev_x_root motion = inject_Z xr -> ev_y_root motion = inject_Z yr ->
     win_pos (desktop s2) w = (xr - ev_x press, yr - ev_y press)).
Proof.
  intros Hdec Hsnap tx ty Hx Hy s1 s2.
  assert (Hpos : win_pos (desktop s2) w = (tx, ty)).
  { pose proof (dock_move_press_state s wl w press move_list Hdec) as Hst.
    fold s1 in Hst. unfold drag_state in Hst.
    injection Hst as Hox Hoy Hdl Hwl Hmv.
    destruct (press_keeps_world s wl w press move_list) as [Hd Hc].
    fold s1 in Hd, Hc.
    destruct (press_list_head (desktop s) wl w move_list) as [Hin Hnd].
    unfold s2, dock_move_motion.
    unfold dock_is_moving in Hmv.
    destruct (g_object_get_data s1 w "is_moving"); [ | discriminate ].
    rewrite Hox, Hoy, Hdl, Hwl, Hc.
    unfold calc_snap_offset. rewrite Hsnap. cbn [negb].
    rewrite (docked_list_move_pos _ _ _ _ (docked_new w) Hnd Hin).
    unfold gint_of_double. fold tx ty. simpl.
    rewrite !(wrap_id tx), !(wrap_id ty) by gint_range_solve.
    f_equal; gint_exact; lia. }
  split; [ exact Hpos | ].
  intros xr yr Hxr Hyr. rewrite Hpos. unfold tx, ty.
  by rewrite Hxr, Hyr, !truncate_whole.
Qed.

(** The desktop of [idle_world], with snapping switched off. *)
Definition unsnapped_world : World :=
  with_config idle_world (mkConfig 10 false false 100 100 100 216 100 332).

Lemma dock_move_follows_pointer_witness :
  win_pos (desktop
             (dock_move_motion
                (dock_move_press unsnapped_world [0; 1; 2; 3]%nat 3%nat
                   (mkButton 20 7) true)
                3%nat (mkMotion 10.9%Q 3.2%Q))) 3%nat =
  (-9, -3).
Proof.
  apply (dock_move_follows_pointer unsnapped_world
           [0; 1; 2; 3]%nat 3%nat (mkButton 20 7) (mkMotion 10.9%Q 3.2%Q) true);
    try reflexivity; unfold coord_range; vm_compute; split; discriminate.
Defined.

(** *** The positions kept in the configuration *)

(** The position the configuration keeps for a kind of window. *)
Definition saved_position (c : Config) (ty : WindowType) : option (Z * Z) :=
  match ty with
  | WINDOW_MAIN => Some (player_x c, player_y c)
  | WINDOW_EQ => Some (equalizer_x c, equalizer_y c)
  | WINDOW_PLAYLIST => Some (playlist_x c, playlist_y c)
  | WINDOW_OTHER => None
  end.

#[global] Instance window_type_eq_dec : EqDecision WindowType.
Proof. solve_decision. Defined.

Definition settings (c : Config) : Z * bool * bool :=
  (snap_distance c, snap_windows c, show_wm_decorations c).

Lemma docked_move_one_config x y s dw ty :
  skinned_type (docked_move_one x y s dw) = skinned_type s /\
  settings (config (docked_move_one x y s dw)) = settings (config s) /\
  saved_position (config (docked_move_one x y s dw)) ty =
    (if decide (skinned_type s (dw_w dw) = ty)
     then match ty with
          | WINDOW_OTHER => None
          | _ => Some (x +i offset_x dw, y +i offset_y dw)
          end
     else saved_position (config s) ty) /\
  skinned_xy (docked_move_one x y s dw) (dw_w dw) =
    (x +i offset_x dw, y +i offset_y dw).
Proof.
  unfold docked_move_one. cbn [gtk_window_move with_call with_desktop
    skinned_type config].
  destruct (skinned_type s (dw_w dw)) eqn:Hty; destruct ty;
    cbn; rewrite ?fn_lookup_insert; repeat split; try done.
Qed.

Lemma docked_list_move_app s l1 l2 x y :
  docked_list_move s (l1 ++ l2) x y =
  docked_list_move (docked_list_move s l1 x y) l2 x y.
Proof. apply fold_left_app. Qed.

Lemma docked_move_one_xy x y s dw w :
  skinned_xy (docked_move_one x y s dw) w =
  if decide (dw_w dw = w) then (x +i offset_x dw, y +i offset_y dw)
  else skinned_xy s w.
Proof.
  unfold docked_move_one.
  destruct (skinned_type _ (dw_w dw)); cbn;
    (destruct (decide (dw_w dw = w)) as [->|Hne];
     [ by rewrite fn_lookup_insert | by rewrite fn_lookup_insert_ne ]).
Qed.

(** X3.  [docked_list_move] keeps the configuration in step with the
    windows it moves: the saved position of the main window, of the
    equalizer and of the playlist is the position the last window of that
    kind in the list was moved to, and is left alone when the list has no
    window of that kind; the other settings never change, and every moved
    window remembers the position it now has on the desktop. *)
Theorem docked_list_move_saves_positions x y list : forall s,
  let s' := docked_list_move s list x y in
  skinned_type s' = skinned_type s /\
  settings (config s') = settings (config s) /\
  (forall ty,
     ty <> WINDOW_OTHER ->
     saved_position (config s') ty =
       match last (filter (fun dw => skinned_type s (dw_w dw) = ty) list) with
       | Some dw => Some (x +i offset_x dw, y +i offset_y dw)
       | None => saved_position (config s) ty
       end) /\
  (forall w, w ∈ windows_of list -> skinned_xy s' w = win_pos (desktop s') w).
Proof.
  induction list as [|dw list IH] using rev_ind; intros s; cbv zeta.
  { repeat split. intros w Hw. by apply elem_of_nil in Hw. }
  rewrite docked_list_move_app. cbn [docked_list_move fold_left].
  specialize (IH s). cbv zeta in IH. destruct IH as (Hty & Hset & Hpos & Hxy).
  set (s1 := docked_list_move s list x y) in *.
  split; [ | split; [ | split ] ].
  - destruct (docked_move_one_config x y s1 dw WINDOW_MAIN) as (-> & _). done.
  - destruct (docked_move_one_config x y s1 dw WINDOW_MAIN) as (_ & -> & _). done.
  - intros ty Hother.
    destruct (docked_move_one_config x y s1 dw ty) as (_ & _ & -> & _).
    rewrite filter_app, Hty. rewrite filter_cons, filter_nil.
    destruct (decide (skinned_type s (dw_w dw) = ty)) as [Heq|Hne].
    + rewrite last_snoc. by destruct ty.
    + rewrite app_nil_r. by apply Hpos.
  - intros w Hw. rewrite docked_move_one_xy, docked_move_one_pos.
    destruct (decide (dw_w dw = w)) as [|Hne]; [ done | ].
    apply Hxy. rewrite windows_of_app in Hw.
    apply elem_of_app in Hw as [Hw|Hw]; [ done | ].
    simpl in Hw. apply list_elem_of_singleton in Hw. congruence.
Qed.

(* ===================================================================== *)
(** ** layout.c: reading any file                                         *)
(* ===================================================================== *)

Import Layout.

Lemma read_line_spec n : forall file,
  (read_line n file).1 ++ (read_line n file).2 = file /\
  (length (read_line n file).1 <= n)%nat /\
  (file <> [] -> (0 < n)%nat ->
   (length (read_line n file).2 < length file)%nat).
Proof.
  induction n as [|n IH]; intros file; simpl.
  - repeat split; [ lia | intros; lia ].
  - destruct file as [|c rest]; simpl; [ repeat split; try lia; done | ].
    destruct (Ascii.eqb c newline); simpl.
    + repeat split; lia.
    + specialize (IH rest). destruct (read_line n rest) as [line rest'].
      simpl in *. destruct IH as (Hcat & Hlen & _).
      repeat split; [ by rewrite Hcat | lia | ].
      intros _ _. apply (f_equal length) in Hcat.
      rewrite length_app in Hcat. lia.
Qed.

Lemma strchr_spec c : forall s,
  match strchr s c with
  | Some (before, after) => s = before ++ c :: after /\ c ∉ before
  | None => c ∉ s
  end.
Proof.
  induction s as [|a s IH]; simpl; [ apply not_elem_of_nil | ].
  destruct (Ascii.eqb a c) eqn:Hac.
  - apply Ascii.eqb_eq in Hac as ->. split; [ done | apply not_elem_of_nil ].
  - apply Ascii.eqb_neq in Hac.
    destruct (strchr s c) as [[before after]|].
    + destruct IH as [-> Hn]. split; [ done | ].
      apply not_elem_of_cons. split; [ congruence | done ].
    + apply not_elem_of_cons. split; [ congruence | done ].
Qed.

Lemma c_str_spec buf : (NUL ∉ c_str buf) /\ (length (c_str buf) <= length buf)%nat.
Proof.
  induction buf as [|a buf [IH1 IH2]]; simpl; [ split; [ apply not_elem_of_nil | lia ] | ].
  destruct (Ascii.eqb a NUL) eqn:Ha; simpl.
  - split; [ apply not_elem_of_nil | lia ].
  - apply Ascii.eqb_neq in Ha. split; [ | lia ].
    apply not_elem_of_cons. split; [ congruence | done ].
Qed.

(** A value that [parse_next] delivers is a piece of one line. *)
Definition line_piece (v : list ascii) : Prop :=
  (newline ∉ v) /\ (NUL ∉ v) /\ (length v <= 510)%nat.

Lemma parse_next_spec p :
  (length (handle (parse_next p)) <= length (handle p))%nat /\
  forall v, parse_value (parse_next p) = Some v ->
    (length (handle (parse_next p)) < length (handle p))%nat /\ line_piece v.
Proof.
  unfold parse_next, fgets.
  destruct (handle p) as [|c file] eqn:Hh; [ simpl; split; [ lia | done ] | ].
  destruct (read_line_spec (512 - 1) (c :: file)) as (Hcat & Hlen & Hshrink).
  specialize (Hshrink ltac:(done) ltac:(lia)).
  destruct (read_line (512 - 1) (c :: file)) as [line rest]. simpl in Hcat, Hlen, Hshrink.
  destruct (c_str_spec line) as [Hnul Hclen].
  pose proof (strchr_spec space (c_str line)) as Hsp.
  destruct (strchr (c_str line) space) as [[before after]|];
    [ | simpl; split; [ lia | done ] ].
  destruct Hsp as [Hkey _].
  assert (Hafter : (length after <= 510)%nat /\ NUL ∉ after).
  { rewrite Hkey in Hnul, Hclen. rewrite length_app in Hclen. simpl in Hclen.
    split; [ lia | ]. intros Hin. apply Hnul. apply elem_of_app. right.
    by apply elem_of_cons; right. }
  destruct Hafter as [Halen Hanul].
  pose proof (strchr_spec newline after) as Hnl.
  destruct (strchr after newline) as [[value tail]|]; simpl.
  - destruct Hnl as [Hval Hvnl]. split; [ lia | ].
    intros v [= <-]. split; [ lia | ]. split; [ done | ].
    rewrite Hval in Halen, Hanul. rewrite length_app in Halen.
    split; [ | lia ]. intros Hin. apply Hanul. apply elem_of_app. by left.
  - split; [ lia | ]. intros v [= <-]. by repeat split.
Qed.

Lemma parse_string_value p key v :
  parse_string p key = Some v -> parse_value p = Some v.
Proof.
  unfold parse_string. destruct (parse_value p); [ | done ].
  by destruct (strcmp (parse_key p) key =? 0).
Qed.

Lemma parse_next_le p :
  (length (handle (parse_next p)) <= length (handle p))%nat.
Proof. apply parse_next_spec. Qed.

(** What [layout_load] makes of a line that starts a record. *)
Definition fresh_record (it : Item) : Prop :=
  placeholder it /\ line_piece (item_name it).

Lemma load_loop_total fuel : forall p s,
  (length (handle p) < fuel)%nat ->
  exists new,
    load_loop fuel p s = (Done tt, with_items (items s ++ new) s) /\
    Forall fresh_record new.
Proof.
  induction fuel as [|fuel IH]; intros p s Hfuel; [ lia | ].
  cbn [load_loop].
  set (p1 := parse_next p).
  destruct (parse_string p1 (lit "item")) as [name|] eqn:Hname.
  2:{ exists []. rewrite app_nil_r, with_items_same. by split. }
  apply parse_string_value in Hname.
  destruct (parse_next_spec p) as [_ Hp1]. fold p1 in Hp1.
  destruct (Hp1 name Hname) as [Hlt Hpiece].
  unfold bind at 1, item_new at 1.
  set (it0 := mkItem name None None None None (-1) (-1) (-1) 0 0).
  assert (Hfresh : forall d x y w h,
            fresh_record (mkItem name None None None None d x y w h))
    by (intros; split; [ by repeat split | exact Hpiece ]).
  assert (Hstop : forall it, fresh_record it ->
            exists new,
              ret tt (with_items (items s ++ [it]) s) =
                (Done tt, with_items (items s ++ new) s) /\
              Forall fresh_record new).
  { intros it Hit. exists [it]. split; [ done | by apply Forall_singleton ]. }
  set (p2 := parse_next p1).
  destruct (parse_integer p2 (lit "pane")) as [v1|]; [ | by apply Hstop ].
  unfold bind at 1. erewrite set_item_last by reflexivity. rewrite with_items_twice.
  set (p3 := parse_next p2).
  destruct (parse_integer p3 (lit "x")) as [v2|]; [ | by apply Hstop ].
  unfold bind at 1. erewrite set_item_last by reflexivity. rewrite with_items_twice.
  set (p4 := parse_next p3).
  destruct (parse_integer p4 (lit "y")) as [v3|]; [ | by apply Hstop ].
  unfold bind at 1. erewrite set_item_last by reflexivity. rewrite with_items_twice.
  set (p5 := parse_next p4).
  destruct (parse_integer p5 (lit "w")) as [v4|]; [ | by apply Hstop ].
  unfold bind at 1. erewrite set_item_last by reflexivity. rewrite with_items_twice.
  set (p6 := parse_next p5).
  destruct (parse_integer p6 (lit "h")) as [v5|]; [ | by apply Hstop ].
  unfold bind at 1. erewrite set_item_last by reflexivity. rewrite with_items_twice.
  destruct (IH p6 (with_items (items s ++ [with_h v5 (with_w v4 (with_y v3
               (with_x v2 (with_dock v1 it0))))]) s)) as (new & Hrun & Hnew).
  { assert (length (handle p2) <= length (handle p1))%nat by apply parse_next_le.
    assert (length (handle p3) <= length (handle p2))%nat by apply parse_next_le.
    assert (length (handle p4) <= length (handle p3))%nat by apply parse_next_le.
    assert (length (handle p5) <= length (handle p4))%nat by apply parse_next_le.
    assert (length (handle p6) <= length (handle p5))%nat by apply parse_next_le.
    lia. }
  rewrite Hrun. cbn [items with_items]. rewrite with_items_twice, <- app_assoc.
  eexists. split; [ reflexivity | ].
  apply Forall_cons. split; [ apply Hfresh | done ].
Qed.

Lemma layout_load_run s :
  exists s',
    layout_load s = (Done tt, s') /\
    (items s <> [] -> items s' = items s) /\
    (items s = [] ->
     s' = with_items (items s') s /\ Forall fresh_record (items s')).
Proof.
  unfold layout_load, returning, bind at 1, gets at 1.
  destruct (decide (items s = [])) as [He|Hne].
  - rewrite bool_decide_eq_true_2 by done.
    unfold bind at 1, g_return_if_fail at 1. unfold bind at 1, gets at 1.
    destruct (layout_file s) as [content|].
    + destruct (load_loop_total (S (length content)) (mkParser [] None content) s)
        as (new & -> & Hnew); [ simpl; lia | ].
      eexists. split; [ reflexivity | ]. rewrite He. simpl.
      split; [ done | ]. intros _. split; [ reflexivity | exact Hnew ].
    + eexists. split; [ reflexivity | ]. split; [ done | ]. intros _.
      split; [ by rewrite with_items_same | rewrite He; constructor ].
  - rewrite bool_decide_eq_false_2 by done.
    unfold bind at 1, g_return_if_fail at 1.
    eexists. split; [ reflexivity | ]. split; [ done | ]. done.
Qed.

(** X4.  [layout_load] comes to an end on every file, whatever it holds:
    its loop always finds the end of the file.  When the list is empty it
    appends only placeholders, each with a name that is a piece of one
    line (no newline, no NUL, at most 510 characters), and changes nothing
    else; when the list is not empty it leaves the items as they are. *)
Theorem layout_load_terminates s :
  (layout_load s).1 = Done tt /\
  (items s <> [] -> items (layout_load s).2 = items s) /\
  (items s = [] ->
   (layout_load s).2 = with_items (items (layout_load s).2) s /\
   Forall fresh_record (items (layout_load s).2)).
Proof.
  destruct (layout_load_run s) as (s' & -> & Hkeep & Hnew). simpl.
  split; [ done | ]. split; [ exact Hkeep | exact Hnew ].
Qed.

(** X5.  A second [layout_load] changes no item: the records are not read
    twice. *)
Theorem layout_load_twice s :
  items (layout_load (layout_load s).2).2 = items (layout_load s).2.
Proof.
  destruct (layout_load_run s) as (s1 & Hrun1 & Hkeep & Hnew).
  rewrite Hrun1. cbn [snd].
  destruct (layout_load_run s1) as (s2 & Hrun2 & Hkeep' & _).
  destruct (decide (items s1 = [])) as [He1|Hne1]; [ | rewrite Hrun2; by apply Hkeep' ].
  destruct (decide (items s = [])) as [He|Hne].
  - destruct (Hnew He) as [Hs1 _].
    rewrite He1, <- He, with_items_same in Hs1. subst s1. by rewrite Hrun1.
  - rewrite Hrun2. apply Hkeep'. rewrite (Hkeep Hne). done.
Qed.

(* ===================================================================== *)
(** ** layout.c: what [layout_add] does to the list                       *)
(* ===================================================================== *)

(** *** The names in the list *)

Definition same_names (l l' : list Item) : Prop :=
  map item_name l' = map item_name l.

#[global] Instance same_names_frame : Frame same_names.
Proof. split; unfold same_names; congruence. Qed.

Lemma keeps_names_set_item j f :
  (forall it, item_name (f it) = item_name it) -> keeps same_names (set_item j f).
Proof. intros H s. by apply map_alter_fixed. Qed.

Lemma keeps_names_of_placing {A} (m : M A) :
  keeps same_placing m -> keeps same_names m.
Proof. intros H s. by apply same_placing_names. Qed.

#[global] Hint Extern 1 (forall it : Item, item_name _ = item_name _) =>
  (intros ?; reflexivity) : frame.
#[global] Hint Resolve keeps_names_set_item : frame.
#[global] Hint Resolve keeps_names_of_placing | 10 : frame.

(** The two ends of [layout_add]: what it does with a record it has found,
    and what it does with the record it goes on with. *)
Definition layout_add_found_item (i : nat) : M nat :=
  bind (get_item i) (fun it =>
  bind (g_return_if_fail "layout_add"
          (negb (is_some (item_widget it)) && negb (is_some (item_vbox it)) &&
           negb (is_some (item_window it)))) (fun _ =>
  bind (when (DOCKS <=? item_dock it) (set_item i (with_dock (-1)))) (fun _ =>
  ret i))).

Definition layout_add_item (widget : option Widget) (name : list ascii)
    (item : nat) : M unit :=
  bind (set_item item (with_widget widget)) (fun _ =>
  bind (vbox_new widget name) (fun vbox =>
  bind (set_item item (with_vbox vbox)) (fun _ =>
  item_add item))).

Definition layout_add_guard (widget : option Widget) (name : list ascii)
    (s : State) : bool :=
  is_some (layout s) && is_some (center s) && is_some widget &&
  (strlen name <=? 256) && negb (contains newline name).

Lemma layout_add_cases widget name s :
  layout_add widget name s =
  if layout_add_guard widget name s then
    match find_item (items s) name item_by_name 0 with
    | Some i =>
        returning tt (bind (layout_add_found_item i) (layout_add_item widget name)) s
    | None =>
        returning tt (layout_add_item widget name (length (items s)))
          (with_items
             (items s ++ [mkItem name None None None None (-1) (-1) (-1) 0 0]) s)
    end
  else (Done tt, with_gtk (with_call (G_critical "layout_add") (gtk s)) s).
Proof.
  unfold layout_add, layout_add_guard, returning.
  unfold bind at 1, gets at 1. unfold bind at 1, gets at 1.
  unfold bind at 1, g_return_if_fail at 1.
  destruct (is_some (layout s) && is_some (center s) && is_some widget &&
            (strlen name <=? 256) && negb (contains newline name)); [ | done ].
  unfold bind at 1, g_list_find_custom at 1, gets at 1.
  destruct (find_item (items s) name item_by_name 0) as [i|]; [ done | ].
  unfold bind at 1, item_new at 1. done.
Qed.

Lemma keeps_names_layout_add_item widget name item :
  keeps same_names (layout_add_item widget name item).
Proof. unfold layout_add_item. repeat keeps_step. Qed.

Lemma keeps_names_layout_add_found i : keeps same_names (layout_add_found_item i).
Proof. unfold layout_add_found_item. repeat keeps_step. Qed.

Lemma find_item_None l name : forall k,
  find_item l name item_by_name k = None -> name ∉ map item_name l.
Proof.
  induction l as [|it l IH]; intros k; simpl; [ intros _; apply not_elem_of_nil | ].
  unfold item_by_name at 1.
  destruct (strcmp (item_name it) name =? 0) eqn:Hc; [ done | ].
  intros H. apply not_elem_of_cons. split; [ | by eapply IH ].
  intros ->. by rewrite strcmp_refl in Hc.
Qed.

Lemma contains_false c s : contains c s = false -> c ∉ s.
Proof.
  unfold contains. pose proof (strchr_spec c s) as H.
  by destruct (strchr s c) as [[? ?]|].
Qed.

(** A name that [layout_add] accepts. *)
Definition short_line (name : list ascii) : Prop :=
  (newline ∉ name) /\ (length name <= 256)%nat.

(** X6.  [layout_add] never takes a record out of the list and never
    renames one: the names are as before, or the given name, which was not
    in the list, has no newline and is at most 256 characters long, comes
    at the end.  So a list without a name twice stays so, and a list of
    names without newlines stays so. *)
Theorem layout_add_names widget name s :
  let names := map item_name (items s) in
  let names' := map item_name (items (layout_add widget name s).2) in
  (names' = names \/
   names' = names ++ [name] /\ (name ∉ names) /\ short_line name) /\
  (NoDup names -> NoDup names') /\
  (Forall short_line names -> Forall short_line names').
Proof.
  cbv zeta.
  assert (H : map item_name (items (layout_add widget name s).2) =
                map item_name (items s) \/
              map item_name (items (layout_add widget name s).2) =
                map item_name (items s) ++ [name] /\
              (name ∉ map item_name (items s)) /\ short_line name).
  { rewrite layout_add_cases.
    destruct (layout_add_guard widget name s) eqn:Hg; [ | by left ].
    destruct (find_item (items s) name item_by_name 0) as [i|] eqn:Hf.
    - left. apply (keeps_returning same_names tt).
      apply keeps_bind; [ typeclasses eauto | apply keeps_names_layout_add_found | ].
      intros item. apply keeps_names_layout_add_item.
    - right.
      pose proof (keeps_returning same_names tt _
                    (keeps_names_layout_add_item widget name (length (items s)))
                    (with_items
                       (items s ++ [mkItem name None None None None (-1) (-1) (-1) 0 0])
                       s)) as Hk.
      unfold same_names in Hk. cbn [items with_items] in Hk.
      rewrite Hk, map_app. split; [ done | ].
      split; [ by eapply find_item_None | ].
      unfold layout_add_guard in Hg. rewrite !andb_true_iff in Hg.
      destruct Hg as [[_ Hlen] Hnl]. apply negb_true_iff, contains_false in Hnl.
      split; [ done | ]. apply Z.leb_le in Hlen. unfold strlen in Hlen. lia. }
  split; [ exact H | ].
  destruct H as [-> | (-> & Hnew & Hshort)]; [ done | ].
  split.
  - intros Hnd. apply NoDup_app. split; [ done | ]. split; [ | apply NoDup_singleton ].
    intros x Hx Hin. apply list_elem_of_singleton in Hin. by subst.
  - intros Hall. apply Forall_app. split; [ done | by apply Forall_singleton ].
Qed.

(** X7.  [layout_add] with a name that has no record yet: a record with
    the defaults of [item_new] is put at the end of the list, and the
    panel floats in a new window that is neither moved nor sized, since
    the record holds no position and no size. *)
Theorem layout_add_new_name s wd name :
  is_some (layout s) = true -> is_some (center s) = true ->
  (strlen name <=? 256) = true -> contains newline name = false ->
  find_item (items s) name item_by_name 0 = None ->
  let vbox := next_widget (gtk s) in
  let win := (next_widget (gtk s) + 3)%nat in
  exists g',
    layout_add (Some wd) name s =
      (Done tt,
       updated (items s ++
                [mkItem name (Some wd) (Some vbox) None (Some win) (-1) (-1) (-1) 0 0])
         g' s) /\
    calls g' =
      calls (gtk s) ++
      [ Gtk_widget_show_all vbox; Gtk_window_new win;
        Gtk_window_set_title win name; Gtk_widget_show_all win ] /\
    same_reports (gtk s) g'.
Proof.
  intros Hl Hc Hlen Hnl Hfind. cbv zeta.
  rewrite layout_add_cases. unfold layout_add_guard.
  rewrite Hl, Hc, Hlen, Hnl, Hfind. cbn [is_some andb negb].
  set (it0 := mkItem name None None None None (-1) (-1) (-1) 0 0).
  pose (n := length (items s)).
  destruct (vbox_new_run wd name
              (with_items (items s ++ [with_widget (Some wd) it0]) s))
    as (g1 & Hvbox & Hn1 & Hc1 & Hr1).
  cbn [gtk with_items] in Hvbox, Hn1, Hc1, Hr1.
  set (it2 := with_vbox (Some (next_widget (gtk s))) (with_widget (Some wd) it0)).
  assert (Hpre : layout_add_item (Some wd) name n
                   (with_items (items s ++ [it0]) s) =
                 item_add n (updated (items s ++ [it2]) g1 s)).
  { unfold layout_add_item, n.
    unfold bind at 1. erewrite set_item_last by reflexivity. rewrite with_items_twice.
    unfold bind at 1. rewrite Hvbox.
    unfold bind at 1. erewrite set_item_last by reflexivity.
    cbn [with_items with_gtk items]. reflexivity. }
  unfold returning. change (length (items s)) with n. rewrite Hpre.
  destruct (item_add_floating_run n (updated (items s ++ [it2]) g1 s) it2
              (next_widget (gtk s))) as (g2 & Hadd & Hc2 & Hn2 & Hr2);
    try done.
  { cbn [items updated with_gtk with_items]. unfold n.
    by rewrite lookup_app_r, Nat.sub_diag. }
  cbn [gtk updated with_gtk with_items items] in Hadd, Hc2, Hn2, Hr2.
  exists g2. rewrite Hadd. split; [ | split ].
  - unfold updated. cbn [items with_items with_gtk].
    unfold n. rewrite alter_last, Hn1. by destruct s.
  - rewrite Hc2, Hc1, Hn1, <- app_assoc. reflexivity.
  - destruct Hr1, Hr2. split; congruence.
Qed.

Lemma layout_add_new_name_witness :
  exists g',
    layout_add (Some 100%nat) (lit "playlist") (built None) =
      (Done tt,
       updated ([] ++
                [mkItem (lit "playlist") (Some 100%nat) (Some 10%nat) None
                   (Some 13%nat) (-1) (-1) (-1) 0 0])
         g' (built None)) /\
    calls g' =
      [] ++
      [ Gtk_widget_show_all 10; Gtk_window_new 13;
        Gtk_window_set_title 13 (lit "playlist"); Gtk_widget_show_all 13 ] /\
    same_reports (gtk (built None)) g'.
Proof.
  apply (layout_add_new_name (built None) 100%nat (lit "playlist"));
    vm_compute; reflexivity.
Defined.

(* ===================================================================== *)
(** ** layout.c: what removing and saving leave alone                     *)
(* ===================================================================== *)

(** *** Records and placeholders *)

(** Every record is still there with its name and dock, and every
    placeholder is exactly as it was. *)
Definition same_records (l l' : list Item) : Prop :=
  same_placing l l' /\
  forall j it, l !! j = Some it -> placeholder it -> l' !! j = Some it.

#[global] Instance same_records_frame : Frame same_records.
Proof.
  split.
  - intros l. split; [ apply frame_refl | done ].
  - intros a b c [Hp1 Hk1] [Hp2 Hk2]. split; [ by eapply frame_trans | ].
    intros j it Hj Hph. apply Hk2; [ by apply Hk1 | done ].
Qed.

Lemma forget_in_placeholder w it : placeholder it -> forget_in_item w it = it.
Proof.
  intros (Hw & Hv & Hp & Hwin). destruct it; simpl in *. by subst.
Qed.

Lemma destroy_records fuel : forall w s,
  same_records (items s) (items (destroy fuel w s)).
Proof.
  induction fuel as [|fuel IH]; intros w s; [ apply frame_refl | ].
  cbn [destroy].
  assert (Hfold : forall l s0,
            same_records (items s0)
              (items (fold_left (fun s c => destroy fuel c s) l s0))).
  { induction l as [|c l IHl]; intros s0; [ apply frame_refl | ].
    cbn [fold_left]. eapply frame_trans; [ apply IH | apply IHl ]. }
  eapply frame_trans; [ apply (Hfold (children (gtk s) w) s) | ].
  unfold null_on_destroy. cbn [items with_gtk].
  split.
  - unfold same_placing. rewrite map_map. apply map_ext. by intros [].
  - intros j it Hj Hph. rewrite list_lookup_fmap, Hj. simpl.
    by rewrite forget_in_placeholder.
Qed.

Lemma keeps_records_destroy w : keeps same_records (gtk_widget_destroy w).
Proof. intros s. apply destroy_records. Qed.

Lemma measured_placeholder g it : placeholder it -> measured g it = it.
Proof. intros (Hw & _). unfold measured. by rewrite Hw. Qed.

Lemma keeps_records_save_size i : keeps same_records (item_save_size i).
Proof.
  intros s. destruct (items s !! i) as [it|] eqn:Hi.
  - rewrite (item_save_size_run i s it Hi). cbn [snd items with_gtk with_items].
    split.
    + unfold same_placing. rewrite list_fmap_insert.
      destruct (measured_fields (gtk s) it) as (Hn & Hd & _).
      unfold placing at 1. rewrite Hn, Hd. apply list_insert_id.
      by rewrite list_lookup_fmap, Hi.
    + intros j x Hj Hph. destruct (decide (j = i)) as [->|Hne].
      * rewrite Hi in Hj. injection Hj as ->.
        rewrite measured_placeholder by done.
        apply list_lookup_insert_eq. by eapply lookup_lt_Some.
      * by rewrite list_lookup_insert_ne.
  - unfold item_save_size, returning, bind at 1, get_item at 1. rewrite Hi.
    apply frame_refl.
Qed.

#[global] Hint Resolve keeps_records_destroy keeps_records_save_size : frame.

Lemma keeps_records_container_remove c w :
  keeps same_records (gtk_container_remove c w).
Proof. unfold gtk_container_remove. repeat keeps_step. Qed.
Lemma keeps_records_unref w : keeps same_records (g_object_unref w).
Proof. unfold g_object_unref. repeat keeps_step. Qed.
#[global] Hint Resolve keeps_records_container_remove keeps_records_unref : frame.

Lemma keeps_records_item_remove i : keeps same_records (item_remove i).
Proof. unfold item_remove. repeat keeps_step. Qed.
#[global] Hint Resolve keeps_records_item_remove : frame.

(** X8.  [layout_remove] takes no record out of the list: whatever the
    widget and the state, every record is still at its place with its name
    and its dock, and every record that was a placeholder is exactly as it
    was. *)
Theorem layout_remove_keeps_records widget s :
  let s' := (layout_remove widget s).2 in
  map placing (items s') = map placing (items s) /\
  forall j it, items s !! j = Some it -> placeholder it -> items s' !! j = Some it.
Proof.
  cbv zeta.
  assert (H : keeps same_records (layout_remove widget))
    by (unfold layout_remove; repeat keeps_step).
  apply H.
Qed.

Lemma measured_same_toolkit g g' it :
  same_toolkit g g' -> measured g' it = measured g it.
Proof.
  intros (_ & _ & _ & _ & _ & Ha & Hp). unfold measured. by rewrite Ha, Hp.
Qed.

Lemma measured_twice g it : measured g (measured g it) = measured g it.
Proof.
  unfold measured.
  destruct it as [name [wd|] [vbox|] paned [win|] dock x y w h]; simpl; try done;
    destruct (dock <? 0) eqn:Hd; simpl; rewrite ?Hd; done.
Qed.

Lemma same_toolkit_trans g1 g2 g3 :
  same_toolkit g1 g2 -> same_toolkit g2 g3 -> same_toolkit g1 g3.
Proof.
  unfold same_toolkit. intros (?&?&?&?&?&?&?) (?&?&?&?&?&?&?).
  repeat split; congruence.
Qed.

(** The loop of [layout_save] measures every item from [node] on and
    prints it; nothing but the items and the warnings of the toolkit
    changes. *)
Lemma save_loop_items count : forall node out s,
  (node + count = length (items s))%nat ->
  exists g',
    save_loop count node out s =
      (Done (out ++ items_text (map (measured (gtk s)) (drop node (items s)))),
       updated (take node (items s) ++ map (measured (gtk s)) (drop node (items s)))
         g' s) /\
    same_toolkit (gtk s) g'.
Proof.
  induction count as [|count IH]; intros node out s Hlen.
  - exists (gtk s). simpl. rewrite drop_ge by lia. unfold items_text. simpl.
    rewrite !app_nil_r, take_ge by lia. unfold updated.
    split; [ | apply same_toolkit_refl ]. by destruct s.
  - destruct (lookup_lt_is_Some_2 (items s) node) as [it Hit]; [ lia | ].
    cbn [save_loop]. unfold bind at 1. unfold get_item at 1. rewrite Hit.
    set (m := measured (gtk s) it).
    assert (Hrun1 : exists g1,
               when (is_some (item_widget it)) (item_save_size node) s =
                 (Done tt, updated (<[node := m]> (items s)) g1 s) /\
               same_toolkit (gtk s) g1).
    { unfold when. destruct (is_some (item_widget it)) eqn:Hw.
      - rewrite (item_save_size_run node s it Hit). eexists. split; [ reflexivity | ].
        destruct (measurable it); [ apply same_toolkit_refl | apply same_toolkit_call ].
      - exists (gtk s). split; [ | apply same_toolkit_refl ].
        unfold m, measured. destruct (item_widget it); [ done | ].
        rewrite list_insert_id by done. unfold updated. by destruct s. }
    destruct Hrun1 as (g1 & Hrun1 & Hg1).
    unfold bind at 1. rewrite Hrun1.
    set (s1 := updated (<[node := m]> (items s)) g1 s).
    assert (Hlook1 : items s1 !! node = Some m).
    { unfold s1. cbn. apply list_lookup_insert_eq. lia. }
    unfold bind at 1. unfold get_item at 1. rewrite Hlook1.
    destruct (IH (S node) (out ++ item_record m) s1) as (g2 & Hrun & Hg2).
    { unfold s1. cbn. rewrite length_insert. lia. }
    rewrite Hrun. exists g2. split; [ | by eapply same_toolkit_trans ].
    assert (Hm : forall l, map (measured g1) l = map (measured (gtk s)) l)
      by (intros l; apply map_ext; intros; by apply measured_same_toolkit).
    subst s1. unfold updated. cbn [items gtk with_gtk with_items].
    rewrite (drop_S (items s) it node Hit). cbn [map].
    rewrite !drop_insert_lt by lia.
    erewrite take_S_r by (apply list_lookup_insert_eq; lia).
    rewrite !take_insert_ge by lia. rewrite !Hm. fold m.
    f_equal.
    + unfold items_text. cbn [map concat]. by rewrite <- (app_assoc out).
    + rewrite <- app_assoc. by destruct s.
Qed.

Lemma layout_save_items s :
  user_dir_writable s = true ->
  exists g',
    layout_save s =
      (Done tt,
       with_layout_file (Some (items_text (map (measured (gtk s)) (items s))))
         (updated (map (measured (gtk s)) (items s)) g' s)) /\
    same_toolkit (gtk s) g'.
Proof.
  intros Hw. unfold layout_save, returning, bind at 1, gets at 1.
  rewrite Hw. unfold bind at 1, g_return_if_fail. unfold bind at 1, modify at 1.
  unfold bind at 1, gets at 1.
  destruct (save_loop_items (length (items (with_layout_file (Some []) s))) 0 []
              (with_layout_file (Some []) s)) as (g' & Hrun & Hg);
    [ simpl; lia | ].
  unfold bind. rewrite Hrun. unfold modify. exists g'. split; [ | exact Hg ].
  cbn. rewrite drop_0. by destruct s.
Qed.

(** X9.  [layout_save] settles: it refreshes the size (and, for a floating
    panel, the position) of every record that has a widget from what the
    toolkit reports, leaves every other field and every placeholder as it
    is, and writes the records of the list as it then stands; a second
    [layout_save] changes no item and writes the same file. *)
Theorem layout_save_settles s :
  user_dir_writable s = true ->
  let s1 := (layout_save s).2 in
  let s2 := (layout_save s1).2 in
  items s1 = map (measured (gtk s)) (items s) /\
  layout_file s1 = Some (items_text (items s1)) /\
  (forall j it, items s !! j = Some it -> placeholder it -> items s1 !! j = Some it) /\
  items s2 = items s1 /\ layout_file s2 = layout_file s1.
Proof.
  intros Hw s1 s2.
  destruct (layout_save_items s Hw) as (g1 & Hrun1 & Hg1).
  assert (Hi1 : items s1 = map (measured (gtk s)) (items s))
    by (unfold s1; by rewrite Hrun1).
  assert (Hf1 : layout_file s1 = Some (items_text (items s1)))
    by (unfold s1; by rewrite Hrun1).
  assert (Hw1 : user_dir_writable s1 = true)
    by (unfold s1; rewrite Hrun1; by destruct s).
  assert (Hgtk1 : same_toolkit (gtk s) (gtk s1))
    by (unfold s1; by rewrite Hrun1).
  destruct (layout_save_items s1 Hw1) as (g2 & Hrun2 & Hg2).
  assert (Hi2 : items s2 = items s1).
  { unfold s2. rewrite Hrun2. cbn. rewrite Hi1, map_map. apply map_ext.
    intros it. rewrite (measured_same_toolkit _ _ _ Hgtk1). apply measured_twice. }
  split; [ done | ]. split; [ done | ]. split; [ | split; [ done | ] ].
  - intros j it Hj Hph. rewrite Hi1, list_lookup_fmap, Hj. simpl.
    by rewrite measured_placeholder.
  - rewrite Hf1, <- Hi2. unfold s2. by rewrite Hrun2.
Qed.

Lemma layout_save_settles_witness :
  let s1 := (layout_save playlist_shown).2 in
  let s2 := (layout_save s1).2 in
  items s1 = map (measured (gtk playlist_shown)) (items playlist_shown) /\
  layout_file s1 = Some (items_text (items s1)) /\
  (forall j it,
     items playlist_shown !! j = Some it -> placeholder it ->
     items s1 !! j = Some it) /\
  items s2 = items s1 /\ layout_file s2 = layout_file s1.
Proof.
  apply (layout_save_settles playlist_shown). vm_compute. reflexivity.
Defined.

(* ===================================================================== *)
(** ** layout.c: the round trip through the file                          *)
(* ===================================================================== *)

(** C2, as stated, fails.  [layout_save] measures every panel that is shown
    before it writes the file, so what is loaded is the measured geometry,
    not the geometry the item had: the floating "search tool" is handed in
    with x, y, w, h = 10, 20, 30, 40 and comes back with 50, 60, 300, 200,
    the position of its window and the size of its box. *)
Lemma layout_save_load_refreshes_geometry :
  let loaded := (layout_load (with_items [] (layout_save two_panels).2)).2 in
  map saved_fields (items two_panels) =
    [ (lit "playlist", 1, 2, 3, 4, 5); (lit "search tool", -1, 10, 20, 30, 40) ] /\
  map saved_fields (items loaded) =
    [ (lit "playlist", 1, 2, 3, 4, 5); (lit "search tool", -1, 50, 60, 300, 200) ] /\
  map saved_fields (items loaded) <> map saved_fields (items two_panels).
Proof.
  cbv zeta.
  assert (Hgiven : map saved_fields (items two_panels) =
            [ (lit "playlist", 1, 2, 3, 4, 5);
              (lit "search tool", -1, 10, 20, 30, 40) ])
    by (vm_compute; reflexivity).
  assert (Hloaded :
            map saved_fields
              (items (layout_load (with_items [] (layout_save two_panels).2)).2) =
            [ (lit "playlist", 1, 2, 3, 4, 5);
              (lit "search tool", -1, 50, 60, 300, 200) ])
    by (vm_compute; reflexivity).
  split; [ exact Hgiven | ]. split; [ exact Hloaded | ].
  rewrite Hloaded, Hgiven. discriminate.
Qed.

Lemma measured_hidden g it :
  item_widget it = None \/ item_vbox it = None -> measured g it = it.
Proof.
  unfold measured. intros [-> | ->]; [ done | by destruct (item_widget it) ].
Qed.

(** C2, amended.  When the file can be written, [layout_save] first
    measures every item that has a widget and a box (its w and h become
    the size the toolkit reports for the box and, for a floating item with
    a window, its x and y the position of the window), and leaves every
    other item as it is; [layout_load] on an empty list then gives, in the
    same order, items with the name, dock, x, y, w and h of the items so
    measured, provided these have names without newline or NUL of at most
    256 characters and fields that are [gint]s.  So every item comes back
    with its name and dock, an item without a widget or without a box with
    all six fields, and an empty list as an empty list. *)
Theorem layout_save_load_measured s :
  user_dir_writable s = true ->
  Forall well_formed (map (measured (gtk s)) (items s)) ->
  let saved := (layout_save s).2 in
  let loaded := (layout_load (with_items [] saved)).2 in
  (layout_save s).1 = Done tt /\
  (layout_load (with_items [] saved)).1 = Done tt /\
  map saved_fields (items loaded) =
    map saved_fields (map (measured (gtk s)) (items s)) /\
  map item_name (items loaded) = map item_name (items s) /\
  map item_dock (items loaded) = map item_dock (items s) /\
  (forall j it,
     items s !! j = Some it ->
     item_widget it = None \/ item_vbox it = None ->
     saved_fields <$> items loaded !! j = Some (saved_fields it)) /\
  (items s = [] -> items loaded = []).
Proof.
  intros Hw Hwf. cbv zeta.
  destruct (layout_save_items s Hw) as (g' & Hrun & _).
  assert (Hsaved : items (layout_save s).2 = map (measured (gtk s)) (items s))
    by (by rewrite Hrun).
  destruct (layout_save_load_round_trip s Hw) as (Hs & Hl & Hfields & Hempty).
  { by rewrite Hsaved. }
  rewrite Hsaved in Hfields.
  split; [ done | ]. split; [ done | ]. split; [ done | ].
  assert (Hproj : forall (A : Type) (f : list ascii * Z * Z * Z * Z * Z -> A)
                    (g : Item -> A),
            (forall it, f (saved_fields it) = g it) ->
            (forall it, g (measured (gtk s) it) = g it) ->
            map g (items (layout_load (with_items [] (layout_save s).2)).2) =
            map g (items s)).
  { intros A f g Hfg Hgm.
    rewrite <- (map_ext (fun it => f (saved_fields it)) g) by done.
    rewrite <- (map_map saved_fields f), Hfields, !map_map.
    apply map_ext. intros it. by rewrite Hfg, Hgm. }
  split.
  { apply (Hproj _ (fun t => t.1.1.1.1.1)); [ done | ].
    intros it. by destruct (measured_fields (gtk s) it) as (-> & _). }
  split.
  { apply (Hproj _ (fun t => t.1.1.1.1.2)); [ done | ].
    intros it. by destruct (measured_fields (gtk s) it) as (_ & -> & _). }
  split; [ | done ].
  intros j it Hj Hhidden.
  apply (f_equal (fun l => l !! j)) in Hfields.
  rewrite !list_lookup_fmap in Hfields. rewrite Hj in Hfields. simpl in Hfields.
  rewrite measured_hidden in Hfields by done. exact Hfields.
Qed.

Lemma layout_save_load_measured_witness :
  let loaded := (layout_load (with_items [] (layout_save two_panels).2)).2 in
  map saved_fields (items loaded) =
    map saved_fields (map (measured (gtk two_panels)) (items two_panels)) /\
  map saved_fields (map (measured (gtk two_panels)) (items two_panels)) =
    [ (lit "playlist", 1, 2, 3, 4, 5); (lit "search tool", -1, 50, 60, 300, 200) ].
Proof.
  cbv zeta. split; [ | vm_compute; reflexivity ].
  apply (layout_save_load_measured two_panels eq_refl).
  assert (Hm : map (measured (gtk two_panels)) (items two_panels) =
            [ mkItem (lit "playlist") None None None None 1 2 3 4 5;
              mkItem (lit "search tool") (Some 5%nat) (Some 6%nat) None
                (Some 7%nat) (-1) 50 60 300 200 ])
    by (vm_compute; reflexivity).
  rewrite Hm. repeat constructor; literal_well_formed.
Defined.
